(** * AiiDA band structures: [find_bandgap], [BandsData] and the test fixture

    A shallow embedding of [aiida/orm/data/array/bands.py] (the routine
    [find_bandgap] and the storage and export-format methods of the class
    [BandsData]) and of the class teardown of [aiida/djsite/db/testbase.py].

    Conventions of the embedding.
    - The routine [find_bandgap] is embedded twice.  In [Bands] a float is
      a canonical rational ([Qc]): the energies, the occupations and the
      arguments are finite numbers.  In [Float64] a float is a finite
      number, an infinity or NaN, as the elements of an array of type
      float64 and the arguments of the routine can be; on nodes and
      arguments that are finite the two routines agree
      ([find_bandgap_finite]).  In both the arithmetic on finite numbers
      is exact: rounding, overflow and the sign of zero are outside the
      model, and so are the stored arrays of other types than float64.
    - A Python call is a value of [result]: either it returns ([Ok]) or it
      raises ([Raise]).  An exception raised by a [raise] statement of the
      source carries the message of the source; one raised by the
      interpreter or by numpy ([Runtime]) carries its class only.
    - The code is Python 2: [/] on two integers is floor division and
      [round] rounds halves away from zero. *)

From Stdlib Require Import ZArith QArith Qcanon Qround Qcabs Lia OrdersEx Ascii DecimalString.
From stdpp Require Import base option list strings gmap sorting numbers.

Local Open Scope Z_scope.

(** ** Exceptions and results *)

Inductive exn_class : Set :=
| ValueError | KeyError | AttributeError | IndexError | TypeError
| ValidationError | Exception | ObjectDoesNotExist | MultipleObjectsReturned
| OverflowError | UnicodeEncodeError.

Global Instance exn_class_eq_dec : EqDecision exn_class.
Proof. solve_decision. Defined.

Inductive exn : Type :=
| Raised (c : exn_class) (msg : string)
| Runtime (c : exn_class).

Definition class_of (e : exn) : exn_class :=
  match e with Raised c _ => c | Runtime c => c end.

Inductive result (A : Type) : Type :=
| Ok (a : A)
| Raise (e : exn).
Global Arguments Ok {A} a.
Global Arguments Raise {A} e.

Global Instance result_ret : MRet result := @Ok.
Global Instance result_bind : MBind result := λ A B f m,
  match m with Ok a => f a | Raise e => Raise e end.
Global Instance result_fmap : FMap result := λ A B f m,
  match m with Ok a => Ok (f a) | Raise e => Raise e end.

(** [try: m  except c: raise e'] *)
Definition try_except {A} (m : result A) (c : exn_class) (e' : exn) : result A :=
  match m with
  | Ok a => Ok a
  | Raise e => if decide (class_of e = c) then Raise e' else Raise e
  end.

(** ** Python builtins *)

Module Py.

(** [int(x)] on a float: truncation towards zero. *)
Definition int (x : Qc) : Z := Z.quot (Qnum x) (Z.pos (Qden x)).

Definition half : Qc := Q2Qc (1 # 2).

(** [round(x)] of Python 2: to the nearest integer, halves away from zero. *)
Definition round (x : Qc) : Qc :=
  if bool_decide (0 ≤ x)%Qc then Qc_of_Z (Qfloor (x + half)%Qc)
  else Qc_of_Z (- Qfloor (half - x)%Qc).

(** [sum(l)] *)
Definition sum (l : list Qc) : Qc := foldl Qcplus (Q2Qc 0) l.

(** [min(l)] and [max(l)]: [ValueError] on an empty sequence. *)
Definition min (l : list Qc) : result Qc :=
  match l with
  | [] => Raise (Runtime ValueError)
  | x :: l' => Ok (foldl (λ m y, if bool_decide (y < m)%Qc then y else m) x l')
  end.

Definition max (l : list Qc) : result Qc :=
  match l with
  | [] => Raise (Runtime ValueError)
  | x :: l' => Ok (foldl (λ m y, if bool_decide (m < y)%Qc then y else m) x l')
  end.

(** [l[i]] for a Python or numpy integer [i]: a negative index counts from
    the end, anything out of range raises [IndexError]. *)
Definition getitem {A} (l : list A) (i : Z) : result A :=
  let j := if bool_decide (i < 0) then Z.of_nat (length l) + i else i in
  if bool_decide (j < 0) then Raise (Runtime IndexError)
  else match l !! Z.to_nat j with
       | Some x => Ok x
       | None => Raise (Runtime IndexError)
       end.

(** [sorted(l, key=lambda x: x[0])]: a stable sort of pairs on their first
    component. *)
Fixpoint insert_by_key (p : Qc * Qc) (l : list (Qc * Qc)) : list (Qc * Qc) :=
  match l with
  | [] => [p]
  | q :: l' =>
      if bool_decide (p.1 ≤ q.1)%Qc then p :: q :: l'
      else q :: insert_by_key p l'
  end.

Definition sorted_by_key (l : list (Qc * Qc)) : list (Qc * Qc) :=
  foldr insert_by_key [] l.

(** [len(set(l))] *)
Definition len_set (l : list nat) : nat := length (remove_dups l).

End Py.

(** ** numpy arrays of floats, of the two ranks [set_bands] accepts *)

Module Numpy.

(** A rank-2 array is the list of its rows (one per k-point); a rank-3
    array is the list of its rank-2 blocks (one per spin). *)
Inductive ndarray : Type :=
| Nd2 (rows : list (list Qc))
| Nd3 (spins : list (list (list Qc))).

(** [len(a.shape)] *)
Definition ndim (a : ndarray) : Z :=
  match a with Nd2 _ => 2 | Nd3 _ => 3 end.

(** [numpy.concatenate([_ for _ in a], axis=1)] on the blocks of a rank-3
    array: the rows of the blocks are joined k-point by k-point.  numpy
    refuses an empty list of arrays. *)
Definition concatenate_axis1 (spins : list (list (list Qc))) : result (list (list Qc)) :=
  match spins with
  | [] => Raise (Runtime ValueError)
  | s :: ss => Ok (foldl (zip_with app) s ss)
  end.

(** [numpy.sort(a)] and [a.sort()] on a rank-2 array: every row is sorted. *)
Definition sort (rows : list (list Qc)) : list (list Qc) :=
  merge_sort Qcle <$> rows.

(** [a.transpose()] on a rank-2 array. *)
Fixpoint transpose (rows : list (list Qc)) : list (list Qc) :=
  match rows with
  | [] => []
  | r :: rs =>
      match rs with
      | [] => (λ x, [x]) <$> r
      | _ => zip_with cons r (transpose rs)
      end
  end.

(** [a.max()] and [a.min()]: numpy refuses an array without elements. *)
Definition amax (rows : list (list Qc)) : result Qc :=
  match Py.max (concat rows) with
  | Ok m => Ok m
  | Raise _ => Raise (Runtime ValueError)
  end.

Definition amin (rows : list (list Qc)) : result Qc :=
  match Py.min (concat rows) with
  | Ok m => Ok m
  | Raise _ => Raise (Runtime ValueError)
  end.

(** [numpy.where(numpy.array(l) > 0)[0]]: the positions of the positive
    entries, in increasing order. *)
Fixpoint where_positive_from (i : nat) (l : list Z) : list nat :=
  match l with
  | [] => []
  | n :: l' =>
      if bool_decide (0 < n) then i :: where_positive_from (S i) l'
      else where_positive_from (S i) l'
  end.

Definition where_positive (l : list Z) : list nat := where_positive_from 0 l.

End Numpy.

(** ** The class [BandsData]: storage *)

Module Bands.

(** A value of the attribute store: a string ([units]) or a list of
    strings ([array_labels]). *)
Inductive attr : Type :=
| AStr (s : string)
| AStrs (l : list string).

(** Modelled from the spec: the parent classes ([KpointsData], on top of the
    generic array container [ArrayData]) are not part of the sources.  A
    node is its optional list of k-points, its named arrays and its named
    attributes; [Arr] is the type of the stored numpy arrays. *)
Record BandsData (Arr : Type) : Type := mkBandsData {
  kpoints : option (list (Qc * Qc * Qc));
  arrays : gmap string Arr;
  attrs : gmap string attr
}.
Global Arguments mkBandsData {Arr} _ _ _.
Global Arguments kpoints {Arr} _.
Global Arguments arrays {Arr} _.
Global Arguments attrs {Arr} _.

Section storage.
Context {Arr : Type}.
Implicit Types self : BandsData Arr.

(** Modelled from the spec: [ArrayData.get_array], which is not part of
    the sources, returns the array stored under a name and raises
    [KeyError] when there is none. *)
Definition get_array self (name : string) : result Arr :=
  match arrays self !! name with
  | Some a => Ok a
  | None => Raise (Runtime KeyError)
  end.

(** Modelled from the spec: [ArrayData.set_array], which is not part of
    the sources, stores an array under a name. *)
Definition set_array self (name : string) (a : Arr) : BandsData Arr :=
  mkBandsData (kpoints self) (<[name := a]> (arrays self)) (attrs self).

(** Modelled from the spec: [Node._set_attr] and [Node.get_attr], which
    are not part of the sources. *)
Definition _set_attr self (name : string) (v : attr) : BandsData Arr :=
  mkBandsData (kpoints self) (arrays self) (<[name := v]> (attrs self)).

Definition get_attr_default self (name : string) : option attr :=
  attrs self !! name.

(** Modelled from the spec: [KpointsData.get_kpoints], which is not part
    of the sources, raises [AttributeError] when no k-points were set. *)
Definition get_kpoints self : result (list (Qc * Qc * Qc)) :=
  match kpoints self with
  | Some k => Ok k
  | None => Raise (Runtime AttributeError)
  end.

(** The property [array_labels]: [self.get_attr('array_labels', None)]. *)
Definition array_labels self : option attr := get_attr_default self "array_labels".

(** What [get_bands] hands back: the bands alone, or the list
    [to_return] when occupations or labels were asked for. *)
Inductive item : Type :=
| IArray (a : Arr)
| ILabels (l : option attr).

Inductive returned : Type :=
| Single (bands : Arr)
| Several (to_return : list item).

Definition get_bands self (also_occupations also_labels : bool) : result returned :=
  bands ← try_except (get_array self "bands") KeyError
             (Raised AttributeError "No stored bands has been found");
  let to_return := [IArray bands] in
  to_return ←
    (if also_occupations then
       occupations ← try_except (get_array self "occupations") KeyError
                        (Raised AttributeError "No occupations were set");
       Ok (to_return ++ [IArray occupations])
     else Ok to_return);
  let to_return :=
    if also_labels then to_return ++ [ILabels (array_labels self)] else to_return in
  if bool_decide (length to_return = 1%nat) then Ok (Single bands)
  else Ok (Several to_return).

End storage.

Global Arguments item : clear implicits.
Global Arguments returned : clear implicits.

(** ** The class [BandsData]: validation and [set_bands] *)

(** numpy as far as the class uses it.  [Obj] is the type of the Python
    objects passed as [bands] and [occupations], [Arr] the type of numpy
    arrays and [Elem] the type of their elements. *)
Class NumpyLike (Obj Arr Elem : Type) : Type := {
  np_array : Obj → Arr;            (* numpy.array(x) *)
  shape : Arr → list nat;          (* a.shape *)
  dtype_is_float64 : Arr → bool;   (* a.dtype.type == numpy.float64 *)
  flatten : Arr → list Elem;       (* a.flatten() *)
  is_None : Elem → bool;           (* _ is None *)
  float : Elem → result Qc         (* float(_) *)
}.

(** The [labels] argument: a string, a tuple or list (every item is a
    string or is not), or an object of another class. *)
Inductive py_labels : Type :=
| LString (s : string)
| LSequence (items : list (option string))
| LOther.

(** The [units] argument: [None], a byte string, or an object of another
    class (a unicode string, say), of which the class takes [str(value)]
    only; [str] of such an object returns a string or raises, as for a
    unicode string with a character that is not ASCII. *)
Inductive py_units : Type :=
| UnitsNone
| UnitsStr (s : string)
| UnitsObject (str_value : result string).

(** [str(value)] *)
Definition str (value : py_units) : result string :=
  match value with
  | UnitsNone => Ok "None"
  | UnitsStr s => Ok s
  | UnitsObject str_value => str_value
  end.

(** Methods run in a state-and-exception monad over the node: a raised
    exception leaves the node as the method had made it so far. *)
Definition method (Arr A : Type) : Type :=
  BandsData Arr → result A * BandsData Arr.

Definition ret {Arr A} (a : A) : method Arr A := λ self, (Ok a, self).
Global Instance method_ret {Arr} : MRet (method Arr) := @ret Arr.

Definition raise {Arr A} (e : exn) : method Arr A := λ self, (Raise e, self).

Definition bind {Arr A B} (k : A → method Arr B) (m : method Arr A) : method Arr B :=
  λ self, match m self with
          | (Ok a, self') => k a self'
          | (Raise e, self') => (Raise e, self')
          end.
Global Instance method_bind {Arr} : MBind (method Arr) := @bind Arr.

(** A call that only reads the node. *)
Definition reading {Arr A} (f : BandsData Arr → result A) : method Arr A :=
  λ self, (f self, self).

(** A call that writes to the node. *)
Definition writing {Arr} (f : BandsData Arr → BandsData Arr) : method Arr unit :=
  λ self, (Ok tt, f self).

(** [try: m  except c: raise e'] around a method call. *)
Definition try_method {Arr A} (m : method Arr A) (c : exn_class) (e' : exn) : method Arr A :=
  λ self, let '(r, self') := m self in (try_except r c e', self').

Section validation.
Context {Obj Arr Elem : Type} `{!NumpyLike Obj Arr Elem}.

(** [[ float(_) for _ in x.flatten() if _ is not None ]], for its
    exceptions only. *)
Definition all_floats (x : Arr) : result (list Qc) :=
  mapM float (filter (λ e, is_None e = false) (flatten x)).

(** [float(_)] succeeds on every element of the array. *)
Definition holds_floats (a : Arr) : Prop :=
  Forall (λ x, ∃ v, float x = Ok v) (flatten a).

(** [float(_)] raises nothing but what the validation catches. *)
Definition float_raises_as_caught : Prop :=
  ∀ (x : Elem) e, float x = Raise e → class_of e = TypeError ∨ class_of e = ValueError.

(** The loop over [list_of_arrays_to_be_checked]. *)
Fixpoint check_arrays (l : list (Arr * string)) : result unit :=
  match l with
  | [] => Ok tt
  | (x, msg) :: l' =>
      let only_floats :=
        Raised ValueError ("The " +:+ msg +:+ " array can only contain float or None values") in
      _ ← try_except (try_except (all_floats x) TypeError only_floats) ValueError only_floats;
      check_arrays l'
  end.

Definition _validate_bands_occupations (bands : Obj) (occupations : option Obj)
    (labels : option py_labels)
  : method Arr (Arr * option Arr * option (list string)) :=
  kpoints ← try_method (reading get_kpoints) AttributeError
               (Raised AttributeError "Must first set the kpoints, then the bands");
  let the_bands := np_array bands in
  let rank := length (shape the_bands) in
  if negb (bool_decide (rank = 2%nat) || bool_decide (rank = 3%nat)) then
    raise (Raised ValueError
      "Bands must be an array of dimension 2([N_kpoints, N_bands]) or of dimension 3  ([N_arrays, N_kpoints, N_bands]), found instead {}")
  else
  let list_of_arrays_to_be_checked : list (Arr * string) := [] in
  let num_kpoints_from_bands :=
    if bool_decide (rank = 2%nat) then shape the_bands !!! 0%nat
    else shape the_bands !!! 1%nat in
  if bool_decide (num_kpoints_from_bands ≠ length kpoints) then
    raise (Raised ValueError "There must be energy values for every kpoint")
  else
  checked ←
    match occupations with
    | Some occupations =>
        let the_occupations := np_array occupations in
        if bool_decide (shape the_occupations ≠ shape the_bands) then
          raise (Raised ValueError
                   "Shape of occupations {} different from shapeshape of bands {}")
        else if negb (dtype_is_float64 the_bands) then
          ret (Some the_occupations,
               list_of_arrays_to_be_checked ++ [(the_occupations, "occupations")])
        else ret (Some the_occupations, list_of_arrays_to_be_checked)
    | None => ret (None, list_of_arrays_to_be_checked)
    end;
  let '(the_occupations, list_of_arrays_to_be_checked) := checked in
  let list_of_arrays_to_be_checked :=
    if negb (dtype_is_float64 the_bands)
    then list_of_arrays_to_be_checked ++ [(the_bands, "bands")]
    else list_of_arrays_to_be_checked in
  _ ← reading (λ _, check_arrays list_of_arrays_to_be_checked);
  the_labels ←
    match labels with
    | Some labels =>
        the_labels ←
          match labels with
          | LString s => ret [s]
          | LSequence items =>
              if forallb (λ i, bool_decide (is_Some i)) items
              then ret (omap id items)
              else raise (Raised ValidationError
                     "Band labels have an unrecognized type ({})but should be a string or a list of strings")
          | LOther =>
              raise (Raised ValidationError
                     "Band labels have an unrecognized type ({})but should be a string or a list of strings")
          end;
        if bool_decide (rank = 2%nat) && bool_decide (length the_labels ≠ 1%nat) then
          raise (Raised ValidationError "More array labels than the number of arrays")
        else if bool_decide (rank = 3%nat)
                && bool_decide (length the_labels ≠ shape the_bands !!! 0%nat) then
          raise (Raised ValidationError "More array labels than the number of arrays")
        else ret (Some the_labels)
    | None => ret None
    end;
  ret (the_bands, the_occupations, the_labels).

(** The setter of the property [units]: [str(value)], which may raise, and
    then the write of the attribute. *)
Definition set_units (value : py_units) : method Arr unit :=
  the_str ← reading (λ _, str value);
  writing (λ self, _set_attr self "units" (AStr the_str)).

Definition set_bands (bands : Obj) (units : py_units) (occupations : option Obj)
    (labels : option py_labels) : method Arr unit :=
  validated ← _validate_bands_occupations bands occupations labels;
  let '(the_bands, the_occupations, the_labels) := validated in
  _ ← writing (λ self, set_array self "bands" the_bands);
  _ ← set_units units;
  _ ← match the_labels with
      | Some the_labels => writing (λ self, _set_attr self "array_labels" (AStrs the_labels))
      | None => ret tt
      end;
  match the_occupations with
  | Some the_occupations => writing (λ self, set_array self "occupations" the_occupations)
  | None => ret tt
  end.

End validation.

(** ** The class [BandsData]: export formats *)

(** The order of Python 2 on byte strings. *)
Definition str_le (a b : string) : Prop := String_as_OT.compare a b ≠ Gt.

Global Instance str_le_dec : RelDecision str_le.
Proof. intros a b. unfold str_le. apply _. Defined.

(** [s.split(sep)] for a separator that is not empty: [skip] counts the
    characters of a separator just found that are still to be passed
    over, [piece] is the current piece, last character first. *)
Fixpoint split_from (sep : string) (skip : nat) (piece : list Ascii.ascii) (s : string)
  : list string :=
  match s with
  | EmptyString => [String.string_of_list_ascii (reverse piece)]
  | String c s' =>
      match skip with
      | S k => split_from sep k piece s'
      | O =>
          if String.prefix sep s
          then String.string_of_list_ascii (reverse piece)
                 :: split_from sep (String.length sep - 1) [] s'
          else split_from sep O (c :: piece) s'
      end
  end.

Definition split (sep s : string) : list string := split_from sep O [] s.

(** The names bound in the body of the class. *)
Definition class_body : list string :=
  [ "set_kpointsdata"; "_validate_bands_occupations"; "set_bands";
    "array_labels"; "units"; "_set_pbc"; "get_bands"; "_exportstring";
    "export"; "get_export_formats"; "_prepare_agr_batch"; "_prepare_dat_1";
    "_prepare_dat_2"; "_prepare_agr"; "_prepare_json" ].

(** [dir(self)]: the names of the class body and the [others] (inherited
    from the parent classes, which are not part of the sources, or set on
    the instance), each once, in alphabetical order. *)
Definition dir (others : list string) : list string :=
  merge_sort str_le (remove_dups (class_body ++ others)).

(** The methods of the class body that prepare a format, in alphabetical
    order. *)
Definition preparers : list string :=
  [ "_prepare_agr"; "_prepare_agr_batch"; "_prepare_dat_1"; "_prepare_dat_2";
    "_prepare_json" ].

Definition get_export_formats (others : list string) : result (list string) :=
  let names := dir others in
  mapM (λ i, Py.getitem (split "_prepare_" i) 1)
       (filter (λ i, String.prefix "_prepare_" i = true) names).

(** ** [find_bandgap] *)

Import Numpy.

(** Stable rounding function. *)
Definition nint (num : Qc) : Z :=
  if bool_decide (0 < num)%Qc then Py.int (num + Py.half)%Qc
  else Py.int (num - Py.half)%Qc.

(** Truth value of an optional number: [None] and zero are false. *)
Definition truthy (x : option Qc) : bool :=
  match x with
  | None => false
  | Some v => bool_decide (v ≠ Q2Qc 0)
  end.

(** All spins on one band per k-point. *)
Definition join_spins (stored : ndarray) : result (list (list Qc)) :=
  match stored with
  | Nd3 spins => concatenate_axis1 spins
  | Nd2 rows => Ok rows
  end.

Definition need_more_bands : exn :=
  Raised ValueError
    "To understand if it is a metal or insulator, need more bands than n_band=number_electrons".

(** What the analysis of the occupations or of the number of electrons
    leaves for the rest of the routine: the number of electrons and the
    energies of the highest occupied and lowest unoccupied band at every
    k-point, unless the routine has returned already. *)
Inductive analysis : Type :=
| Returned (r : bool * option Qc)
| Levels (number_electrons : Z) (homo lumo : list Qc).

(** [number_electrons is None]: the occupations tell the occupied bands. *)
Definition from_occupations (bandsdata : BandsData ndarray) (bands : list (list Qc))
  : result analysis :=
  let num_kpoints := length bands in
  got ← try_except (get_bands bandsdata true false) KeyError
          (Raised KeyError
             "Cannot determine metallicity if I don't have either fermi energy, or occupations");
  stored_occupations ←
    match got with
    | Several [_; IArray occ] => Ok occ
    | _ => Raise (Runtime ValueError)
    end;
  occupations ← join_spins stored_occupations;
  let sorted_pairs := (λ i, Py.sorted_by_key (zip i.1 i.2)) <$> zip bands occupations in
  if bool_decide (sorted_pairs = []) || existsb (λ j, bool_decide (j = [])) sorted_pairs
  then Raise (Runtime ValueError)
  else
    let bands := (fmap fst) <$> sorted_pairs in
    let occupations := (fmap snd) <$> sorted_pairs in
    let number_electrons :=
      Py.int (Py.round (Py.sum (Py.sum <$> occupations)
                        / Qc_of_Z (Z.of_nat num_kpoints))%Qc) in
    homo_indexes ←
      mapM (λ x, match list.last (where_positive (nint <$> x)) with
                 | Some i => Ok i
                 | None => Raise (Runtime IndexError)
                 end) occupations;
    if bool_decide (1 < Py.len_set homo_indexes)%nat then Ok (Returned (false, None))
    else
      homo ← mapM (λ p, Py.getitem p.1 (Z.of_nat p.2)) (zip bands homo_indexes);
      lumo ← try_except
                (mapM (λ p, Py.getitem p.1 (Z.of_nat p.2 + 1)) (zip bands homo_indexes))
                IndexError need_more_bands;
      Ok (Levels number_electrons homo lumo).

(** [number_electrons] is given: the bands are filled from the bottom. *)
Definition from_number_electrons (stored_bands : ndarray) (bands : list (list Qc))
    (number_electrons : Qc) : result analysis :=
  let bands := Numpy.sort bands in
  let number_electrons := Py.int number_electrons in
  let number_electrons_per_band := 4 - ndim stored_bands in
  homo ← mapM (λ i, Py.getitem i (number_electrons / number_electrons_per_band - 1)) bands;
  lumo ← try_except
            (mapM (λ i, Py.getitem i (number_electrons / number_electrons_per_band)) bands)
            IndexError need_more_bands;
  Ok (Levels number_electrons homo lumo).

(** The analysis on the Fermi energy. *)
Definition from_fermi_energy (bands : list (list Qc)) (fermi_energy : Qc)
  : result (bool * option Qc) :=
  let bands := Numpy.sort bands in
  let levels := transpose bands in
  max_mins ← mapM (λ i, mx ← Py.max i; mn ← Py.min i; Ok (mx, mn)) levels;
  top ← amax bands;
  if bool_decide (top < fermi_energy)%Qc then
    Raise (Raised ValueError
             "The Fermi energy is above all band energies, don't know what to do")
  else
  bottom ← amin bands;
  if bool_decide (fermi_energy < bottom)%Qc then
    Raise (Raised ValueError
             "The Fermi energy is below all band energies, don't know what to do.")
  else
  if existsb (λ i : Qc * Qc,
        bool_decide (i.2 < fermi_energy)%Qc && bool_decide (fermi_energy < i.1)%Qc) max_mins
  then Ok (false, None)
  else if existsb (λ i : Qc * Qc, bool_decide (i.1 = fermi_energy)) max_mins
          && existsb (λ i : Qc * Qc, bool_decide (i.2 = fermi_energy)) max_mins
  then Ok (false, Some (Q2Qc 0))
  else
    homo ← Py.max (filter (λ m, m < fermi_energy)%Qc (fst <$> max_mins));
    lumo ← Py.min (filter (λ m, fermi_energy < m)%Qc (snd <$> max_mins));
    let gap := (lumo - homo)%Qc in
    if bool_decide (gap ≤ Q2Qc 0)%Qc then
      Raise (Raised Exception "Something wrong has been implemented. Revise the code!")
    else Ok (true, Some gap).

(** The analysis on the occupations, for the number of electrons given or
    guessed. *)
Definition occupied_levels (bandsdata : BandsData ndarray) (stored_bands : ndarray)
    (bands : list (list Qc)) (number_electrons : option Qc) : result analysis :=
  match number_electrons with
  | None => from_occupations bandsdata bands
  | Some n => from_number_electrons stored_bands bands n
  end.

Definition find_bandgap (bandsdata : BandsData ndarray)
    (number_electrons fermi_energy : option Qc) : result (bool * option Qc) :=
  if truthy fermi_energy && truthy number_electrons then
    Raise (Raised ValueError
             "Specify either the number of electrons or the Fermi energy, but not both")
  else
  got ← try_except (get_bands bandsdata false false) KeyError
          (Raised KeyError "Cannot do much of a band analysis without bands");
  stored_bands ←
    match got with
    | Single b => Ok b
    | Several _ => Raise (Runtime AttributeError)
    end;
  bands ← join_spins stored_bands;
  match fermi_energy with
  | None =>
      found ← occupied_levels bandsdata stored_bands bands number_electrons;
      match found with
      | Returned r => Ok r
      | Levels number_electrons homo lumo =>
          if bool_decide (number_electrons `mod` 2 = 1) && bool_decide (ndim stored_bands = 2)
          then Ok (false, None)
          else
            lowest ← Py.min lumo;
            highest ← Py.max homo;
            let gap := (lowest - highest)%Qc in
            if bool_decide (gap = Q2Qc 0) then Ok (false, Some (Q2Qc 0))
            else if bool_decide (gap < Q2Qc 0)%Qc then Ok (false, None)
            else Ok (true, Some gap)
      end
  | Some fermi_energy => from_fermi_energy bands fermi_energy
  end.


(** The bands of one array are those of the other, permuted within every
    k-point (and, with spins, within every spin). *)
Definition permuted_within_kpoints (a a' : ndarray) : Prop :=
  match a, a' with
  | Nd2 rows, Nd2 rows' => Forall2 Permutation rows rows'
  | Nd3 spins, Nd3 spins' => Forall2 (Forall2 Permutation) spins spins'
  | _, _ => False
  end.

(** ** The class [BandsData]: export *)

(** [os.path.splitext] of [posixpath] and what it is made of. *)

(** [s.rfind(c)] for one character: the last position of [c], if any. *)
Fixpoint rfind (c : Ascii.ascii) (s : string) : option nat :=
  match s with
  | EmptyString => None
  | String a s' =>
      match rfind c s' with
      | Some k => Some (S k)
      | None => if Ascii.eqb a c then Some 0%nat else None
      end
  end.

(** Some character of [s] at a position from [from] up to, not including,
    [to] is not [c]. *)
Definition other_between (c : Ascii.ascii) (from to : nat) (s : string) : bool :=
  existsb (λ k, match String.get k s with
                | Some a => negb (Ascii.eqb a c)
                | None => false
                end) (seq from (to - from)).

(** The extension starts at the last dot of the last component of the
    path, unless only dots come before it in this component. *)
Definition splitext (p : string) : string * string :=
  let filenameIndex := match rfind "/"%char p with Some k => S k | None => 0%nat end in
  match rfind "."%char p with
  | Some dotIndex =>
      if bool_decide (filenameIndex ≤ dotIndex)%nat
         && other_between "."%char filenameIndex dotIndex p
      then (String.substring 0 dotIndex p,
            String.substring dotIndex (String.length p - dotIndex) p)
      else (p, EmptyString)
  | None => (p, EmptyString)
  end.

(** [sub in s] *)
Fixpoint contains (sub s : string) : bool :=
  String.prefix sub s
  || match s with
     | EmptyString => false
     | String _ s' => contains sub s'
     end.

Definition newline : string := String "010"%char EmptyString.
Definition tab : string := String "009"%char EmptyString.

(** The dictionary [plot_info] handed to the method that prepares a
    format. *)
Record plot_info : Type := mkPlotInfo {
  plot_x : list Qc;
  plot_y : list (list Qc);
  plot_labels : list (Qc * string);
  plot_filename : option string
}.

(** [distances]: between a point of the path and the one before, zero
    where both carry a label. *)
Definition path_distances (norm : Qc * Qc * Qc → Qc * Qc * Qc → Qc)
    (kpoints : list (Qc * Qc * Qc)) (labels_indices : list Z) : list Qc :=
  omap (λ i : nat,
          a ← kpoints !! i;
          b ← kpoints !! (i - 1)%nat;
          Some (if bool_decide (Z.of_nat i ∈ labels_indices)
                   && bool_decide (Z.of_nat i - 1 ∈ labels_indices)
                then Q2Qc 0 else norm a b))
       (seq 1 (length kpoints - 1)).

(** [x]: the distance along the path at every point. *)
Definition path_x (distances : list Qc) : list Qc :=
  (λ i, Py.sum (take i distances)) <$> seq 0 (length distances + 1).

(** [if new_labels[j][1] == 'G' and 'agr' in fileformat:
       new_labels[j][1] = r"\xG"] *)
Definition greek_gamma (fileformat : string) (j : nat) (new_labels : list (Qc * string))
  : list (Qc * string) :=
  match new_labels !! j with
  | Some l =>
      if bool_decide (l.2 = "G") && contains "agr" fileformat
      then <[j := (l.1, "\xG")]> new_labels
      else new_labels
  | None => new_labels
  end.

(** One turn of the loop that joins the labels in overlapping position. *)
Definition join_step (fileformat : string) (the_labels : list (Qc * string))
    (state : list (Qc * string) * nat) (i : nat) : list (Qc * string) * nat :=
  let '(new_labels, j) := state in
  let new_labels := greek_gamma fileformat j new_labels in
  match the_labels !! i, the_labels !! (i - 1)%nat with
  | Some this, Some before =>
      if bool_decide (this.1 = before.1) then
        (alter (λ l, (l.1, l.2 +:+ "|" +:+ this.2)) j new_labels, j)
      else (new_labels ++ [this], S j)
  | _, _ => (new_labels, j)
  end.

Definition join_labels (fileformat : string) (the_labels : list (Qc * string))
  : list (Qc * string) :=
  match the_labels with
  | first :: _ =>
      let '(new_labels, j) :=
        foldl (join_step fileformat the_labels) ([first], 0%nat)
              (seq 1 (length the_labels - 1)) in
      greek_gamma fileformat j new_labels
  | [] => []
  end.

(** No two neighbours of a list are equal. *)
Definition no_equal_neighbours {A} (l : list A) : Prop :=
  ∀ k a b, l !! k = Some a → l !! S k = Some b → a ≠ b.

(** The formats of [str.format]: [{}] of an integer that is not negative,
    and [{:.8f}] of a float, eight decimals of the nearest decimal number,
    the even one of two that are as near. *)
Definition decimal (n : N) : string := NilEmpty.string_of_uint (N.to_uint n).

Definition str_int (n : nat) : string := decimal (N.of_nat n).

Definition round_half_even (x : Qc) : Z :=
  let f := Qfloor x in
  let r := (x - Qc_of_Z f)%Qc in
  if bool_decide (r < Py.half)%Qc then f
  else if bool_decide (Py.half < r)%Qc then f + 1
  else if Z.even f then f else f + 1.

Definition format_8f (x : Qc) : string :=
  let n := Z.to_N (round_half_even (Qcabs x * Qc_of_Z (10 ^ 8))%Qc) in
  let decimals := decimal (n mod 10 ^ 8)%N in
  (if bool_decide (x < Q2Qc 0)%Qc then "-" else EmptyString)
  +:+ decimal (n / 10 ^ 8)%N +:+ "."
  +:+ String.concat EmptyString (replicate (8 - String.length decimals) "0")
  +:+ decimals.

Section exportstring.
(** What the class takes from elsewhere: [self.get_kpoints(cartesian=...)]
    and [self.labels] of [KpointsData], [numpy.linalg.norm] of a
    difference, [self.uuid], [get_file_header()], and [getattr(self, name)]
    for the methods that prepare a format, called with the keyword
    arguments. *)
Context {Kwargs : Type}.
Variable get_kpoints_cartesian : BandsData ndarray → bool → result (list (Qc * Qc * Qc)).
Variable self_labels : BandsData ndarray → result (option (list (Z * string))).
Variable norm : Qc * Qc * Qc → Qc * Qc * Qc → Qc.
Variable uuid : BandsData ndarray → string.
Variable get_file_header : string.
Variable getattr_self :
  string → option (plot_info → Kwargs → result (string * option (list (string * string)))).

(** The first part of [_exportstring]: the x and y's of the graph, the
    labels and the name of the file. *)
Definition build_plot_info (self : BandsData ndarray) (fileformat : string)
    (path : option string) (cartesian : bool) : result plot_info :=
  got ← get_bands self false false;
  stored_bands ←
    match got with
    | Single b => Ok b
    | Several _ => Raise (Runtime AttributeError)
    end;
  bands ← join_spins stored_bands;
  kpoints ←
    match get_kpoints_cartesian self cartesian with
    | Ok k => Ok k
    | Raise e =>
        if decide (class_of e = AttributeError) then get_kpoints self else Raise e
    end;
  labels ←
    match self_labels self with
    | Ok (Some labels) => Ok labels
    | Ok None => Ok []
    | Raise e =>
        if decide (class_of e = AttributeError) then Ok []
        else if decide (class_of e = TypeError) then Ok []
        else Raise e
    end;
  let labels_indices := fst <$> labels in
  let distances := path_distances norm kpoints labels_indices in
  let x := path_x distances in
  the_labels ← mapM (λ i : Z * string, xi ← Py.getitem x i.1; Ok (xi, i.2)) labels;
  let new_labels := join_labels fileformat the_labels in
  let filename :=
    match path with
    | Some p =>
        if bool_decide (p = EmptyString) then None
        else if bool_decide (fileformat = "agr")
             then Some ((splitext p).1 +:+ ".dat")
             else Some p
    | None => None
    end in
  Ok (mkPlotInfo x bands new_labels filename).

(** What [_exportstring] returns: the text, or the text and the extra
    files. *)
Inductive exported : Type :=
| Text (filetext : string)
| TextAndFiles (filetext : string) (extra_files : list (string * string)).

Definition _exportstring (self : BandsData ndarray) (fileformat : string)
    (path : option string) (comments cartesian : bool) (kwargs : Kwargs) : result exported :=
  let preparer_name := "_prepare_" +:+ fileformat in
  info ← build_plot_info self fileformat path cartesian;
  let bands := plot_y info in
  let filetext :=
    if comments then
      let filetext :=
        [ "# Dumped from BandsData UUID=" +:+ uuid self;
          "#" +:+ tab +:+ "points" +:+ tab +:+ "bands";
          "#" +:+ tab +:+ str_int (length bands) +:+ tab
              +:+ str_int (length (default [] (head bands)));
          "# " +:+ tab +:+ "label" +:+ tab +:+ "point" ]
        ++ ((λ l : Qc * string, "#" +:+ tab +:+ l.2 +:+ tab +:+ format_8f l.1)
              <$> plot_labels info) in
      get_file_header +:+ "#" +:+ newline +:+ String.concat newline filetext
        +:+ newline +:+ newline
    else EmptyString in
  prepared ←
    match getattr_self preparer_name with
    | Some prepare => prepare info kwargs
    | None => Raise (Runtime AttributeError)
    end;
  let '(newfiletext, extra_files) := prepared in
  let filetext := filetext +:+ newfiletext in
  match extra_files with
  | Some extra_files => Ok (TextAndFiles filetext extra_files)
  | None => Ok (Text filetext)
  end.

(** ** [export]: the files *)

(** The files: what is found at a path.  Writing a file does not fail. *)
Inductive io_exn : Type :=
| PyExn (e : exn)
| OSError (msg : string).

(** The loop that writes the extra files. *)
Fixpoint write_extra_files (overwrite : bool) (extra_files : list (string * string))
    (files : gmap string string) : option io_exn * gmap string string :=
  match extra_files with
  | [] => (None, files)
  | (k, v) :: rest =>
      if bool_decide (is_Some (files !! k)) && negb overwrite
      then (Some (OSError "A file was already found: {}"), files)
      else write_extra_files overwrite rest (<[k := v]> files)
  end.

(** [export] returns what it raised, if anything, and the files it
    leaves. *)
Definition export (self : BandsData ndarray) (path : string) (fileformat : option string)
    (overwrite comments cartesian : bool) (kwargs : Kwargs)
    (files : gmap string string) : option io_exn * gmap string string :=
  if bool_decide (path = EmptyString) then
    (Some (PyExn (Raised ValueError "Path not recognized")), files)
  else if bool_decide (is_Some (files !! path)) && negb overwrite then
    (Some (OSError "A file was already found at {}"), files)
  else
  let chosen : result string :=
    match fileformat with
    | None =>
        extension ← Py.getitem (split "." (splitext path).2) 1;
        if bool_decide (extension = EmptyString) then
          Raise (Raised ValueError "Cannot recognized the fileformat from the extension")
        else if bool_decide (extension = "dat") then Ok "dat_1"
        else Ok extension
    | Some f => Ok f
    end in
  match chosen with
  | Raise e => (Some (PyExn e), files)
  | Ok fileformat =>
      match _exportstring self fileformat (Some path) comments cartesian kwargs with
      | Raise e => (Some (PyExn e), files)
      | Ok (TextAndFiles filetext extra_files) =>
          match write_extra_files overwrite extra_files files with
          | (Some e, files) => (Some e, files)
          | (None, files) => (None, <[path := filetext]> files)
          end
      | Ok (Text filetext) =>
          if bool_decide (String.length filetext = 2%nat)
          then (Some (PyExn (Runtime AttributeError)), files)
          else (None, <[path := filetext]> files)
      end
  end.

End exportstring.

(** ** [_prepare_dat_1]: one line for every k-point, the distance along
    the path and the energies of the bands *)
Definition _prepare_dat_1 {V} (plot_info : plot_info) (kwargs : list (string * V))
  : result (string * option (list (string * string))) :=
  match kwargs with
  | _ :: _ => Raise (Raised TypeError "_prepare_dat_1 takes no keyword arguments")
  | [] =>
      let bands := plot_y plot_info in
      let x := plot_x plot_info in
      let return_text :=
        (λ i : Qc * list Qc, String.concat tab (format_8f i.1 :: (format_8f <$> i.2)))
          <$> zip x bands in
      Ok (String.concat newline return_text +:+ newline, None)
  end.

(** ** Arrays of floats seen through the numpy interface

    An array of floats passed as [bands] or [occupations]: [numpy.array]
    copies it, its type is [float64] and every element is a float. *)

Definition ndarray_shape (a : ndarray) : list nat :=
  match a with
  | Nd2 rows => [length rows; length (default [] (head rows))]
  | Nd3 spins =>
      [length spins; length (default [] (head spins));
       length (default [] (head (default [] (head spins))))]
  end.

Definition ndarray_flatten (a : ndarray) : list Qc :=
  match a with
  | Nd2 rows => concat rows
  | Nd3 spins => concat (concat spins)
  end.

Global Instance float_arrays : NumpyLike ndarray ndarray Qc := {|
  np_array := id;
  shape := ndarray_shape;
  dtype_is_float64 := λ _, true;
  flatten := ndarray_flatten;
  is_None := λ _, false;
  float := Ok
|}.

(** ** Sample data *)

Definition energy (z : Z) : Qc := Qc_of_Z z.

(** Two bands on two k-points, 1 to 2 and 5 to 6. *)
Definition two_bands : ndarray :=
  Nd2 [[energy 1; energy 5]; [energy 2; energy 6]].

(** The same energies, the bands listed in another order at each k-point. *)
Definition two_bands_shuffled : ndarray :=
  Nd2 [[energy 5; energy 1]; [energy 6; energy 2]].

(** One band below zero and one above, on one k-point. *)
Definition around_zero : ndarray := Nd2 [[energy (-1); energy 1]].

(** A node that holds nothing. *)
Definition empty_node : BandsData ndarray := mkBandsData None ∅ ∅.

(** A node that holds these bands and nothing else. *)
Definition node_of (bands : ndarray) : BandsData ndarray :=
  set_array empty_node "bands" bands.

(** A node on which two k-points were set. *)
Definition node_with_kpoints : BandsData ndarray :=
  mkBandsData (Some [(energy 0, energy 0, energy 0); (Py.half, energy 0, energy 0)]) ∅ ∅.

(** Three bands on two k-points; the two upper ones touch at 2. *)
Definition touching_bands : ndarray :=
  Nd2 [[energy 0; energy 2; energy 2]; [energy 1; energy 2; energy 3]].

(** ** Arrays of Python objects seen through the numpy interface

    A rank-2 array whose elements are floats, [None] or strings that are
    not numbers: its type is not [float64]; [float] raises [TypeError] on
    [None] and [ValueError] on such a string. *)







(** The node after [set_bands(two_bands, units=None)] on
    [node_with_kpoints]. *)
Definition node_after_set_bands : BandsData ndarray :=
  _set_attr (set_array node_with_kpoints "bands" two_bands) "units" (AStr "None").

(** The node after [set_bands(two_bands, units='eV', labels='up')] on
    [node_with_kpoints]. *)
Definition node_after_labels : BandsData ndarray :=
  _set_attr (_set_attr (set_array node_with_kpoints "bands" two_bands) "units" (AStr "eV"))
    "array_labels" (AStrs ["up"]).

(** ** Sample data for the export *)

(** Six k-points on the first axis, a stretch from 0 to 1 and one from 2
    to 3, with a label at both ends of each stretch. *)
Definition path_kpoints : list (Qc * Qc * Qc) :=
  (λ x : Qc, (x, Q2Qc 0, Q2Qc 0))
    <$> [Q2Qc 0; Py.half; Qc_of_Z 1; Qc_of_Z 2; (Qc_of_Z 2 + Py.half)%Qc; Qc_of_Z 3].

Definition path_labels : list (Z * string) := [(0, "G"); (2, "X"); (3, "Y"); (5, "G")].

(** A node with these k-points and two bands on them. *)
Definition path_node : BandsData ndarray :=
  set_array (mkBandsData (Some path_kpoints) ∅ ∅) "bands"
    (Nd2 [[energy 1; energy 5]; [energy 2; energy 6]; [energy 1; energy 5];
          [energy 2; energy 6]; [energy 1; energy 5]; [energy 2; energy 6]]).

(** [numpy.linalg.norm] of the difference of two points of the first
    axis. *)
Definition axis_norm (a b : Qc * Qc * Qc) : Qc := Qcabs (a.1.1 - b.1.1).

(** No cell was set: [get_kpoints(cartesian=True)] raises. *)
Definition kpoints_without_cell (self : BandsData ndarray) (cartesian : bool)
  : result (list (Qc * Qc * Qc)) :=
  if cartesian then Raise (Runtime AttributeError) else get_kpoints self.

Definition labels_of_path (self : BandsData ndarray) : result (option (list (Z * string))) :=
  Ok (Some path_labels).

Definition sample_uuid (self : BandsData ndarray) : string :=
  "5ab0e1a6-3f4e-4c8f-9d39-1e5ea4a1c7d2".

Definition sample_header : string := "# exported" +:+ newline.

(** An instance on which [_prepare_dat_1] is the one method that prepares
    a format. *)
Definition dat_1_only (name : string)
  : option (plot_info → list (string * string)
            → result (string * option (list (string * string)))) :=
  if bool_decide (name = "_prepare_dat_1") then Some _prepare_dat_1 else None.

(** What [_exportstring] hands to the method that prepares the format, for
    the sample node. *)
Definition path_plot_info (fileformat : string) : plot_info :=
  match build_plot_info kpoints_without_cell labels_of_path axis_norm path_node fileformat
          (Some "bands.dat") false with
  | Ok info => info
  | Raise _ => mkPlotInfo [] [] [] None
  end.

Definition path_plot_info_agr : plot_info :=
  match build_plot_info kpoints_without_cell labels_of_path axis_norm path_node "agr"
          (Some "bands.agr") false with
  | Ok info => info
  | Raise _ => mkPlotInfo [] [] [] None
  end.

(** The files after the sample node was exported to [bands.dat], where
    there was no file. *)
Definition files_after_export : gmap string string :=
  (export kpoints_without_cell labels_of_path axis_norm sample_uuid sample_header dat_1_only
          path_node "bands.dat" None false true true [] ∅).2.

End Bands.

(** * [find_bandgap] on arrays of type float64

    The routine once more, on arrays that hold what an array of type
    float64 can hold: finite numbers, the two infinities and NaN.  A
    finite number is an exact rational as before, so on finite numbers
    the arithmetic is exact and does not overflow; there is one zero. *)

Module Float64.
Import Numpy Bands.

Inductive float64 : Type :=
| Finite (q : Qc)
| Infinity (negative : bool)
| NaN.

Global Instance float64_eq_dec : EqDecision float64.
Proof. solve_decision. Defined.

Definition zero : float64 := Finite (Q2Qc 0).

Definition is_nan (x : float64) : bool :=
  match x with NaN => true | _ => false end.

(** [x < y] and [x == y]: false whenever one of the two is NaN. *)
Definition lt (x y : float64) : bool :=
  match x, y with
  | Finite a, Finite b => bool_decide (a < b)%Qc
  | Infinity true, Finite _ => true
  | Infinity true, Infinity false => true
  | Finite _, Infinity false => true
  | _, _ => false
  end.

Definition eqb (x y : float64) : bool :=
  match x, y with
  | Finite a, Finite b => bool_decide (a = b)
  | Infinity s, Infinity s' => bool_decide (s = s')
  | _, _ => false
  end.

(** [x <= y] *)
Definition le (x y : float64) : bool := lt x y || eqb x y.

(** [x + y], [-x] and [x - y]: the two infinities add up to NaN. *)
Definition add (x y : float64) : float64 :=
  match x, y with
  | Finite a, Finite b => Finite (a + b)%Qc
  | Infinity s, Infinity s' => if bool_decide (s = s') then Infinity s else NaN
  | Infinity s, Finite _ => Infinity s
  | Finite _, Infinity s => Infinity s
  | _, _ => NaN
  end.

Definition opp (x : float64) : float64 :=
  match x with
  | Finite a => Finite (- a)%Qc
  | Infinity s => Infinity (negb s)
  | NaN => NaN
  end.

Definition sub (x y : float64) : float64 := add x (opp y).

(** [x / n] for the number [n] of k-points, which is not zero where the
    routine divides. *)
Definition div (x : float64) (n : nat) : float64 :=
  match x with
  | Finite a => Finite (a / Qc_of_Z (Z.of_nat n))%Qc
  | _ => x
  end.

(** [int(x)]: [OverflowError] on an infinity, [ValueError] on NaN. *)
Definition int (x : float64) : result Z :=
  match x with
  | Finite a => Ok (Py.int a)
  | Infinity _ => Raise (Runtime OverflowError)
  | NaN => Raise (Runtime ValueError)
  end.

(** [round(x)] *)
Definition round (x : float64) : float64 :=
  match x with
  | Finite a => Finite (Py.round a)
  | _ => x
  end.

(** [sum(l)] *)
Definition sum (l : list float64) : float64 := foldl add zero l.

(** [min(l)] and [max(l)] of Python: the first element, replaced by every
    later one that compares below (above) what is kept. *)
Definition min (l : list float64) : result float64 :=
  match l with
  | [] => Raise (Runtime ValueError)
  | x :: l' => Ok (foldl (λ m y, if lt y m then y else m) x l')
  end.

Definition max (l : list float64) : result float64 :=
  match l with
  | [] => Raise (Runtime ValueError)
  | x :: l' => Ok (foldl (λ m y, if lt m y then y else m) x l')
  end.

(** The order in which numpy sorts floats: ascending, NaN last. *)
Definition sort_le (x y : float64) : Prop :=
  match x, y with
  | _, NaN => True
  | NaN, _ => False
  | _, _ => le x y = true
  end.

Global Instance sort_le_dec : RelDecision sort_le.
Proof. intros x y. unfold sort_le. destruct x, y; apply _. Defined.

(** A rank-2 array is the list of its rows (one per k-point); a rank-3
    array is the list of its rank-2 blocks (one per spin). *)
Inductive ndarray : Type :=
| Nd2 (rows : list (list float64))
| Nd3 (spins : list (list (list float64))).

(** [len(a.shape)] *)
Definition ndim (a : ndarray) : Z :=
  match a with Nd2 _ => 2 | Nd3 _ => 3 end.

(** [numpy.concatenate([_ for _ in a], axis=1)] *)
Definition concatenate_axis1 (spins : list (list (list float64)))
  : result (list (list float64)) :=
  match spins with
  | [] => Raise (Runtime ValueError)
  | s :: ss => Ok (foldl (zip_with app) s ss)
  end.

(** [numpy.sort(a)] and [a.sort()] on a rank-2 array: every row is sorted. *)
Definition sort (rows : list (list float64)) : list (list float64) :=
  merge_sort sort_le <$> rows.

(** [a.transpose()] on a rank-2 array. *)
Fixpoint transpose (rows : list (list float64)) : list (list float64) :=
  match rows with
  | [] => []
  | r :: rs =>
      match rs with
      | [] => (λ x, [x]) <$> r
      | _ => zip_with cons r (transpose rs)
      end
  end.

(** [a.max()] and [a.min()] of numpy: NaN as soon as the array holds one;
    numpy refuses an array without elements. *)
Definition amax (rows : list (list float64)) : result float64 :=
  match concat rows with
  | [] => Raise (Runtime ValueError)
  | x :: l =>
      Ok (foldl (λ m y, if is_nan m then m else if is_nan y then y
                        else if lt m y then y else m) x l)
  end.

Definition amin (rows : list (list float64)) : result float64 :=
  match concat rows with
  | [] => Raise (Runtime ValueError)
  | x :: l =>
      Ok (foldl (λ m y, if is_nan m then m else if is_nan y then y
                        else if lt y m then y else m) x l)
  end.

(** A stable sort of pairs on their first component, by insertion. *)
Fixpoint insert_by_key (p : float64 * float64) (l : list (float64 * float64))
  : list (float64 * float64) :=
  match l with
  | [] => [p]
  | q :: l' =>
      if le p.1 q.1 then p :: q :: l'
      else q :: insert_by_key p l'
  end.

Definition sorted_by_key (l : list (float64 * float64)) : list (float64 * float64) :=
  foldr insert_by_key [] l.

(** What is known of [sorted(l, key=lambda x: x[0])]: when no key is NaN
    it is the stable sort on the keys.  With a key that is NaN the
    comparisons are not those of an order, and what the sort of Python
    returns is left open. *)
Definition sorts_numbers (sorted : list (float64 * float64) → list (float64 * float64))
  : Prop :=
  ∀ l, Forall (λ p, is_nan p.1 = false) l → sorted l = sorted_by_key l.

(** Stable rounding function. *)
Definition nint (num : float64) : result Z :=
  if lt zero num then int (add num (Finite Py.half))
  else int (sub num (Finite Py.half)).

(** Truth value of an optional number: [None] and zero are false. *)
Definition truthy (x : option float64) : bool :=
  match x with
  | None => false
  | Some v => negb (eqb v zero)
  end.

(** All spins on one band per k-point. *)
Definition join_spins (stored : ndarray) : result (list (list float64)) :=
  match stored with
  | Nd3 spins => concatenate_axis1 spins
  | Nd2 rows => Ok rows
  end.

Inductive analysis : Type :=
| Returned (r : bool * option float64)
| Levels (number_electrons : Z) (homo lumo : list float64).

Section routine.
(** [sorted(l, key=lambda x: x[0])] on the pairs of an energy and an
    occupation. *)
Variable sorted : list (float64 * float64) → list (float64 * float64).

(** [number_electrons is None]: the occupations tell the occupied bands. *)
Definition from_occupations (bandsdata : BandsData ndarray) (bands : list (list float64))
  : result analysis :=
  let num_kpoints := length bands in
  got ← try_except (get_bands bandsdata true false) KeyError
          (Raised KeyError
             "Cannot determine metallicity if I don't have either fermi energy, or occupations");
  stored_occupations ←
    match got with
    | Several [_; IArray occ] => Ok occ
    | _ => Raise (Runtime ValueError)
    end;
  occupations ← join_spins stored_occupations;
  let sorted_pairs := (λ i, sorted (zip i.1 i.2)) <$> zip bands occupations in
  if bool_decide (sorted_pairs = []) || existsb (λ j, bool_decide (j = [])) sorted_pairs
  then Raise (Runtime ValueError)
  else
    let bands := (fmap fst) <$> sorted_pairs in
    let occupations := (fmap snd) <$> sorted_pairs in
    number_electrons ← int (round (div (sum (sum <$> occupations)) num_kpoints));
    homo_indexes ←
      mapM (λ x, rounded ← mapM nint x;
                 match list.last (where_positive rounded) with
                 | Some i => Ok i
                 | None => Raise (Runtime IndexError)
                 end) occupations;
    if bool_decide (1 < Py.len_set homo_indexes)%nat then Ok (Returned (false, None))
    else
      homo ← mapM (λ p, Py.getitem p.1 (Z.of_nat p.2)) (zip bands homo_indexes);
      lumo ← try_except
                (mapM (λ p, Py.getitem p.1 (Z.of_nat p.2 + 1)) (zip bands homo_indexes))
                IndexError need_more_bands;
      Ok (Levels number_electrons homo lumo).

(** [number_electrons] is given: the bands are filled from the bottom. *)
Definition from_number_electrons (stored_bands : ndarray) (bands : list (list float64))
    (number_electrons : float64) : result analysis :=
  let bands := sort bands in
  number_electrons ← int number_electrons;
  let number_electrons_per_band := 4 - ndim stored_bands in
  homo ← mapM (λ i, Py.getitem i (number_electrons / number_electrons_per_band - 1)) bands;
  lumo ← try_except
            (mapM (λ i, Py.getitem i (number_electrons / number_electrons_per_band)) bands)
            IndexError need_more_bands;
  Ok (Levels number_electrons homo lumo).

(** The analysis on the Fermi energy. *)
Definition from_fermi_energy (bands : list (list float64)) (fermi_energy : float64)
  : result (bool * option float64) :=
  let bands := sort bands in
  let levels := transpose bands in
  max_mins ← mapM (λ i, mx ← max i; mn ← min i; Ok (mx, mn)) levels;
  top ← amax bands;
  if lt top fermi_energy then
    Raise (Raised ValueError
             "The Fermi energy is above all band energies, don't know what to do")
  else
  bottom ← amin bands;
  if lt fermi_energy bottom then
    Raise (Raised ValueError
             "The Fermi energy is below all band energies, don't know what to do.")
  else
  if existsb (λ i : float64 * float64, lt i.2 fermi_energy && lt fermi_energy i.1) max_mins
  then Ok (false, None)
  else if existsb (λ i : float64 * float64, eqb i.1 fermi_energy) max_mins
          && existsb (λ i : float64 * float64, eqb i.2 fermi_energy) max_mins
  then Ok (false, Some zero)
  else
    homo ← max (filter (λ m, lt m fermi_energy = true) (fst <$> max_mins));
    lumo ← min (filter (λ m, lt fermi_energy m = true) (snd <$> max_mins));
    let gap := sub lumo homo in
    if le gap zero then
      Raise (Raised Exception "Something wrong has been implemented. Revise the code!")
    else Ok (true, Some gap).

Definition occupied_levels (bandsdata : BandsData ndarray) (stored_bands : ndarray)
    (bands : list (list float64)) (number_electrons : option float64) : result analysis :=
  match number_electrons with
  | None => from_occupations bandsdata bands
  | Some n => from_number_electrons stored_bands bands n
  end.

Definition find_bandgap (bandsdata : BandsData ndarray)
    (number_electrons fermi_energy : option float64) : result (bool * option float64) :=
  if truthy fermi_energy && truthy number_electrons then
    Raise (Raised ValueError
             "Specify either the number of electrons or the Fermi energy, but not both")
  else
  got ← try_except (get_bands bandsdata false false) KeyError
          (Raised KeyError "Cannot do much of a band analysis without bands");
  stored_bands ←
    match got with
    | Single b => Ok b
    | Several _ => Raise (Runtime AttributeError)
    end;
  bands ← join_spins stored_bands;
  match fermi_energy with
  | None =>
      found ← occupied_levels bandsdata stored_bands bands number_electrons;
      match found with
      | Returned r => Ok r
      | Levels number_electrons homo lumo =>
          if bool_decide (number_electrons `mod` 2 = 1) && bool_decide (ndim stored_bands = 2)
          then Ok (false, None)
          else
            lowest ← min lumo;
            highest ← max homo;
            let gap := sub lowest highest in
            if eqb gap zero then Ok (false, Some zero)
            else if lt gap zero then Ok (false, None)
            else Ok (true, Some gap)
      end
  | Some fermi_energy => from_fermi_energy bands fermi_energy
  end.

End routine.

(** ** Arrays of finite numbers among the arrays of type float64 *)

Definition finite_rows (rows : list (list Qc)) : list (list float64) :=
  (λ row : list Qc, Finite <$> row) <$> rows.

Definition finite_array (a : Numpy.ndarray) : ndarray :=
  match a with
  | Numpy.Nd2 rows => Nd2 (finite_rows rows)
  | Numpy.Nd3 spins => Nd3 (finite_rows <$> spins)
  end.

(** The node with the same arrays, as arrays of type float64. *)
Definition finite_node (bandsdata : BandsData Numpy.ndarray) : BandsData ndarray :=
  mkBandsData (kpoints bandsdata) (finite_array <$> arrays bandsdata) (attrs bandsdata).

(** What [get_bands] hands back from it. *)
Definition finite_item (i : item Numpy.ndarray) : item ndarray :=
  match i with
  | IArray a => IArray (finite_array a)
  | ILabels l => ILabels l
  end.

Definition finite_returned (r : returned Numpy.ndarray) : returned ndarray :=
  match r with
  | Single bands => Single (finite_array bands)
  | Several to_return => Several (finite_item <$> to_return)
  end.

(** What the analysis of the occupations leaves. *)
Definition finite_analysis (a : Bands.analysis) : analysis :=
  match a with
  | Bands.Returned (is_insulator, gap) => Returned (is_insulator, Finite <$> gap)
  | Bands.Levels number_electrons homo lumo =>
      Levels number_electrons (Finite <$> homo) (Finite <$> lumo)
  end.

(** What the routine returns or raises. *)
Definition finite_result (r : result (bool * option Qc)) : result (bool * option float64) :=
  match r with
  | Ok (is_insulator, gap) => Ok (is_insulator, Finite <$> gap)
  | Raise e => Raise e
  end.

(** ** Nodes that hold finite numbers only *)

Definition is_finite (x : float64) : bool :=
  match x with Finite _ => true | _ => false end.

(** [a.flatten()] *)
Definition elements (a : ndarray) : list float64 :=
  match a with
  | Nd2 rows => concat rows
  | Nd3 spins => concat (concat spins)
  end.

(** Every array stored on the node holds finite numbers only. *)
Definition stores_finite_numbers (bandsdata : BandsData ndarray) : Prop :=
  ∀ name a, arrays bandsdata !! name = Some a →
            Forall (λ x, is_finite x = true) (elements a).

(** An argument of the routine is [None] or a finite number. *)
Definition finite_argument (x : option float64) : Prop :=
  ∀ v, x = Some v → is_finite v = true.

(** The number that a finite float is. *)
Definition exact (x : float64) : Qc :=
  match x with Finite q => q | _ => Q2Qc 0 end.

Definition exact_rows (rows : list (list float64)) : list (list Qc) :=
  (λ row : list float64, exact <$> row) <$> rows.

Definition exact_array (a : ndarray) : Numpy.ndarray :=
  match a with
  | Nd2 rows => Numpy.Nd2 (exact_rows rows)
  | Nd3 spins => Numpy.Nd3 (exact_rows <$> spins)
  end.

Definition exact_node (bandsdata : BandsData ndarray) : BandsData Numpy.ndarray :=
  mkBandsData (kpoints bandsdata) (exact_array <$> arrays bandsdata) (attrs bandsdata).

(** ** Sample data *)

(** One k-point with two bands, the energy of the lower one is NaN. *)
Definition bands_with_nan : ndarray := Nd2 [[NaN; Finite (Qc_of_Z 1)]].

Definition node_with_nan : BandsData ndarray :=
  set_array (mkBandsData None ∅ ∅) "bands" bands_with_nan.

End Float64.

(** ** The test fixture: [AiidaTestCase.tearDownClass] *)

Module TestBase.

(** The tables of the database the teardown touches. *)
Inductive model : Set :=
| DbWorkflow | DbGroup | DbLink | DbNode | DbUser | DbComputer.

Global Instance model_eq_dec : EqDecision model.
Proof. solve_decision. Defined.

(** Modelled from the spec: the Django models of [aiida.djsite.db.models]
    are not part of the sources.  A row is its primary key and, for a
    user, the email; a link names its input and output node. *)
Record database : Type := mkDatabase {
  workflows : list nat;
  groups : list nat;
  links : list (nat * nat);
  nodes : list nat;
  users : list string;
  computers : list nat
}.

(** [M.objects.all().delete()] *)
Definition delete_all (m : model) (db : database) : database :=
  match m with
  | DbWorkflow => mkDatabase [] (groups db) (links db) (nodes db) (users db) (computers db)
  | DbGroup => mkDatabase (workflows db) [] (links db) (nodes db) (users db) (computers db)
  | DbLink => mkDatabase (workflows db) (groups db) [] (nodes db) (users db) (computers db)
  | DbNode => mkDatabase (workflows db) (groups db) (links db) [] (users db) (computers db)
  | DbUser => mkDatabase (workflows db) (groups db) (links db) (nodes db) [] (computers db)
  | DbComputer => mkDatabase (workflows db) (groups db) (links db) (nodes db) (users db) []
  end.

(** [DbUser.objects.get(email=e)]: exactly one row must match. *)
Definition get_user (e : string) (db : database) : result string :=
  match filter (λ u, u = e) (users db) with
  | [] => Raise (Runtime ObjectDoesNotExist)
  | [u] => Ok u
  | _ => Raise (Runtime MultipleObjectsReturned)
  end.

(** [row.delete()] on a user. *)
Definition delete_user (u : string) (db : database) : database :=
  mkDatabase (workflows db) (groups db) (links db) (nodes db)
             (filter (λ v, v ≠ u) (users db)) (computers db).

(** A deletion as it reaches the database: the table it deletes from and
    the database it finds. *)
Record deletion : Type := mkDeletion { table : model; found : database }.

(** The state of a run: the database and the deletions so far, the latest
    first. *)
Definition run (A : Type) : Type :=
  database * list deletion → result A * (database * list deletion).

Definition run_ret {A} (a : A) : run A := λ s, (Ok a, s).
Global Instance run_mret : MRet run := @run_ret.

Definition run_bind {A B} (k : A → run B) (m : run A) : run B :=
  λ s, match m s with
       | (Ok a, s') => k a s'
       | (Raise e, s') => (Raise e, s')
       end.
Global Instance run_mbind : MBind run := @run_bind.

Definition objects_all_delete (m : model) : run unit :=
  λ '(db, log), (Ok tt, (delete_all m db, mkDeletion m db :: log)).

Definition objects_get_delete (e : string) : run unit :=
  λ '(db, log),
    match get_user e db with
    | Ok u => (Ok tt, (delete_user u db, mkDeletion DbUser db :: log))
    | Raise x => (Raise x, (db, log))
    end.

(** [try: m  except c: pass] *)
Definition try_pass (m : run unit) (c : exn_class) : run unit :=
  λ s, match m s with
       | (Raise x, s') => if decide (class_of x = c) then (Ok tt, s') else (Raise x, s')
       | r => r
       end.

(** [email] is the value of [get_configured_user_email()]. *)
Definition tearDownClass (email : string) : run unit :=
  (* I first delete the workflows *)
  _ ← objects_all_delete DbWorkflow;
  (* Delete groups *)
  _ ← objects_all_delete DbGroup;
  (* the links first *)
  _ ← objects_all_delete DbLink;
  (* Then I delete the nodes *)
  _ ← objects_all_delete DbNode;
  _ ← try_pass (objects_get_delete email) ObjectDoesNotExist;
  objects_all_delete DbComputer.

(** [AiidaTestCase.setUpClass]: a user with the configured email and a
    computer are created.

    Modelled from the spec: [DbUser.objects.create_user] and
    [Computer.store] are not part of the sources; each adds one row, the
    computer under a key not in use. *)
Definition setUpClass (email : string) (db : database) : database :=
  mkDatabase (workflows db) (groups db) (links db) (nodes db)
             (users db ++ [email]) (computers db ++ [fresh (computers db)]).

(** What the ordering asks of one deletion: nodes go only when no link is
    left, users and computers only when no node is left. *)
Definition in_order (d : deletion) : Prop :=
  (table d = DbNode → links (found d) = [])
  ∧ (table d = DbUser ∨ table d = DbComputer → nodes (found d) = []).

(** ** Sample databases *)

(** A database with two users, one of them with the configured email. *)
Definition sample_database : database :=
  mkDatabase [1%nat] [1%nat] [(1%nat, 2%nat)] [1%nat; 2%nat]
    ["aiida@localhost"; "other@localhost"] [1%nat].

(** The same with the configured email taken twice. *)
Definition ambiguous_database : database :=
  mkDatabase [] [] [] [1%nat] ["aiida@localhost"; "aiida@localhost"] [1%nat].

End TestBase.

(** * Properties of [find_bandgap] *)

Import Numpy Bands.

Lemma bind_Ok {A B} (m : result A) (f : A → result B) b :
  m ≫= f = Ok b → ∃ a, m = Ok a ∧ f a = Ok b.
Proof. destruct m as [a|e]; simpl; [eauto | discriminate]. Qed.

Lemma try_except_Ok {A} (m : result A) c e' a :
  try_except m c e' = Ok a → m = Ok a.
Proof. destruct m; simpl; [done|]. case_decide; discriminate. Qed.

(** Take apart a hypothesis that says a computation returned. *)
Ltac inv_result H :=
  repeat first
    [ discriminate H
    | match type of H with
      | (_ ≫= _) = Ok _ =>
          let a := fresh "a" in let Ha := fresh "Ha" in
          apply bind_Ok in H as (a & Ha & H)
      | try_except _ _ _ = Ok _ => apply try_except_Ok in H
      | (if ?b then _ else _) = Ok _ => destruct b eqn:?
      | (match ?x with _ => _ end) = Ok _ => destruct x eqn:?
      end ].

(** The analysis of the occupations returns early only with a metal. *)
Lemma from_occupations_Returned bandsdata rows r :
  from_occupations bandsdata rows = Ok (Returned r) → r = (false, None).
Proof. unfold from_occupations. intros H. inv_result H. all: congruence. Qed.

(** With the number of electrons given there is no early return, and the
    number the rest of the routine sees is its integer part. *)
Lemma from_number_electrons_Levels stored rows n a :
  from_number_electrons stored rows n = Ok a →
  ∃ homo lumo, a = Levels (Py.int n) homo lumo.
Proof.
  unfold from_number_electrons. intros H. inv_result H. injection H as <-. eauto.
Qed.

Lemma foldl_pick (step : Qc → Qc → Qc) (Hstep : ∀ m y, step m y = m ∨ step m y = y) l x :
  foldl step x l ∈ x :: l.
Proof.
  revert x. induction l as [|y l IH]; intros x; simpl; [left|].
  destruct (Hstep x y) as [->| ->].
  - specialize (IH x). rewrite !elem_of_cons in *. tauto.
  - right. apply IH.
Qed.

Lemma max_elem l m : Py.max l = Ok m → m ∈ l.
Proof.
  destruct l as [|x l]; [done|]. intros [= <-].
  apply foldl_pick. intros ? ?. case_bool_decide; auto.
Qed.

Lemma min_elem l m : Py.min l = Ok m → m ∈ l.
Proof.
  destruct l as [|x l]; [done|]. intros [= <-].
  apply foldl_pick. intros ? ?. case_bool_decide; auto.
Qed.

(** The highest maximum below the Fermi energy is below the lowest minimum
    above it. *)
Lemma gap_positive (f homo lumo : Qc) (highs lows : list Qc) :
  Py.max (filter (λ m, m < f)%Qc highs) = Ok homo →
  Py.min (filter (λ m, f < m)%Qc lows) = Ok lumo →
  (Q2Qc 0 < lumo - homo)%Qc.
Proof.
  intros Hh Hl. apply max_elem, list_elem_of_filter in Hh as [Hh _].
  apply min_elem, list_elem_of_filter in Hl as [Hl _].
  assert (homo < lumo)%Qc as Hlt by (by transitivity f).
  apply (Qcplus_lt_mono_r _ _ homo).
  replace (lumo - homo + homo)%Qc with lumo by ring. by rewrite Qcplus_0_l.
Qed.

Lemma from_fermi_energy_classified rows f is_insulator gap :
  from_fermi_energy rows f = Ok (is_insulator, gap) →
  (is_insulator = true → ∃ g, gap = Some g ∧ (Q2Qc 0 < g)%Qc)
  ∧ (is_insulator = false → gap = None ∨ gap = Some (Q2Qc 0)).
Proof.
  unfold from_fermi_energy. intros H.
  inv_result H; injection H as <- <-; (split; [|by auto]); try done.
  intros _. eexists. split; [done|].
  match goal with Hb : bool_decide (_ ≤ _)%Qc = false |- _ =>
    apply bool_decide_eq_false in Hb; by apply Qcnot_le_lt end.
Qed.

(** On finite numbers: whenever [find_bandgap] returns, it returns a pair
    [(is_insulator, gap)]: for an insulator the gap is a number strictly
    above zero; otherwise the gap is [None] (a metal) or exactly zero (a
    semi-metal).  Nothing else is returned. *)
Lemma find_bandgap_classified bandsdata number_electrons fermi_energy is_insulator gap :
  find_bandgap bandsdata number_electrons fermi_energy = Ok (is_insulator, gap) →
  (is_insulator = true → ∃ g, gap = Some g ∧ (Q2Qc 0 < g)%Qc)
  ∧ (is_insulator = false → gap = None ∨ gap = Some (Q2Qc 0)).
Proof.
  unfold find_bandgap. intros H.
  destruct (truthy fermi_energy && truthy number_electrons); [discriminate|].
  apply bind_Ok in H as (got & _ & H).
  apply bind_Ok in H as (stored & _ & H).
  apply bind_Ok in H as (rows & _ & H).
  destruct fermi_energy as [f|]; [by eapply from_fermi_energy_classified|].
  apply bind_Ok in H as (found & Hfound & H).
  destruct found as [r|n homo lumo].
  - injection H as ->. unfold occupied_levels in Hfound.
    destruct number_electrons.
    + apply from_number_electrons_Levels in Hfound as (? & ? & ?). discriminate.
    + apply from_occupations_Returned in Hfound as [= -> ->]. split; [done|auto].
  - inv_result H; injection H as <- <-; (split; [|by auto]); try done.
    intros _. eexists. split; [done|].
    repeat match goal with Hb : bool_decide _ = false |- _ =>
      apply bool_decide_eq_false in Hb end.
    match goal with |- (_ < ?g)%Qc =>
      destruct (Qclt_le_dec (Q2Qc 0) g) as [|Hle]; [done|];
      apply Qcle_lt_or_eq in Hle as [|]; done end.
Qed.

(** ** The analysis on the Fermi energy *)


(** The three cases of the analysis, for a Fermi energy within the range
    of the band energies: a band crossed by the Fermi energy is a metal; a
    Fermi energy that is the maximum of one band and the minimum of one is
    a semi-metal; what is left is an insulator, when [max] and [min] find
    a band below and a band above the Fermi energy. *)
Lemma from_fermi_energy_cases rows f max_mins top bottom :
  mapM (λ i, mx ← Py.max i; mn ← Py.min i; Ok (mx, mn)) (transpose (Numpy.sort rows))
    = Ok max_mins →
  amax (Numpy.sort rows) = Ok top →
  amin (Numpy.sort rows) = Ok bottom →
  (bottom ≤ f)%Qc → (f ≤ top)%Qc →
  from_fermi_energy rows f =
    if existsb (λ i : Qc * Qc, bool_decide (i.2 < f)%Qc && bool_decide (f < i.1)%Qc) max_mins
    then Ok (false, None)
    else if existsb (λ i : Qc * Qc, bool_decide (i.1 = f)) max_mins
            && existsb (λ i : Qc * Qc, bool_decide (i.2 = f)) max_mins
    then Ok (false, Some (Q2Qc 0))
    else
      homo ← Py.max (filter (λ m, m < f)%Qc (fst <$> max_mins));
      lumo ← Py.min (filter (λ m, f < m)%Qc (snd <$> max_mins));
      Ok (true, Some (lumo - homo)%Qc).
Proof.
  intros Hmm Htop Hbottom Hb Ht. unfold from_fermi_energy.
  rewrite Hmm, Htop, Hbottom. simpl.
  rewrite (bool_decide_eq_false_2 (top < f)%Qc) by (by apply Qcle_not_lt).
  rewrite (bool_decide_eq_false_2 (f < bottom)%Qc) by (by apply Qcle_not_lt).
  destruct (existsb _ _); [done|]. destruct (_ && _); [done|].
  destruct (Py.max _) as [homo|] eqn:Hh; [|done]. simpl.
  destruct (Py.min _) as [lumo|] eqn:Hl; [|done]. simpl.
  rewrite bool_decide_eq_false_2; [done|].
  apply Qclt_not_le. by eapply gap_positive.
Qed.

(** C2. With the Fermi energy at the top of the lower band of [two_bands]
    (2, between the lowest energy 1 and the highest 6), no band is crossed
    and no band has its minimum there, so the insulating case is reached;
    no band lies strictly below the Fermi energy and [max] of an empty
    list raises [ValueError]. *)
Theorem fermi_energy_at_band_edge_raises :
  find_bandgap (node_of two_bands) None (Some (energy 2)) = Raise (Runtime ValueError).
Proof. vm_compute. reflexivity. Qed.

(** ** The check of the arguments *)

(** C3. Both arguments are given, the Fermi energy being zero: the routine
    does not raise, it analyses the Fermi energy and returns an insulator
    with a gap of two. *)
Theorem both_given_zero_fermi_energy_returns :
  find_bandgap (node_of around_zero) (Some (energy 2)) (Some (energy 0))
  = Ok (true, Some (energy 1 - energy (-1))%Qc).
Proof. vm_compute. reflexivity. Qed.

(** When both arguments have a true value the routine raises before it
    reads the node. *)
Lemma both_truthy_raises bandsdata number_electrons fermi_energy :
  truthy fermi_energy = true → truthy number_electrons = true →
  find_bandgap bandsdata number_electrons fermi_energy
  = Raise (Raised ValueError
             "Specify either the number of electrons or the Fermi energy, but not both").
Proof. intros Hf Hn. unfold find_bandgap. by rewrite Hf, Hn. Qed.

(** ** Odd numbers of electrons *)

Lemma get_bands_stored (self : BandsData ndarray) a :
  arrays self !! "bands" = Some a → get_bands self false false = Ok (Single a).
Proof. intros H. unfold get_bands, get_array. by rewrite H. Qed.

(** C4. Without a Fermi energy, on a node whose bands have rank 2: when
    the analysis of the occupations (for the number of electrons given, or
    guessed from the stored occupations) does not raise and the number of
    electrons it works with is odd, the result is [(False, None)]. *)
Theorem odd_electrons_is_metal (bandsdata : BandsData ndarray) rows number_electrons found :
  arrays bandsdata !! "bands" = Some (Nd2 rows) →
  occupied_levels bandsdata (Nd2 rows) rows number_electrons = Ok found →
  (∀ n homo lumo, found = Levels n homo lumo → Z.odd n = true) →
  find_bandgap bandsdata number_electrons None = Ok (false, None).
Proof.
  intros Hstored Hfound Hodd. unfold find_bandgap. simpl.
  rewrite (get_bands_stored _ _ Hstored). simpl.
  rewrite Hfound. simpl. destruct found as [r|n homo lumo].
  - destruct number_electrons as [x|]; simpl in Hfound.
    + apply from_number_electrons_Levels in Hfound as (? & ? & ?). discriminate.
    + by apply from_occupations_Returned in Hfound as ->.
  - specialize (Hodd _ _ _ eq_refl). rewrite Z.odd_spec in Hodd.
    destruct Hodd as [k ->].
    rewrite bool_decide_eq_true_2; [done|].
    rewrite Z.add_comm, Z.mul_comm, Z.mod_add by done. done.
Qed.

Lemma odd_electrons_is_metal_witness :
  find_bandgap (node_of two_bands) (Some (energy 3)) None = Ok (false, None).
Proof.
  apply (odd_electrons_is_metal (node_of two_bands)
           [[energy 1; energy 5]; [energy 2; energy 6]] (Some (energy 3))
           (Levels 3 [energy 1; energy 2] [energy 5; energy 6])).
  - vm_compute. reflexivity.
  - vm_compute. reflexivity.
  - intros n homo lumo [= <- _ _]. reflexivity.
Defined.

(** ** Permuting the bands within the k-points *)

(** Sorting forgets in which order the energies of a k-point came. *)
Lemma merge_sort_perm (l l' : list Qc) :
  l ≡ₚ l' → merge_sort Qcle l = merge_sort Qcle l'.
Proof.
  intros Hp. apply (StronglySorted_unique Qcle).
  - apply (StronglySorted_merge_sort Qcle).
  - apply (StronglySorted_merge_sort Qcle).
  - by rewrite !merge_sort_Permutation.
Qed.

Lemma sort_perm (rows rows' : list (list Qc)) :
  Forall2 Permutation rows rows' → Numpy.sort rows = Numpy.sort rows'.
Proof.
  unfold Numpy.sort. induction 1 as [|r r' rs rs' Hr _ IH]; [done|].
  rewrite !fmap_cons, IH. f_equal. by apply merge_sort_perm.
Qed.

Lemma zip_with_app_perm (s s' t t' : list (list Qc)) :
  Forall2 Permutation s s' → Forall2 Permutation t t' →
  Forall2 Permutation (zip_with app s t) (zip_with app s' t').
Proof.
  intros Hs. revert t t'. induction Hs as [|x x' s s' Hx _ IH]; intros t t' Ht.
  - constructor.
  - destruct Ht as [|y y' t t' Hy Ht]; simpl; constructor.
    + by apply Permutation_app.
    + by apply IH.
Qed.

Lemma foldl_zip_with_app_perm (ss ss' : list (list (list Qc))) :
  Forall2 (Forall2 Permutation) ss ss' → ∀ s s',
  Forall2 Permutation s s' →
  Forall2 Permutation (foldl (zip_with app) s ss) (foldl (zip_with app) s' ss').
Proof.
  induction 1 as [|t t' ss ss' Ht _ IH]; intros s s' Hs; simpl; [done|].
  apply IH. by apply zip_with_app_perm.
Qed.

(** Joining the spins keeps the energies of every k-point, up to order. *)
Lemma join_spins_perm a a' :
  permuted_within_kpoints a a' →
  (∃ e, join_spins a = Raise e ∧ join_spins a' = Raise e)
  ∨ (∃ rows rows', join_spins a = Ok rows ∧ join_spins a' = Ok rows'
                   ∧ Forall2 Permutation rows rows').
Proof.
  destruct a as [rows|spins], a' as [rows'|spins']; simpl; try done.
  - right. eauto.
  - intros [|s s' ss ss' Hs Hss]; simpl; [left; eauto|right].
    do 2 eexists. split_and!; [done..|]. by apply foldl_zip_with_app_perm.
Qed.

Lemma ndim_perm a a' : permuted_within_kpoints a a' → ndim a = ndim a'.
Proof. by destruct a, a'. Qed.

Lemma get_bands_set_array (self : BandsData ndarray) a :
  get_bands (set_array self "bands" a) false false = Ok (Single a).
Proof. unfold get_bands, get_array, set_array. simpl. by rewrite lookup_insert_eq. Qed.

(** C5. With the number of electrons given, and likewise with the Fermi
    energy given, [find_bandgap] does not depend on the order of the band
    energies within each k-point: on a node that stores the permuted bands
    it returns, or raises, what it does on the node that stores the
    original bands. *)
Theorem find_bandgap_permutation_invariant (bandsdata : BandsData ndarray) a a'
    number_electrons fermi_energy :
  permuted_within_kpoints a a' →
  number_electrons ≠ None ∨ fermi_energy ≠ None →
  find_bandgap (set_array bandsdata "bands" a) number_electrons fermi_energy
  = find_bandgap (set_array bandsdata "bands" a') number_electrons fermi_energy.
Proof.
  intros Hperm Hgiven. unfold find_bandgap.
  destruct (truthy fermi_energy && truthy number_electrons); [done|].
  rewrite !get_bands_set_array. simpl.
  destruct (join_spins_perm _ _ Hperm) as [(e & -> & ->)|(rows & rows' & -> & -> & Hrows)];
    [done|]. simpl.
  destruct fermi_energy as [f|].
  - unfold from_fermi_energy. by rewrite (sort_perm _ _ Hrows).
  - destruct number_electrons as [n|]; [|by destruct Hgiven].
    unfold occupied_levels, from_number_electrons.
    by rewrite (sort_perm _ _ Hrows), (ndim_perm _ _ Hperm).
Qed.

Lemma find_bandgap_permutation_invariant_witness :
  find_bandgap (set_array empty_node "bands" two_bands) (Some (energy 2)) None
  = find_bandgap (set_array empty_node "bands" two_bands_shuffled) (Some (energy 2)) None.
Proof.
  apply (find_bandgap_permutation_invariant empty_node two_bands two_bands_shuffled).
  - repeat (constructor; [apply perm_swap|]). constructor.
  - left. discriminate.
Defined.

(** ** A node without bands *)

(** Whatever is asked for, [get_bands] does not raise [KeyError]. *)
Lemma get_bands_not_KeyError {Arr} (self : BandsData Arr) o l e :
  get_bands self o l = Raise e → class_of e ≠ KeyError.
Proof.
  unfold get_bands, get_array.
  destruct (arrays self !! "bands"); simpl; [|by intros [= <-]].
  destruct o; simpl.
  - destruct (arrays self !! "occupations"); simpl; [|by intros [= <-]].
    by destruct l.
  - by destruct l.
Qed.

(** C9, as the claim has it, fails: on a node without bands a call that
    gives a number of electrons and a Fermi energy, neither of them zero,
    raises [ValueError], before [get_bands] is called. *)
Lemma missing_bands_both_given_raises_ValueError :
  arrays empty_node !! "bands" = None
  ∧ find_bandgap empty_node (Some (energy 2)) (Some (energy 1))
    = Raise (Raised ValueError
               "Specify either the number of electrons or the Fermi energy, but not both").
Proof. split; vm_compute; reflexivity. Qed.

(** C9, amended. On a node without bands a call that passes the check of
    the arguments raises the [AttributeError] of [get_bands]; and
    [get_bands] never raises [KeyError], so the handlers of [KeyError]
    in [find_bandgap] are not reachable. *)
Theorem missing_bands_raise_AttributeError (bandsdata : BandsData ndarray)
    number_electrons fermi_energy :
  arrays bandsdata !! "bands" = None →
  truthy fermi_energy && truthy number_electrons = false →
  find_bandgap bandsdata number_electrons fermi_energy
    = Raise (Raised AttributeError "No stored bands has been found")
  ∧ ∀ (other : BandsData ndarray) also_occupations also_labels e,
      get_bands other also_occupations also_labels = Raise e → class_of e ≠ KeyError.
Proof.
  intros Hnone Hguard. split; [|apply @get_bands_not_KeyError].
  unfold find_bandgap. rewrite Hguard.
  unfold get_bands, get_array. by rewrite Hnone.
Qed.

Lemma missing_bands_raise_AttributeError_witness :
  find_bandgap empty_node (Some (energy 2)) None
    = Raise (Raised AttributeError "No stored bands has been found")
  ∧ ∀ (other : BandsData ndarray) also_occupations also_labels e,
      get_bands other also_occupations also_labels = Raise e → class_of e ≠ KeyError.
Proof.
  apply (missing_bands_raise_AttributeError empty_node (Some (energy 2)) None);
    vm_compute; reflexivity.
Defined.

(** * Properties of the class [BandsData] *)

Section class_properties.
Context {Obj Arr Elem : Type} `{!NumpyLike Obj Arr Elem}.
Implicit Types self : BandsData Arr.

(** The validation reads the node and writes nothing. *)
Lemma validate_reads_only bands occupations labels self :
  (_validate_bands_occupations bands occupations labels self).2 = self.
Proof.
  unfold _validate_bands_occupations, mbind, method_bind, bind, try_method, reading, raise, ret.
  repeat (simpl; try done; case_match; simplify_eq/=; try done).
Qed.

(** Without k-points the validation raises [AttributeError]. *)
Lemma validate_without_kpoints bands occupations labels self :
  kpoints self = None →
  (_validate_bands_occupations bands occupations labels self).1
  = Raise (Raised AttributeError "Must first set the kpoints, then the bands").
Proof.
  intros Hk. unfold _validate_bands_occupations, mbind, method_bind, bind, try_method,
    reading, get_kpoints. by rewrite Hk.
Qed.

(** C10. When the validation of the arguments fails, whatever the reason,
    [set_bands] raises the exception of the validation and the node, its
    arrays and its attributes, is as it was before the call. *)
Theorem set_bands_validation_failure_atomic self bands units occupations labels e :
  (_validate_bands_occupations bands occupations labels self).1 = Raise e →
  set_bands bands units occupations labels self = (Raise e, self).
Proof.
  intros Hfail. unfold set_bands, mbind, method_bind, bind.
  pose proof (validate_reads_only bands occupations labels self) as Hsame.
  destruct (_validate_bands_occupations bands occupations labels self) as [r self'].
  simpl in *. by subst.
Qed.

Lemma all_floats_ok a : holds_floats a → ∃ l, all_floats a = Ok l.
Proof.
  unfold holds_floats, all_floats.
  induction 1 as [|x l [v Hv] _ [l' IH]]; [by exists []|].
  rewrite filter_cons. case_decide; [|by exists l'].
  exists (v :: l'). unfold mapM in *. simpl. rewrite Hv. simpl. by rewrite IH.
Qed.

Lemma check_arrays_ok (l : list (Arr * string)) :
  Forall (λ p, holds_floats p.1) l → check_arrays l = Ok tt.
Proof.
  induction 1 as [|[a msg] l Ha _ IH]; [done|]. simpl in *.
  destruct (all_floats_ok a Ha) as [fl ->]. simpl. exact IH.
Qed.

(** The validation accepts bands of rank 2 or 3 with one row per k-point
    and float elements, with or without occupations of the same shape. *)
Lemma validate_accepts self bands occupations kpts :
  kpoints self = Some kpts →
  (length (shape (np_array bands)) = 2%nat ∧ shape (np_array bands) !!! 0%nat = length kpts
   ∨ length (shape (np_array bands)) = 3%nat ∧ shape (np_array bands) !!! 1%nat = length kpts) →
  (dtype_is_float64 (np_array bands) = false → holds_floats (np_array bands)) →
  (∀ o, occupations = Some o →
        shape (np_array o) = shape (np_array bands)
        ∧ (dtype_is_float64 (np_array bands) = false → holds_floats (np_array o))) →
  _validate_bands_occupations bands occupations None self
  = (Ok (np_array bands, np_array <$> occupations, None), self).
Proof.
  intros Hk Hshape Hbands Hocc.
  unfold _validate_bands_occupations, mbind, method_bind, bind, try_method, reading,
    raise, ret, get_kpoints.
  rewrite Hk. simpl.
  assert (negb (bool_decide (length (shape (np_array bands)) = 2%nat)
                || bool_decide (length (shape (np_array bands)) = 3%nat)) = false) as ->.
  { destruct Hshape as [[-> _]|[-> _]]; done. }
  rewrite bool_decide_eq_false_2; last first.
  { intros Hne. apply Hne. destruct Hshape as [[H2 ?]|[H3 ?]].
    - by rewrite bool_decide_eq_true_2.
    - rewrite bool_decide_eq_false_2; [done|]. rewrite H3. done. }
  destruct occupations as [o|]; simpl.
  - destruct (Hocc o eq_refl) as [Hsh Hfl].
    rewrite bool_decide_eq_false_2 by (by intros Hne; apply Hne).
    destruct (dtype_is_float64 (np_array bands)) eqn:Hdt; cbn -[check_arrays].
    + done.
    + rewrite check_arrays_ok; [done|]. repeat constructor; simpl; auto.
  - destruct (dtype_is_float64 (np_array bands)) eqn:Hdt; cbn -[check_arrays].
    + done.
    + rewrite check_arrays_ok; [done|]. repeat constructor; simpl; auto.
Qed.

(** C6. On a node whose k-points are set, for bands that numpy converts to
    an array of rank 2 or 3 of floats with one row per k-point, and for
    units of which [str] returns (no units, [None], and a byte string are
    such): [set_bands] returns, and afterwards [get_bands()] returns
    [numpy.array(bands)]; when occupations of the same shape were given
    too, [get_bands(also_occupations=True)] returns the list of these
    bands and [numpy.array(occupations)]. *)
Theorem set_bands_get_bands_roundtrip self bands units the_str occupations kpts :
  kpoints self = Some kpts →
  (length (shape (np_array bands)) = 2%nat ∧ shape (np_array bands) !!! 0%nat = length kpts
   ∨ length (shape (np_array bands)) = 3%nat ∧ shape (np_array bands) !!! 1%nat = length kpts) →
  (dtype_is_float64 (np_array bands) = false → holds_floats (np_array bands)) →
  (∀ o, occupations = Some o →
        shape (np_array o) = shape (np_array bands)
        ∧ (dtype_is_float64 (np_array bands) = false → holds_floats (np_array o))) →
  str units = Ok the_str →
  ∃ self',
    set_bands bands units occupations None self = (Ok tt, self')
    ∧ get_bands self' false false = Ok (Single (np_array bands))
    ∧ ∀ o, occupations = Some o →
        get_bands self' true false
        = Ok (Several [IArray (np_array bands); IArray (np_array o)]).
Proof.
  intros Hk Hshape Hbands Hocc Hstr.
  pose proof (validate_accepts _ _ _ _ Hk Hshape Hbands Hocc) as Hval.
  unfold set_bands, set_units, reading, mbind, method_bind, bind. rewrite Hval. simpl.
  rewrite Hstr. simpl.
  destruct occupations as [o|]; simpl.
  - eexists. split; [reflexivity|]. split.
    + unfold get_bands, get_array. simpl.
      rewrite (lookup_insert_ne _ "occupations" "bands") by (intros [=]).
      by rewrite lookup_insert_eq.
    + intros o' [= <-]. unfold get_bands, get_array. simpl.
      rewrite (lookup_insert_ne _ "occupations" "bands") by (intros [=]).
      rewrite lookup_insert_eq. simpl. by rewrite lookup_insert_eq.
  - eexists. split; [reflexivity|]. split; [|done].
    unfold get_bands, get_array. simpl. by rewrite lookup_insert_eq.
Qed.

End class_properties.

Lemma set_bands_validation_failure_atomic_witness :
  set_bands two_bands (UnitsStr "eV") None None empty_node
  = (Raise (Raised AttributeError "Must first set the kpoints, then the bands"), empty_node).
Proof.
  apply (set_bands_validation_failure_atomic empty_node two_bands (UnitsStr "eV") None None).
  reflexivity.
Defined.

Lemma set_bands_get_bands_roundtrip_witness :
  ∃ self',
    set_bands two_bands (UnitsStr "eV") (Some two_bands_shuffled) None node_with_kpoints
    = (Ok tt, self')
    ∧ get_bands self' false false = Ok (Single two_bands)
    ∧ ∀ o, Some two_bands_shuffled = Some o →
        get_bands self' true false = Ok (Several [IArray two_bands; IArray o]).
Proof.
  refine (set_bands_get_bands_roundtrip node_with_kpoints two_bands (UnitsStr "eV") "eV"
            (Some two_bands_shuffled)
            [(energy 0, energy 0, energy 0); (Py.half, energy 0, energy 0)] _ _ _ _ _).
  - reflexivity.
  - left. split; reflexivity.
  - discriminate.
  - intros o [= <-]. split; [reflexivity|discriminate].
  - reflexivity.
Defined.

(** ** The export formats *)

Lemma str_le_cases a b : str_le a b ↔ a = b ∨ String_as_OT.lt a b.
Proof.
  unfold str_le, String_as_OT.lt.
  destruct (String_as_OT.compare_spec a b) as [Heq|Hlt|Hgt].
  - split; [by left|done].
  - split; [by right|done].
  - split; [done|]. intros [->|Hlt].
    + by destruct (irreflexivity String_as_OT.lt b).
    + discriminate.
Qed.

Global Instance str_le_total : Total str_le.
Proof.
  intros a b. rewrite !str_le_cases.
  destruct (String_as_OT.compare_spec a b); auto.
Qed.

Global Instance str_le_trans : Transitive str_le.
Proof.
  intros a b c. rewrite !str_le_cases. intros [->|Hab] [->|Hbc]; auto.
  right. by transitivity b.
Qed.

Global Instance str_le_antisym : AntiSymm eq str_le.
Proof.
  intros a b. rewrite !str_le_cases. intros [->|Hab] [Heq|Hba]; auto.
  destruct (irreflexivity String_as_OT.lt a). by transitivity b.
Qed.

(** What is left of a sorted list is sorted. *)
Lemma StronglySorted_filter {A} (R : relation A) (P : A → Prop) `{!∀ x, Decision (P x)} l :
  StronglySorted R l → StronglySorted R (filter P l).
Proof.
  induction 1 as [|x l _ IH Hx]; [constructor|].
  rewrite filter_cons. case_decide; [|done].
  constructor; [done|]. apply list.Forall_forall. intros y Hy.
  apply list_elem_of_filter in Hy as [_ Hy].
  rewrite list.Forall_forall in Hx. by apply Hx.
Qed.

(** Of the names [dir] lists, those of the preparers of the class body are
    the only ones with the prefix, when no other name has it. *)
Lemma filter_dir others :
  Forall (λ n, String.prefix "_prepare_" n = false) others →
  filter (λ i, String.prefix "_prepare_" i = true) (dir others) = preparers.
Proof.
  intros Hothers. apply (StronglySorted_unique str_le).
  - apply StronglySorted_filter, (StronglySorted_merge_sort str_le).
  - unfold preparers. repeat constructor; by vm_compute.
  - apply NoDup_Permutation.
    + apply list.NoDup_filter. unfold dir. rewrite merge_sort_Permutation.
      apply NoDup_remove_dups.
    + unfold preparers. compute_done.
    + intros x. rewrite list_elem_of_filter. unfold dir.
      rewrite merge_sort_Permutation, elem_of_remove_dups, elem_of_app.
      split.
      * intros [Hp [Hx|Hx]].
        -- unfold class_body in Hx. rewrite !elem_of_cons in Hx.
           unfold preparers. rewrite !elem_of_cons.
           destruct_or!; subst; try discriminate Hp; auto 10.
        -- rewrite list.Forall_forall in Hothers. apply Hothers in Hx. congruence.
      * unfold preparers. rewrite !elem_of_cons. intros Hx.
        destruct_or!; subst; try (by apply elem_of_nil in Hx);
          (split; [done|left; unfold class_body; rewrite !elem_of_cons; auto 20]).
Qed.

(** C7. On every instance whose names, beyond those of the class body,
    do not begin with [_prepare_] (the parent classes prepare no format),
    [get_export_formats] returns exactly agr, agr_batch, dat_1, dat_2 and
    json, the names of the [_prepare_] methods of the class. *)
Theorem get_export_formats_exact others :
  Forall (λ n, String.prefix "_prepare_" n = false) others →
  get_export_formats others = Ok ["agr"; "agr_batch"; "dat_1"; "dat_2"; "json"].
Proof.
  intros Hothers. unfold get_export_formats. by rewrite (filter_dir _ Hothers).
Qed.

Lemma get_export_formats_exact_witness :
  get_export_formats ["__init__"; "get_array"; "set_array"; "export"; "get_kpoints"]
  = Ok ["agr"; "agr_batch"; "dat_1"; "dat_2"; "json"].
Proof.
  apply (get_export_formats_exact
           ["__init__"; "get_array"; "set_array"; "export"; "get_kpoints"]).
  repeat (constructor; [reflexivity|]). constructor.
Defined.

(** * The teardown of the test fixture *)

Import TestBase.

Ltac check_order :=
  repeat (apply List.Forall_cons;
          [split; simpl; [intros ?|intros [?|?]]; done|]);
  apply List.Forall_nil.

(** C8. From every database and for every configured email, the teardown
    makes these deletions, in this order, and no other.  All workflows go
    first, from the database as it is.  Then all groups, then all links,
    then all nodes: each of these deletions finds the tables emptied
    before it empty and every other table as it was at the start, and
    empties its own table only.  So the nodes go when no link is left.
    Only then, with no node left, comes the user: when exactly one user
    has the email, the users with this email go and then all computers;
    when none has it, only the computers go; when several have it, the
    lookup raises and neither users nor computers are touched. *)
Theorem tearDownClass_order email db :
  ∃ r db' log rest,
    tearDownClass email (db, []) = (r, (db', log))
    ∧ Forall in_order log
    ∧ reverse log
      = [ mkDeletion DbWorkflow db;
          mkDeletion DbGroup
            (mkDatabase [] (groups db) (links db) (nodes db) (users db) (computers db));
          mkDeletion DbLink
            (mkDatabase [] [] (links db) (nodes db) (users db) (computers db));
          mkDeletion DbNode
            (mkDatabase [] [] [] (nodes db) (users db) (computers db)) ]
        ++ rest
    ∧ match filter (λ u, u = email) (users db) with
      | [] =>
          r = Ok tt
          ∧ rest = [mkDeletion DbComputer (mkDatabase [] [] [] [] (users db) (computers db))]
          ∧ db' = mkDatabase [] [] [] [] (users db) []
      | [_] =>
          r = Ok tt
          ∧ rest = [ mkDeletion DbUser (mkDatabase [] [] [] [] (users db) (computers db));
                     mkDeletion DbComputer
                       (mkDatabase [] [] [] [] (filter (λ u, u ≠ email) (users db))
                          (computers db)) ]
          ∧ db' = mkDatabase [] [] [] [] (filter (λ u, u ≠ email) (users db)) []
      | _ =>
          r = Raise (Runtime MultipleObjectsReturned)
          ∧ rest = []
          ∧ db' = mkDatabase [] [] [] [] (users db) (computers db)
      end.
Proof.
  unfold tearDownClass, mbind, run_mbind, run_bind, try_pass, objects_get_delete,
    objects_all_delete, get_user. simpl.
  destruct (filter (λ u, u = email) (users db)) as [|u [|u' us]] eqn:Hfilter; simpl.
  - do 4 eexists. split; [reflexivity|]. split; [check_order|].
    split; [reflexivity|done].
  - assert (u = email) as ->.
    { assert (u ∈ filter (λ u, u = email) (users db)) as Hin by (rewrite Hfilter; left).
      by apply list_elem_of_filter in Hin as [? _]. }
    do 4 eexists. split; [reflexivity|]. split; [check_order|].
    split; [reflexivity|done].
  - do 4 eexists. split; [reflexivity|]. split; [check_order|].
    split; [reflexivity|done].
Qed.

(** When exactly one user has the configured email, the teardown returns
    and has deleted from all six tables. *)
Lemma tearDownClass_complete email db :
  filter (λ u, u = email) (users db) = [email] →
  ∃ db' log,
    tearDownClass email (db, []) = (Ok tt, (db', log))
    ∧ table <$> reverse log
      = [DbWorkflow; DbGroup; DbLink; DbNode; DbUser; DbComputer]
    ∧ workflows db' = [] ∧ groups db' = [] ∧ links db' = [] ∧ nodes db' = []
    ∧ computers db' = [] ∧ email ∉ users db'.
Proof.
  intros Hone.
  unfold tearDownClass, mbind, run_mbind, run_bind, try_pass, objects_get_delete,
    objects_all_delete, get_user. simpl. rewrite Hone. simpl.
  do 2 eexists. split; [reflexivity|]. split; [reflexivity|].
  split_and!; try done. simpl. rewrite list_elem_of_filter. tauto.
Qed.

(** * Further properties *)


Lemma mapM_Raise {A B} (f : A → result B) (P : exn → Prop) l e :
  (∀ x e, f x = Raise e → P e) → mapM f l = Raise e → P e.
Proof.
  intros Hf. induction l as [|x l IH]; simpl; [done|].
  destruct (f x) as [y|e1] eqn:Hx; simpl; [|intros [= <-]; eauto].
  destruct (mapM f l); simpl; [done|]. intros [= <-]. by apply IH.
Qed.














(** ** Where the energies of the verdict come from *)

Lemma mapM_Ok_elem {A B} (f : A → result B) l l' y :
  mapM f l = Ok l' → y ∈ l' → ∃ x, x ∈ l ∧ f x = Ok y.
Proof.
  revert l'. induction l as [|x l IH]; intros l'; simpl.
  - intros [= <-] Hy. by apply elem_of_nil in Hy.
  - destruct (f x) as [z|] eqn:Hx; simpl; [|done].
    destruct (mapM f l) as [k|]; simpl; [|done]. intros [= <-] Hy.
    apply elem_of_cons in Hy as [->|Hy].
    + exists x. split; [left|done].
    + destruct (IH k eq_refl Hy) as (x' & ? & ?). exists x'. split; [by right|done].
Qed.

Lemma getitem_elem {A} (l : list A) i x : Py.getitem l i = Ok x → x ∈ l.
Proof.
  unfold Py.getitem. case_bool_decide; [done|].
  destruct (l !! _) eqn:Hl; [|done]. intros [= <-]. by eapply list_elem_of_lookup_2.
Qed.

Lemma elem_concat {A} (x : A) (r : list A) (rows : list (list A)) :
  r ∈ rows → x ∈ r → x ∈ concat rows.
Proof.
  induction 1 as [|r' rows Hr IH]; simpl; rewrite elem_of_app; auto.
Qed.

Lemma sort_elem x rows : x ∈ concat (Numpy.sort rows) ↔ x ∈ concat rows.
Proof.
  unfold Numpy.sort. induction rows as [|r rows IH]; [done|].
  rewrite fmap_cons. simpl. rewrite !elem_of_app, IH.
  by rewrite (merge_sort_Permutation Qcle r).
Qed.

Lemma zip_with_app_elem (x : Qc) s t :
  x ∈ concat (zip_with app s t) → x ∈ concat s ∨ x ∈ concat t.
Proof.
  revert t. induction s as [|a s IH]; intros [|b t]; simpl; try (by intros ?%elem_of_nil).
  rewrite !elem_of_app. intros [[?|?]|H]; [auto..|].
  apply IH in H as [?|?]; auto.
Qed.

Lemma foldl_zip_with_app_elem (x : Qc) ss s :
  x ∈ concat (foldl (zip_with app) s ss) → x ∈ concat s ∨ x ∈ concat (concat ss).
Proof.
  revert s. induction ss as [|t ss IH]; intros s; simpl; [auto|].
  rewrite concat_app, elem_of_app.
  intros H. apply IH in H as [H|H]; [|auto].
  apply zip_with_app_elem in H as [?|?]; auto.
Qed.

Lemma join_spins_elem a rows x :
  join_spins a = Ok rows → x ∈ concat rows → x ∈ ndarray_flatten a.
Proof.
  destruct a as [r|[|s ss]]; simpl; [by intros [= <-]|done|].
  intros [= <-] H. apply foldl_zip_with_app_elem in H.
  by rewrite concat_app, elem_of_app.
Qed.

Lemma transpose_elem x rows : x ∈ concat (transpose rows) → x ∈ concat rows.
Proof.
  induction rows as [|r rows IH]; [done|]. simpl.
  destruct rows as [|r' rows'].
  - rewrite app_nil_r. clear IH. induction r as [|y r IHr]; [done|].
    rewrite fmap_cons. simpl. rewrite !elem_of_cons. tauto.
  - intros H. rewrite elem_of_app.
    assert (∀ (r : list Qc) cols, x ∈ concat (zip_with cons r cols) → x ∈ r ∨ x ∈ concat cols)
      as Hz.
    { clear. induction r as [|y r IHr]; intros [|c cols]; simpl;
        try (by intros ?%elem_of_nil).
      rewrite !elem_of_cons, !elem_of_app. intros [?|[?|H]]; [auto..|].
      apply IHr in H as [?|?]; auto. }
    apply Hz in H as [?|?]; auto.
Qed.

Lemma insert_by_key_perm p l : Py.insert_by_key p l ≡ₚ p :: l.
Proof.
  induction l as [|q l IH]; simpl; [done|].
  case_bool_decide; [done|]. rewrite IH. apply perm_swap.
Qed.

Lemma sorted_by_key_perm l : Py.sorted_by_key l ≡ₚ l.
Proof.
  unfold Py.sorted_by_key. induction l as [|p l IH]; simpl; [done|].
  by rewrite insert_by_key_perm, IH.
Qed.

Lemma sorted_pairs_elem (x : Qc) (b o : list Qc) :
  x ∈ (Py.sorted_by_key (zip b o)).*1 → x ∈ b.
Proof.
  rewrite (sorted_by_key_perm (zip b o)).
  revert o. induction b as [|y b IH]; intros [|z o]; simpl;
    try (by intros ?%elem_of_nil).
  rewrite !elem_of_cons. intros [?|H]; [auto|]. apply IH in H. auto.
Qed.

Lemma sorted_rows_elem (x : Qc) (rows occ : list (list Qc)) :
  x ∈ concat (fmap fst <$> ((λ i : list Qc * list Qc, Py.sorted_by_key (zip i.1 i.2))
                             <$> zip rows occ)) →
  x ∈ concat rows.
Proof.
  revert occ. induction rows as [|r rows IH]; intros [|o occ]; simpl;
    try (by intros ?%elem_of_nil).
  rewrite !elem_of_app. intros [H|H]; [apply sorted_pairs_elem in H|apply IH in H]; auto.
Qed.

Lemma mapM_getitem_zip_elem (rows : list (list Qc)) (idx : list nat) (g : nat → Z) l x :
  mapM (λ p : list Qc * nat, Py.getitem p.1 (g p.2)) (zip rows idx) = Ok l →
  x ∈ l → x ∈ concat rows.
Proof.
  intros Hm Hx. destruct (mapM_Ok_elem _ _ _ _ Hm Hx) as ([r i] & Hp & Hg).
  apply getitem_elem in Hg. simpl in Hg.
  apply elem_of_zip_l in Hp. by eapply elem_concat.
Qed.

Lemma mapM_getitem_elem (rows : list (list Qc)) (i : Z) l x :
  mapM (λ r : list Qc, Py.getitem r i) rows = Ok l → x ∈ l → x ∈ concat rows.
Proof.
  intros Hm Hx. destruct (mapM_Ok_elem _ _ _ _ Hm Hx) as (r & Hp & Hg).
  apply getitem_elem in Hg. by eapply elem_concat.
Qed.

Ltac strip_try :=
  repeat match goal with
         | H : try_except _ _ _ = Ok _ |- _ => apply try_except_Ok in H
         end.

Lemma occupied_levels_elem bd stored rows ne n homo lumo x :
  occupied_levels bd stored rows ne = Ok (Levels n homo lumo) →
  x ∈ homo ∨ x ∈ lumo → x ∈ concat rows.
Proof.
  unfold occupied_levels. destruct ne as [q|].
  - unfold from_number_electrons. intros H Hx. inv_result H. injection H as <- <- <-.
    strip_try. apply sort_elem. destruct Hx; eauto using mapM_getitem_elem.
  - unfold from_occupations. intros H Hx. inv_result H; injection H as <- <- <-.
    all: strip_try; eapply sorted_rows_elem; destruct Hx as [Hx|Hx];
      [eapply (mapM_getitem_zip_elem _ _ Z.of_nat)
      |eapply (mapM_getitem_zip_elem _ _ (λ n, Z.of_nat n + 1))]; eassumption.
Qed.

Lemma max_mins_elem (levels : list (list Qc)) mm mx mn :
  mapM (λ i, mx ← Py.max i; mn ← Py.min i; Ok (mx, mn)) levels = Ok mm →
  (mx, mn) ∈ mm → ∃ i, i ∈ levels ∧ mx ∈ i ∧ mn ∈ i.
Proof.
  intros Hm Hx. destruct (mapM_Ok_elem _ _ _ _ Hm Hx) as (i & Hi & Hf).
  exists i. split; [done|].
  destruct (Py.max i) as [mx'|] eqn:Hmax; simpl in Hf; [|done].
  destruct (Py.min i) as [mn'|] eqn:Hmin; simpl in Hf; [|done].
  injection Hf as <- <-. split; [by apply max_elem|by apply min_elem].
Qed.

Lemma existsb_elem {A} (p : A → bool) l :
  existsb p l = true → ∃ x, x ∈ l ∧ p x = true.
Proof.
  induction l as [|y l IH]; simpl; [done|].
  destruct (p y) eqn:Hy; simpl.
  - intros _. exists y. split; [left|done].
  - intros (x & ? & ?)%IH. exists x. split; [by right|done].
Qed.

(** A column of the transposed array holds the entries of one position of
    the rows. *)
Lemma transpose_lookup (rows : list (list Qc)) j col x :
  transpose rows !! j = Some col → x ∈ col → ∃ r, r ∈ rows ∧ r !! j = Some x.
Proof.
  revert j col. induction rows as [|r rows IH]; intros j col; [done|]. simpl.
  destruct rows as [|r' rows'].
  - rewrite list_lookup_fmap. destruct (r !! j) as [y|] eqn:Hy; [|done].
    intros [= <-] ->%list_elem_of_singleton. exists r. split; [left|done].
  - intros Hz Hx. apply lookup_zip_with_Some in Hz as (y & c & -> & Hy & Hc).
    apply elem_of_cons in Hx as [->|Hx].
    + exists r. split; [left|done].
    + destruct (IH _ _ Hc Hx) as (r0 & ? & ?). exists r0. split; [by right|done].
Qed.

Lemma level_elem (rows : list (list Qc)) i x :
  i ∈ transpose rows → x ∈ i → x ∈ concat rows.
Proof. intros Hi Hx. apply transpose_elem. by eapply elem_concat. Qed.

(** On finite numbers: when [find_bandgap] returns an insulator, the gap
    is the difference [lumo - homo] of two energies stored in the bands
    with [homo < lumo]; when a Fermi energy was given it lies strictly
    between the two. *)
Lemma insulator_gap_of_stored_energies (bandsdata : BandsData ndarray) a
    number_electrons fermi_energy gap :
  arrays bandsdata !! "bands" = Some a →
  find_bandgap bandsdata number_electrons fermi_energy = Ok (true, Some gap) →
  ∃ homo lumo,
    homo ∈ ndarray_flatten a ∧ lumo ∈ ndarray_flatten a
    ∧ gap = (lumo - homo)%Qc ∧ (homo < lumo)%Qc
    ∧ ∀ f, fermi_energy = Some f → (homo < f)%Qc ∧ (f < lumo)%Qc.
Proof.
  intros Hstored. unfold find_bandgap.
  destruct (truthy fermi_energy && truthy number_electrons); [done|].
  rewrite (get_bands_stored _ _ Hstored). simpl.
  destruct (join_spins a) as [rows|] eqn:Hrows; simpl; [|done].
  destruct fermi_energy as [f|].
  - unfold from_fermi_energy. intros H. inv_result H. injection H as <-.
    match goal with
    | Hh : Py.max _ = Ok ?h, Hl : Py.min _ = Ok ?l, Hm : mapM _ _ = Ok ?mm |- _ =>
        exists h, l;
        apply max_elem, list_elem_of_filter in Hh as [Hhf Hh];
        apply min_elem, list_elem_of_filter in Hl as [Hlf Hl];
        apply list_elem_of_fmap in Hh as ([mx mn] & -> & Hh);
        apply list_elem_of_fmap in Hl as ([mx' mn'] & -> & Hl);
        destruct (max_mins_elem _ _ _ _ Hm Hh) as (i & Hi & Hmx & _);
        destruct (max_mins_elem _ _ _ _ Hm Hl) as (i' & Hi' & _ & Hmn)
    end. simpl in *.
    split_and!.
    + apply (join_spins_elem _ _ _ Hrows). apply sort_elem. by apply (level_elem _ i).
    + apply (join_spins_elem _ _ _ Hrows). apply sort_elem. by apply (level_elem _ i').
    + done.
    + by transitivity f.
    + by intros ? [= <-].
  - intros H. apply bind_Ok in H as (found & Hfound & H).
    destruct found as [r|n homo lumo]; [|].
    { injection H as ->. unfold occupied_levels in Hfound. destruct number_electrons.
      - apply from_number_electrons_Levels in Hfound as (? & ? & ?). discriminate.
      - by apply from_occupations_Returned in Hfound. }
    inv_result H. injection H as <-.
    match goal with
    | Hl : Py.min lumo = Ok ?l, Hh : Py.max homo = Ok ?h |- _ =>
        exists h, l; apply min_elem in Hl; apply max_elem in Hh
    end.
    split_and!.
    + apply (join_spins_elem _ _ _ Hrows). eapply occupied_levels_elem; eauto.
    + apply (join_spins_elem _ _ _ Hrows). eapply occupied_levels_elem; eauto.
    + done.
    + repeat match goal with Hb : bool_decide _ = false |- _ =>
        apply bool_decide_eq_false in Hb end.
      match goal with |- (?h < ?l)%Qc =>
        destruct (Qclt_le_dec h l) as [|Hle]; [done|] end.
      exfalso. apply Qcle_lt_or_eq in Hle as [Hlt| ->].
      * match goal with Hb : ¬ (_ < _)%Qc |- _ => apply Hb end.
        apply (Qcplus_lt_mono_r _ _ a1). rewrite Qcplus_0_l.
        by replace (a0 - a1 + a1)%Qc with a0 by ring.
      * match goal with Hb : _ ≠ Q2Qc 0 |- _ => apply Hb end. ring.
    + done.
Qed.

Lemma max_mins_level (levels : list (list Qc)) mm mx mn :
  mapM (λ i, mx ← Py.max i; mn ← Py.min i; Ok (mx, mn)) levels = Ok mm →
  (mx, mn) ∈ mm → ∃ j i, levels !! j = Some i ∧ mx ∈ i ∧ mn ∈ i.
Proof.
  intros Hm Hx. destruct (max_mins_elem _ _ _ _ Hm Hx) as (i & Hi & ? & ?).
  apply list_elem_of_lookup_1 in Hi as [j Hj]. eauto.
Qed.

(** X3. When [find_bandgap], given a Fermi energy, returns [(False, None)],
    one band is crossed: for some position [j] in the sorted rows, the
    [j]-th energy is below the Fermi energy at one k-point and above it at
    another. *)
Theorem fermi_metal_band_crossed (bandsdata : BandsData ndarray) a rows
    number_electrons f :
  arrays bandsdata !! "bands" = Some a →
  join_spins a = Ok rows →
  find_bandgap bandsdata number_electrons (Some f) = Ok (false, None) →
  ∃ j r1 r2 e1 e2,
    r1 ∈ Numpy.sort rows ∧ r2 ∈ Numpy.sort rows
    ∧ r1 !! j = Some e1 ∧ r2 !! j = Some e2
    ∧ (e1 < f)%Qc ∧ (f < e2)%Qc.
Proof.
  intros Hstored Hrows. unfold find_bandgap.
  destruct (truthy (Some f) && truthy number_electrons); [done|].
  rewrite (get_bands_stored _ _ Hstored). simpl. rewrite Hrows. simpl.
  unfold from_fermi_energy. intros H. inv_result H.
  match goal with
  | Hm : mapM _ _ = Ok ?mm, He : existsb _ ?mm = true |- _ =>
      apply existsb_elem in He as ([mx mn] & Hin & Hc);
      apply andb_true_iff in Hc as [Hlo Hhi];
      apply bool_decide_eq_true in Hlo, Hhi;
      destruct (max_mins_level _ _ _ _ Hm Hin) as (j & i & Hj & Hmx & Hmn)
  end. simpl in *.
  destruct (transpose_lookup _ _ _ _ Hj Hmn) as (r1 & ? & ?).
  destruct (transpose_lookup _ _ _ _ Hj Hmx) as (r2 & ? & ?).
  exists j, r1, r2, mn, mx. done.
Qed.

(** X4. When [find_bandgap], given a Fermi energy, returns [(False, gap)]
    with a gap that is not [None], the Fermi energy is one of the stored
    band energies. *)
Theorem fermi_semimetal_energy_stored (bandsdata : BandsData ndarray) a
    number_electrons f gap :
  arrays bandsdata !! "bands" = Some a →
  find_bandgap bandsdata number_electrons (Some f) = Ok (false, Some gap) →
  f ∈ ndarray_flatten a.
Proof.
  intros Hstored. unfold find_bandgap.
  destruct (truthy (Some f) && truthy number_electrons); [done|].
  rewrite (get_bands_stored _ _ Hstored). simpl.
  destruct (join_spins a) as [rows|] eqn:Hrows; simpl; [|done].
  unfold from_fermi_energy. intros H. inv_result H.
  match goal with
  | Hm : mapM _ _ = Ok ?mm, He : _ && _ = true |- _ =>
      apply andb_true_iff in He as [He _];
      apply existsb_elem in He as ([mx mn] & Hin & Hc);
      apply bool_decide_eq_true in Hc; simpl in Hc; subst;
      destruct (max_mins_elem _ _ _ _ Hm Hin) as (i & Hi & Hmx & _)
  end.
  apply (join_spins_elem _ _ _ Hrows). apply sort_elem. by apply (level_elem _ i).
Qed.

Lemma foldl_min_le (l : list Qc) x :
  let m := foldl (λ m y, if bool_decide (y < m)%Qc then y else m) x l in
  (m ≤ x)%Qc ∧ ∀ y, y ∈ l → (m ≤ y)%Qc.
Proof.
  revert x. induction l as [|z l IH]; intros x; simpl.
  - split; [apply Qcle_refl|]. by intros y ?%elem_of_nil.
  - case_bool_decide as Hz.
    + destruct (IH z) as [Hm Hall]. split.
      * etrans; [done|]. by apply Qclt_le_weak.
      * intros y [->|Hy]%elem_of_cons; auto.
    + destruct (IH x) as [Hm Hall]. split; [done|].
      intros y [->|Hy]%elem_of_cons; auto.
      etrans; [done|]. by apply Qcnot_lt_le.
Qed.

Lemma foldl_max_ge (l : list Qc) x :
  let m := foldl (λ m y, if bool_decide (m < y)%Qc then y else m) x l in
  (x ≤ m)%Qc ∧ ∀ y, y ∈ l → (y ≤ m)%Qc.
Proof.
  revert x. induction l as [|z l IH]; intros x; simpl.
  - split; [apply Qcle_refl|]. by intros y ?%elem_of_nil.
  - case_bool_decide as Hz.
    + destruct (IH z) as [Hm Hall]. split.
      * etrans; [|done]. by apply Qclt_le_weak.
      * intros y [->|Hy]%elem_of_cons; auto.
    + destruct (IH x) as [Hm Hall]. split; [done|].
      intros y [->|Hy]%elem_of_cons; auto.
      etrans; [|done]. by apply Qcnot_lt_le.
Qed.

Lemma min_le l m y : Py.min l = Ok m → y ∈ l → (m ≤ y)%Qc.
Proof.
  destruct l as [|x l]; [done|]. intros [= <-] [->|Hy]%elem_of_cons.
  - by destruct (foldl_min_le l x).
  - destruct (foldl_min_le l x) as [_ Hall]. by apply Hall.
Qed.

Lemma max_ge l m y : Py.max l = Ok m → y ∈ l → (y ≤ m)%Qc.
Proof.
  destruct l as [|x l]; [done|]. intros [= <-] [->|Hy]%elem_of_cons.
  - by destruct (foldl_max_ge l x).
  - destruct (foldl_max_ge l x) as [_ Hall]. by apply Hall.
Qed.

(** In a sorted row the first entry is not above the last. *)
Lemma sorted_first_le_last (r : list Qc) lo hi :
  StronglySorted Qcle r →
  Py.getitem r 0 = Ok lo → Py.getitem r (-1) = Ok hi → (lo ≤ hi)%Qc.
Proof.
  intros Hs. unfold Py.getitem. simpl.
  destruct r as [|x r]; [done|]. simpl. intros [= <-].
  rewrite bool_decide_eq_false_2 by lia.
  replace (Z.to_nat (Z.of_nat (S (length r)) + -1)) with (length r) by lia.
  destruct ((x :: r) !! length r) as [y|] eqn:Hy; [|done]. intros [= <-].
  destruct r as [|z r]; [by injection Hy as <-|].
  apply StronglySorted_inv in Hs as [_ Hall].
  rewrite list.Forall_forall in Hall. apply Hall.
  apply (list_elem_of_lookup_2 _ (length r)). exact Hy.
Qed.

Lemma mapM_cons_Ok {A B} (f : A → result B) x l k :
  mapM f (x :: l) = Ok k → ∃ y k', f x = Ok y ∧ mapM f l = Ok k' ∧ k = y :: k'.
Proof.
  simpl. destruct (f x) as [y|]; simpl; [|done].
  destruct (mapM f l) as [k'|]; simpl; [|done]. intros [= <-]. eauto.
Qed.

(** On finite numbers: with a number of electrons whose integer part is
    zero, the index of the highest occupied band is -1, which Python reads
    as the last band: whatever [find_bandgap] returns then, it is not an
    insulator. *)
Lemma no_electrons_never_insulator (bandsdata : BandsData ndarray)
    number_electrons is_insulator gap :
  Py.int number_electrons = 0 →
  find_bandgap bandsdata (Some number_electrons) None = Ok (is_insulator, gap) →
  is_insulator = false.
Proof.
  intros Hzero. unfold find_bandgap. simpl. intros H.
  apply bind_Ok in H as (got & _ & H).
  apply bind_Ok in H as (stored & _ & H).
  apply bind_Ok in H as (rows & _ & H).
  apply bind_Ok in H as (found & Hfound & H).
  simpl in Hfound. unfold from_number_electrons in Hfound. rewrite Hzero in Hfound.
  assert (0 `div` (4 - ndim stored) = 0) as Hdiv by (by destruct stored).
  rewrite Hdiv in Hfound. simpl in Hfound.
  apply bind_Ok in Hfound as (homo & Hhomo & Hfound).
  apply bind_Ok in Hfound as (lumo & Hlumo%try_except_Ok & [= <-]).
  inv_result H; injection H as <- <-; try done.
  exfalso.
  repeat match goal with Hb : bool_decide _ = false |- _ =>
    apply bool_decide_eq_false in Hb end.
  destruct (Numpy.sort rows) as [|r rs] eqn:Hsort.
  { simpl in Hlumo. injection Hlumo as <-.
    match goal with Hl : Py.min [] = Ok _ |- _ => by vm_compute in Hl end. }
  assert (StronglySorted Qcle r) as Hr.
  { unfold Numpy.sort in Hsort. destruct rows as [|r0 rows]; [done|].
    injection Hsort as <- _. apply (StronglySorted_merge_sort Qcle). }
  apply mapM_cons_Ok in Hhomo as (hi & homo' & Hhi & _ & ->).
  apply mapM_cons_Ok in Hlumo as (lo & lumo' & Hlo & _ & ->).
  pose proof (sorted_first_le_last _ _ _ Hr Hlo Hhi) as Hle.
  match goal with
  | Hl : Py.min _ = Ok ?l, Hh : Py.max _ = Ok ?h |- _ =>
      pose proof (min_le _ _ lo Hl ltac:(left)) as Hmin;
      pose proof (max_ge _ _ hi Hh ltac:(left)) as Hmax;
      assert (l ≤ h)%Qc as Hlh by (etrans; [done|]; by etrans);
      apply Qcle_lt_or_eq in Hlh as [Hlt| ->]
  end.
  - match goal with Hb : ¬ (_ < Q2Qc 0)%Qc |- _ => apply Hb end.
    apply (Qcplus_lt_mono_r _ _ a0). rewrite Qcplus_0_l.
    by replace (a - a0 + a0)%Qc with a by ring.
  - match goal with Hb : _ ≠ Q2Qc 0 |- _ => apply Hb end. ring.
Qed.

Section class_extras.
Context {Obj Arr Elem : Type} `{!NumpyLike Obj Arr Elem}.
Implicit Types self : BandsData Arr.
Local Arguments check_arrays : simpl never.

Lemma set_bands_Ok self bands units occupations labels self' :
  set_bands bands units occupations labels self = (Ok tt, self') →
  ∃ the_bands the_occupations the_labels the_str,
    _validate_bands_occupations bands occupations labels self
    = (Ok (the_bands, the_occupations, the_labels), self)
    ∧ str units = Ok the_str
    ∧ self' =
      (let s1 := _set_attr (set_array self "bands" the_bands) "units"
                   (AStr the_str) in
       let s2 := match the_labels with
                 | Some l => _set_attr s1 "array_labels" (AStrs l)
                 | None => s1
                 end in
       match the_occupations with
       | Some o => set_array s2 "occupations" o
       | None => s2
       end).
Proof.
  unfold set_bands, mbind, method_bind, bind.
  pose proof (validate_reads_only bands occupations labels self) as Hsame.
  destruct (_validate_bands_occupations bands occupations labels self) as [[v|e] s0];
    simpl in *; subst; [|done].
  destruct v as [[the_bands the_occupations] the_labels].
  unfold set_units, reading, writing, ret, mbind, method_bind, bind. simpl.
  destruct (str units) as [the_str|e] eqn:Hstr; [|done].
  intros H. exists the_bands, the_occupations, the_labels, the_str.
  split; [done|]. split; [done|].
  destruct the_labels, the_occupations; simpl in *; by injection H as <-.
Qed.

Lemma method_bind_Ok {A B} (m : method Arr A) (k : A → method Arr B) self b self' :
  (m ≫= k) self = (Ok b, self') →
  ∃ a s1, m self = (Ok a, s1) ∧ k a s1 = (Ok b, self').
Proof.
  unfold mbind, method_bind, bind. destruct (m self) as [[a|e] s1]; [eauto|done].
Qed.

Ltac inv_method H :=
  lazymatch type of H with
  | (_ ≫= _) _ = (Ok _, _) =>
      let a := fresh "a" in let s := fresh "s" in let Ha := fresh "Ha" in
      apply method_bind_Ok in H as (a & s & Ha & H); inv_method Ha; inv_method H
  | raise _ _ = (Ok _, _) => discriminate H
  | ret _ _ = (Ok _, _) => unfold ret in H; simplify_eq/=
  | reading _ _ = (Ok _, _) => unfold reading in H; simplify_eq/=
  | writing _ _ = (Ok _, _) => unfold writing in H; simplify_eq/=
  | try_method _ _ _ _ = (Ok _, _) => unfold try_method, reading in H; simpl in H
  | (if ?b then _ else _) _ = (Ok _, _) => destruct b eqn:?; inv_method H
  | (match ?x with _ => _ end) _ = (Ok _, _) => destruct x eqn:?; inv_method H
  | (let '(_, _) := ?x in _) _ = (Ok _, _) => destruct x eqn:?; inv_method H
  | _ => idtac
  end.

Lemma omap_id_all_Some (items : list (option string)) :
  forallb (λ i, bool_decide (is_Some i)) items = true → Some <$> omap id items = items.
Proof.
  induction items as [|[x|] items IH]; simpl; [done| |done].
  intros H. f_equal. by apply IH.
Qed.

Lemma and_decide_false (P Q : Prop) `{!Decision P, !Decision Q} :
  bool_decide P && bool_decide (¬ Q) = false → P → Q.
Proof.
  intros H HP. rewrite (bool_decide_eq_true_2 P HP) in H. simpl in H.
  apply bool_decide_eq_false in H. by apply dec_stable.
Qed.

Lemma validate_Ok self bands occupations labels v :
  (_validate_bands_occupations bands occupations labels self).1 = Ok v →
  v.1.1 = np_array bands
  ∧ v.1.2 = np_array <$> occupations
  ∧ (labels = None → v.2 = None)
  ∧ (∀ l, labels = Some l → ∃ names, v.2 = Some names
       ∧ (length (shape (np_array bands)) = 2%nat → length names = 1%nat)
       ∧ (length (shape (np_array bands)) = 3%nat →
          length names = shape (np_array bands) !!! 0%nat)
       ∧ (∀ s, l = LString s → names = [s])
       ∧ (∀ items, l = LSequence items → Some <$> names = items)).
Proof.
  intros H.
  pose proof (validate_reads_only bands occupations labels self) as Hsame.
  destruct (_validate_bands_occupations bands occupations labels self) as [r s0] eqn:Hv.
  simpl in *. subst. unfold _validate_bands_occupations in Hv.
  inv_method Hv.
  all: split_and!; try done.
  all: intros l [= <-]; eexists; split; [done|]; split_and!.
  all: try (by intros ? [= <-]).
  all: try (intros ? [= <-]; by apply omap_id_all_Some).
  all: try (eapply (and_decide_false _ (length _ = _)); eassumption).
Qed.

(** X7. A call of [set_bands] that returns leaves the k-points, the arrays
    other than bands and occupations and the attributes other than units
    and array_labels as they were; without occupations given, the
    occupations stored before stay, and without labels given, the labels
    stored before stay. *)
Theorem set_bands_frame self bands units occupations labels self' :
  set_bands bands units occupations labels self = (Ok tt, self') →
  kpoints self' = kpoints self
  ∧ (∀ name, name ≠ "bands" → name ≠ "occupations" →
       arrays self' !! name = arrays self !! name)
  ∧ (∀ name, name ≠ "units" → name ≠ "array_labels" →
       attrs self' !! name = attrs self !! name)
  ∧ (occupations = None → arrays self' !! "occupations" = arrays self !! "occupations")
  ∧ (labels = None → attrs self' !! "array_labels" = attrs self !! "array_labels").
Proof.
  intros H. apply set_bands_Ok in H as (b & o & l & the_str & Hv & _ & ->).
  assert ((_validate_bands_occupations bands occupations labels self).1 = Ok (b, o, l))
    as Hv1 by (by rewrite Hv).
  apply validate_Ok in Hv1 as (_ & Ho & Hl & _). simpl in *.
  split_and!.
  - by destruct l, o.
  - intros name Hb Hocc. destruct l, o; simpl;
      rewrite ?(lookup_insert_ne _ "occupations" name) by done;
      by rewrite (lookup_insert_ne _ "bands" name) by done.
  - intros name Hu Hal. destruct l, o; simpl;
      rewrite ?(lookup_insert_ne _ "array_labels" name) by done;
      by rewrite (lookup_insert_ne _ "units" name) by done.
  - intros ->. simpl in Ho. subst o. destruct l; simpl;
      by rewrite (lookup_insert_ne _ "bands" "occupations") by (intros [=]).
  - intros Hnone. rewrite (Hl Hnone). destruct o; simpl;
      by rewrite (lookup_insert_ne _ "units" "array_labels") by (intros [=]).
Qed.

(** X8. After a call of [set_bands] that returns, the attribute units is
    the string of the argument, which is the word None when no units were
    given; labels that were given are stored one per array: one label for
    bands of rank 2, as many as there are spins for rank 3. *)
Theorem set_bands_units_labels self bands units occupations labels self' :
  set_bands bands units occupations labels self = (Ok tt, self') →
  (∃ the_str, str units = Ok the_str ∧ attrs self' !! "units" = Some (AStr the_str))
  ∧ ∀ l, labels = Some l →
      ∃ names, array_labels self' = Some (AStrs names)
        ∧ (length (shape (np_array bands)) = 2%nat → length names = 1%nat)
        ∧ (length (shape (np_array bands)) = 3%nat →
           length names = shape (np_array bands) !!! 0%nat)
        ∧ (∀ s, l = LString s → names = [s])
        ∧ (∀ items, l = LSequence items → Some <$> names = items).
Proof.
  intros H. apply set_bands_Ok in H as (b & o & l & the_str & Hv & Hstr & ->).
  assert ((_validate_bands_occupations bands occupations labels self).1 = Ok (b, o, l))
    as Hv1 by (by rewrite Hv).
  apply validate_Ok in Hv1 as (_ & _ & _ & Hl). simpl in *.
  assert (attrs (match o with
                 | Some o0 =>
                     set_array
                       match l with
                       | Some l0 =>
                           _set_attr
                             (_set_attr (set_array self "bands" b) "units" (AStr the_str))
                             "array_labels" (AStrs l0)
                       | None => _set_attr (set_array self "bands" b) "units" (AStr the_str)
                       end "occupations" o0
                 | None =>
                     match l with
                     | Some l0 =>
                         _set_attr
                           (_set_attr (set_array self "bands" b) "units" (AStr the_str))
                           "array_labels" (AStrs l0)
                     | None => _set_attr (set_array self "bands" b) "units" (AStr the_str)
                     end
                 end) !! "units" = Some (AStr the_str)) as Hunits.
  { destruct l, o; simpl;
      rewrite ?(lookup_insert_ne _ "array_labels" "units") by (intros [=]);
      by rewrite lookup_insert_eq. }
  split.
  - eauto.
  - intros l0 Hl0. destruct (Hl _ Hl0) as (names & -> & Hrest).
    exists names. split; [|done].
    unfold array_labels, get_attr_default. destruct o; simpl; by rewrite lookup_insert_eq.
Qed.

Lemma method_bind_Raise {A B} (m : method Arr A) (k : A → method Arr B) self e self' :
  (m ≫= k) self = (Raise e, self') →
  m self = (Raise e, self') ∨ ∃ a s1, m self = (Ok a, s1) ∧ k a s1 = (Raise e, self').
Proof.
  unfold mbind, method_bind, bind. destruct (m self) as [[a|e1] s1]; [by eauto|].
  intros [= <- <-]. by left.
Qed.

Ltac inv_method_raise H :=
  lazymatch type of H with
  | (_ ≫= _) _ = (Raise _, _) =>
      let Ha := fresh "Ha" in
      apply method_bind_Raise in H as [H|(? & ? & Ha & H)];
      [inv_method_raise H|inv_method Ha; inv_method_raise H]
  | raise _ _ = (Raise _, _) => unfold raise in H; simplify_eq/=
  | ret _ _ = (Raise _, _) => discriminate H
  | reading _ _ = (Raise _, _) =>
      unfold reading in H; apply (f_equal fst) in H; cbn beta iota delta [fst] in H
  | try_method _ _ _ _ = (Raise _, _) =>
      unfold try_method, reading in H; apply (f_equal fst) in H;
      cbn beta iota delta [fst] in H
  | (if ?b then _ else _) _ = (Raise _, _) => destruct b eqn:?; inv_method_raise H
  | (match ?x with _ => _ end) _ = (Raise _, _) => destruct x eqn:?; inv_method_raise H
  | (let '(_, _) := ?x in _) _ = (Raise _, _) => destruct x eqn:?; inv_method_raise H
  | _ => idtac
  end.


Lemma all_floats_Raise a e :
  float_raises_as_caught → all_floats a = Raise e →
  class_of e = TypeError ∨ class_of e = ValueError.
Proof.
  intros Hf. unfold all_floats.
  apply (mapM_Raise _ (λ e, class_of e = TypeError ∨ class_of e = ValueError)). exact Hf.
Qed.

Lemma check_arrays_cons x msg (l : list (Arr * string)) :
  check_arrays ((x, msg) :: l)
  = (let only_floats :=
       Raised ValueError ("The " +:+ msg +:+ " array can only contain float or None values") in
     try_except (try_except (all_floats x) TypeError only_floats) ValueError only_floats
       ≫= λ _, check_arrays l).
Proof. reflexivity. Qed.

Lemma check_arrays_Raise l e :
  float_raises_as_caught → check_arrays l = Raise e →
  ∃ x msg, (x, msg) ∈ l ∧
    e = Raised ValueError ("The " +:+ msg +:+ " array can only contain float or None values").
Proof.
  intros Hf. induction l as [|[x msg] l IH]; [done|]. rewrite check_arrays_cons.
  destruct (all_floats x) as [fl|e0] eqn:Hx; simpl.
  - intros (x' & msg' & ? & ?)%IH. exists x', msg'. split; [by right|done].
  - apply (all_floats_Raise _ _ Hf) in Hx as [Hc|Hc].
    + rewrite decide_True by done. simpl. intros [= <-].
      exists x, msg. split; [left|done].
    + rewrite decide_False by (rewrite Hc; done). simpl.
      rewrite decide_True by done. intros [= <-].
      exists x, msg. split; [left|done].
Qed.

Lemma get_kpoints_try_Raise self e' e :
  try_except (get_kpoints self) AttributeError e' = Raise e → e = e'.
Proof. unfold get_kpoints. destruct (kpoints self); simpl; [done|]. by intros [= <-]. Qed.

(** X9. When [float] raises nothing but [TypeError] and [ValueError], an
    exception leaves [set_bands] in one of two ways.  Either the
    validation raised it: then it is an [AttributeError], a [ValueError]
    or a [ValidationError], and the node is as it was.  Or the validation
    passed and [str(units)] raised it: then the bands are stored already,
    and nothing else of the call is. *)
Theorem set_bands_raises self bands units occupations labels e self' :
  float_raises_as_caught →
  set_bands bands units occupations labels self = (Raise e, self') →
  ((_validate_bands_occupations bands occupations labels self).1 = Raise e
   ∧ self' = self
   ∧ (class_of e = AttributeError ∨ class_of e = ValueError ∨ class_of e = ValidationError))
  ∨ ((∃ v, (_validate_bands_occupations bands occupations labels self).1 = Ok v)
     ∧ str units = Raise e
     ∧ self' = set_array self "bands" (np_array bands)).
Proof.
  intros Hf H. unfold set_bands in H.
  pose proof (validate_reads_only bands occupations labels self) as Hsame.
  apply method_bind_Raise in H as [H|(v & s1 & Hv & H)].
  - left. rewrite H in Hsame |- *. simpl in Hsame. split; [done|]. split; [done|].
    subst self'.
    unfold _validate_bands_occupations in H. inv_method_raise H; simpl; auto.
    all: try (match goal with
              | Hk : try_except (get_kpoints _) _ _ = Raise _ |- _ =>
                  apply get_kpoints_try_Raise in Hk as ->; simpl; by auto
              | Hc : check_arrays _ = Raise _ |- _ =>
                  apply (check_arrays_Raise _ _ Hf) in Hc as (? & ? & _ & ->); simpl; by auto
              end).
  - right. rewrite Hv in Hsame. simpl in Hsame. subst s1.
    assert ((_validate_bands_occupations bands occupations labels self).1 = Ok v) as Hv1
      by (by rewrite Hv).
    split; [by eauto|].
    apply validate_Ok in Hv1 as (Hb & _). destruct v as [[b o] l]. simpl in Hb. subst b.
    unfold set_units, reading, writing, ret, mbind, method_bind, bind in H. simpl in H.
    destruct (str units) as [the_str|e0]; simpl in H.
    + destruct l, o; simpl in H; discriminate.
    + by injection H as <- <-.
Qed.



End class_extras.

(** X6. On a node that stores bands and no occupations, [find_bandgap]
    called without number of electrons and without Fermi energy raises the
    [AttributeError] of [get_bands]. *)
Theorem find_bandgap_without_occupations (bandsdata : BandsData ndarray) a rows :
  arrays bandsdata !! "bands" = Some a →
  join_spins a = Ok rows →
  arrays bandsdata !! "occupations" = None →
  find_bandgap bandsdata None None = Raise (Raised AttributeError "No occupations were set").
Proof.
  intros Hb Hrows Ho. unfold find_bandgap. simpl.
  rewrite (get_bands_stored _ _ Hb). simpl. rewrite Hrows. simpl.
  unfold from_occupations, get_bands, get_array. rewrite Hb, Ho. done.
Qed.

(** ** [split] and the export formats *)

Lemma split_from_nonempty sep skip piece s : split_from sep skip piece s ≠ [].
Proof.
  revert skip piece. induction s as [|c s IH]; intros skip piece; cbn [split_from]; [done|].
  destruct skip; [|apply IH]. destruct (String.prefix sep (String c s)); [done|apply IH].
Qed.

Lemma split_prefix sep s :
  sep ≠ EmptyString → String.prefix sep s = true →
  ∃ f rest, split sep s = EmptyString :: f :: rest.
Proof.
  intros Hsep Hp. unfold split. destruct s as [|c s].
  - destruct sep; [done|discriminate].
  - cbn [split_from]. rewrite Hp.
    destruct (split_from sep (String.length sep - 1) [] s) as [|f rest] eqn:Hs.
    + by apply split_from_nonempty in Hs.
    + exists f, rest. done.
Qed.

(** X11. Whatever other names the instance has, [get_export_formats] does
    not raise ([split] always finds a second piece) and returns one entry
    for every distinct name that begins with [_prepare_]. *)
Theorem get_export_formats_returns others :
  ∃ formats,
    get_export_formats others = Ok formats
    ∧ length formats
      = length (filter (λ i, String.prefix "_prepare_" i = true)
                       (remove_dups (class_body ++ others))).
Proof.
  unfold get_export_formats, dir.
  rewrite <-(Permutation_length
               (filter_Permutation _ _ _ (merge_sort_Permutation str_le
                                            (remove_dups (class_body ++ others))))).
  generalize (merge_sort str_le (remove_dups (class_body ++ others))). intros names.
  induction names as [|n names (formats & IH & Hlen)]; [by exists []|].
  rewrite filter_cons. case_decide as Hp; [|eauto].
  destruct (split_prefix "_prepare_" n ltac:(done) Hp) as (f & rest & Hs).
  exists (f :: formats). split; [|simpl; by rewrite Hlen].
  unfold mapM in *. simpl. rewrite Hs. simpl. by rewrite IH.
Qed.



Ltac run_teardown :=
  unfold tearDownClass, mbind, run_mbind, run_bind, try_pass, objects_get_delete,
    objects_all_delete, get_user; simpl.

(** X12. Whether the teardown returns or raises, afterwards there are no
    workflows, groups, links or nodes, and the users with another email
    than the configured one are those of before. *)
Theorem tearDownClass_clears email db :
  ∃ r db' log,
    tearDownClass email (db, []) = (r, (db', log))
    ∧ workflows db' = [] ∧ groups db' = [] ∧ links db' = [] ∧ nodes db' = []
    ∧ ∀ u, u ≠ email → u ∈ users db' ↔ u ∈ users db.
Proof.
  run_teardown.
  destruct (filter _ (users db)) as [|u [|u' us]] eqn:Hf; simpl.
  - do 3 eexists. split; [reflexivity|]. simpl. split_and!; done.
  - do 3 eexists. split; [reflexivity|]. simpl. split_and!; try done.
    assert (u ∈ filter (λ v, v = email) (users db)) as Hu by (rewrite Hf; left).
    apply list_elem_of_filter in Hu as [-> _].
    intros v Hv. rewrite list_elem_of_filter. tauto.
  - do 3 eexists. split; [reflexivity|]. simpl. split_and!; done.
Qed.

(** X13. When no user has the configured email, the [ObjectDoesNotExist]
    of the lookup is passed over: the teardown returns, the users are left
    and the computers are deleted. *)
Theorem tearDownClass_without_user email db :
  email ∉ users db →
  ∃ db' log,
    tearDownClass email (db, []) = (Ok tt, (db', log))
    ∧ users db' = users db ∧ computers db' = []
    ∧ table <$> reverse log = [DbWorkflow; DbGroup; DbLink; DbNode; DbComputer].
Proof.
  intros Hno. run_teardown.
  assert (filter (λ u, u = email) (users db) = []) as ->.
  { induction (users db) as [|u us IH]; [done|].
    rewrite filter_cons. rewrite not_elem_of_cons in Hno. destruct Hno as [Hne Hno].
    rewrite decide_False by done. by apply IH. }
  simpl. do 2 eexists. split; [reflexivity|]. done.
Qed.

(** X14. When several users have the configured email, the lookup raises
    [MultipleObjectsReturned], which is not caught: the teardown raises
    after the nodes were deleted, and users and computers are left. *)
Theorem tearDownClass_ambiguous_user email db u1 u2 us :
  filter (λ u, u = email) (users db) = u1 :: u2 :: us →
  ∃ db' log,
    tearDownClass email (db, []) = (Raise (Runtime MultipleObjectsReturned), (db', log))
    ∧ users db' = users db ∧ computers db' = computers db
    ∧ table <$> reverse log = [DbWorkflow; DbGroup; DbLink; DbNode].
Proof.
  intros Hf. run_teardown. rewrite Hf. simpl.
  do 2 eexists. split; [reflexivity|]. done.
Qed.

(** X15. On a database without a user of the configured email, the class
    setup followed by the teardown returns and leaves the users of before
    and no other row. *)
Theorem setUpClass_tearDownClass email db :
  email ∉ users db →
  ∃ db' log,
    tearDownClass email (setUpClass email db, []) = (Ok tt, (db', log))
    ∧ users db' = users db
    ∧ workflows db' = [] ∧ groups db' = [] ∧ links db' = [] ∧ nodes db' = []
    ∧ computers db' = [].
Proof.
  intros Hno.
  assert (∀ us, email ∉ us → filter (λ u, u = email) us = []
                ∧ filter (λ v, v ≠ email) us = us) as Hfilter.
  { induction us as [|u us IH]; [done|]. intros [Hne Hus]%not_elem_of_cons.
    destruct (IH Hus) as [IH1 IH2]. rewrite !filter_cons.
    rewrite decide_False by done. rewrite decide_True by done. by rewrite IH2. }
  destruct (Hfilter _ Hno) as [Hf1 Hf2].
  assert (filter (λ u, u = email) (users db ++ [email]) = [email]) as Hin.
  { rewrite list.filter_app, Hf1, filter_cons, decide_True by done. done. }
  assert (filter (λ v, v ≠ email) (users db ++ [email]) = users db) as Hout.
  { rewrite list.filter_app, Hf2, filter_cons, decide_False by (by intros H; apply H).
    by rewrite app_nil_r. }
  run_teardown. rewrite Hin. simpl.
  do 2 eexists. split; [reflexivity|]. simpl. by rewrite Hout.
Qed.

(** ** The plot and the files of an export *)

Lemma omap_seq_lookup {A} (f : nat → option A) (n m j : nat) :
  (∀ k, (n ≤ k < n + m)%nat → is_Some (f k)) → (j < m)%nat →
  omap f (seq n m) !! j = f (n + j)%nat.
Proof.
  revert n j. induction m as [|m IH]; intros n j Hf Hj; [lia|].
  simpl. destruct (Hf n ltac:(lia)) as [d Hd]. rewrite Hd.
  destruct j as [|j]; simpl.
  - by rewrite Nat.add_0_r, Hd.
  - rewrite IH; [f_equal; lia| |lia]. intros k Hk. apply Hf. lia.
Qed.

Lemma omap_seq_length {A} (f : nat → option A) (n m : nat) :
  (∀ k, (n ≤ k < n + m)%nat → is_Some (f k)) →
  length (omap f (seq n m)) = m.
Proof.
  revert n. induction m as [|m IH]; intros n Hf; [done|].
  simpl. destruct (Hf n ltac:(lia)) as [d ->]. simpl.
  rewrite IH; [done|]. intros k Hk. apply Hf. lia.
Qed.

Section path.
Variable norm : Qc * Qc * Qc → Qc * Qc * Qc → Qc.
Implicit Types kpoints : list (Qc * Qc * Qc).

Lemma path_distances_defined kpoints (li : list Z) k :
  (1 ≤ k < 1 + (length kpoints - 1))%nat →
  is_Some (a ← kpoints !! k; b ← kpoints !! (k - 1)%nat;
           Some (if bool_decide (Z.of_nat k ∈ li) && bool_decide (Z.of_nat k - 1 ∈ li)
                 then Q2Qc 0 else norm a b)).
Proof.
  intros Hk.
  destruct (lookup_lt_is_Some_2 kpoints k ltac:(lia)) as [a ->].
  destruct (lookup_lt_is_Some_2 kpoints (k - 1) ltac:(lia)) as [b ->]. by eexists.
Qed.

Lemma path_distances_lookup kpoints li i a b :
  kpoints !! S i = Some a → kpoints !! i = Some b →
  path_distances norm kpoints li !! i
  = Some (if bool_decide (Z.of_nat (S i) ∈ li) && bool_decide (Z.of_nat (S i) - 1 ∈ li)
          then Q2Qc 0 else norm a b).
Proof.
  intros Ha Hb. unfold path_distances.
  rewrite omap_seq_lookup.
  - simpl. rewrite Ha. simpl. rewrite Nat.sub_0_r, Hb. done.
  - apply path_distances_defined.
  - apply lookup_lt_Some in Ha. lia.
Qed.

Lemma path_distances_length kpoints li :
  length (path_distances norm kpoints li) = (length kpoints - 1)%nat.
Proof. unfold path_distances. apply omap_seq_length, path_distances_defined. Qed.

Lemma path_x_length d : length (path_x d) = S (length d).
Proof. unfold path_x. rewrite length_fmap, length_seq. lia. Qed.

Lemma path_x_lookup d i :
  (i ≤ length d)%nat → path_x d !! i = Some (Py.sum (take i d)).
Proof.
  intros Hi. unfold path_x. rewrite list_lookup_fmap, lookup_seq_lt by lia. done.
Qed.

Lemma sum_snoc l y : Py.sum (l ++ [y]) = (Py.sum l + y)%Qc.
Proof. unfold Py.sum. by rewrite foldl_app. Qed.

Lemma path_x_step d i y :
  d !! i = Some y →
  path_x d !! S i = Some (Py.sum (take i d) + y)%Qc.
Proof.
  intros Hy. rewrite path_x_lookup by (apply lookup_lt_Some in Hy; lia).
  by rewrite (take_S_r _ _ _ Hy), sum_snoc.
Qed.

Lemma path_x_shape kpoints li :
  path_x (path_distances norm kpoints li) !! 0%nat = Some (Q2Qc 0)
  ∧ length (path_x (path_distances norm kpoints li)) = Nat.max 1 (length kpoints).
Proof.
  split.
  - by rewrite path_x_lookup by lia.
  - rewrite path_x_length, path_distances_length. lia.
Qed.

Lemma path_x_monotone kpoints li i a b :
  (∀ p q, (Q2Qc 0 ≤ norm p q)%Qc) →
  path_x (path_distances norm kpoints li) !! i = Some a →
  path_x (path_distances norm kpoints li) !! S i = Some b →
  (a ≤ b)%Qc.
Proof.
  intros Hnorm Ha Hb.
  assert (S i < length (path_x (path_distances norm kpoints li)))%nat as Hlt
    by (by eapply lookup_lt_Some).
  rewrite path_x_length, path_distances_length in Hlt.
  destruct (lookup_lt_is_Some_2 kpoints (S i) ltac:(lia)) as [p Hp].
  destruct (lookup_lt_is_Some_2 kpoints i ltac:(lia)) as [q Hq].
  pose proof (path_distances_lookup kpoints li i p q Hp Hq) as Hd.
  rewrite (path_x_step _ _ _ Hd) in Hb. injection Hb as <-.
  rewrite path_x_lookup in Ha by (rewrite path_distances_length; lia).
  injection Ha as <-.
  rewrite <-(Qcplus_0_r (Py.sum _)) at 1. apply Qcplus_le_mono_l.
  destruct (_ && _); [apply Qcle_refl|apply Hnorm].
Qed.

Lemma path_x_discontinuity kpoints li i :
  (1 ≤ i < length kpoints)%nat →
  Z.of_nat i ∈ li → Z.of_nat i - 1 ∈ li →
  path_x (path_distances norm kpoints li) !! i
  = path_x (path_distances norm kpoints li) !! (i - 1)%nat.
Proof.
  intros [H1 Hi] Hin Hin'. destruct i as [|i]; [lia|].
  replace (S i - 1)%nat with i by lia.
  destruct (lookup_lt_is_Some_2 kpoints (S i) ltac:(lia)) as [p Hp].
  destruct (lookup_lt_is_Some_2 kpoints i ltac:(lia)) as [q Hq].
  pose proof (path_distances_lookup kpoints li i p q Hp Hq) as Hd.
  rewrite !bool_decide_eq_true_2 in Hd by done. simpl in Hd.
  rewrite (path_x_step _ _ _ Hd), Qcplus_0_r.
  by rewrite path_x_lookup by (rewrite path_distances_length; lia).
Qed.
End path.
(** The label in turn, after the test for the Greek letter. *)
Lemma greek_gamma_last fileformat done cur :
  ∃ cur', greek_gamma fileformat (length done) (done ++ [cur]) = done ++ [cur']
    ∧ cur'.1 = cur.1
    ∧ (contains "agr" fileformat = false → cur' = cur)
    ∧ (contains "agr" fileformat = true → cur'.2 ≠ "G").
Proof.
  unfold greek_gamma. rewrite lookup_app_r, Nat.sub_diag by lia. simpl.
  destruct (contains "agr" fileformat) eqn:Hagr.
  - case_bool_decide as HG; simpl.
    + exists (cur.1, "\xG"). split_and!; [|done|done|done].
      rewrite insert_app_r_alt, Nat.sub_diag by lia. done.
    + exists cur. by split_and!.
  - exists cur. rewrite andb_false_r. by split_and!.
Qed.

Lemma foldl_seq_ind {S} (step : S → nat → S) (Inv : nat → S → Prop) (n m : nat) (st : S) :
  Inv n st →
  (∀ i s, (n ≤ i < n + m)%nat → Inv i s → Inv (Datatypes.S i) (step s i)) →
  Inv (n + m)%nat (foldl step st (seq n m)).
Proof.
  revert n st. induction m as [|m IH]; intros n st H0 Hstep.
  - by rewrite Nat.add_0_r.
  - simpl. replace (n + Datatypes.S m)%nat with (Datatypes.S n + m)%nat by lia.
    apply IH.
    + apply Hstep; [lia|done].
    + intros i s Hi. apply Hstep. lia.
Qed.

(** The loop of the labels keeps what holds of the labels joined so far,
    when every turn does: the labels joined are those already closed and
    the one in turn. *)
Lemma join_labels_ind fileformat (the_labels : list (Qc * string))
    (Inv : nat → list (Qc * string) → (Qc * string) → Prop) first :
  the_labels !! 0%nat = Some first →
  Inv 1%nat [] first →
  (∀ i done cur cur' this before,
     the_labels !! i = Some this → the_labels !! (i - 1)%nat = Some before →
     (1 ≤ i)%nat →
     Inv i done cur →
     greek_gamma fileformat (length done) (done ++ [cur]) = done ++ [cur'] →
     if bool_decide (this.1 = before.1)
     then Inv (S i) done (cur'.1, cur'.2 +:+ "|" +:+ this.2)
     else Inv (S i) (done ++ [cur']) this) →
  ∃ done cur cur',
    Inv (length the_labels) done cur
    ∧ greek_gamma fileformat (length done) (done ++ [cur]) = done ++ [cur']
    ∧ join_labels fileformat the_labels = done ++ [cur'].
Proof.
  intros Hfirst H0 Hstep.
  destruct the_labels as [|f rest]; [done|].
  injection Hfirst as ->. unfold join_labels.
  remember (first :: rest) as the_labels eqn:HL.
  assert (length the_labels = S (length rest)) as Hlen by (by rewrite HL).
  clear HL. rename first into f.
  pose (Inv' := λ (i : nat) (st : list (Qc * string) * nat),
          ∃ done cur, st = (done ++ [cur], length done) ∧ Inv i done cur).
  assert (Inv' (1 + (length the_labels - 1))%nat
            (foldl (join_step fileformat the_labels) ([f], 0%nat)
                   (seq 1 (length the_labels - 1)))) as Hinv.
  { apply (foldl_seq_ind _ Inv').
    - exists [], f. done.
    - intros i s Hi (done & cur & -> & HI).
      destruct (lookup_lt_is_Some_2 the_labels i ltac:(lia)) as [this Hthis].
      destruct (lookup_lt_is_Some_2 the_labels (i - 1) ltac:(lia)) as [before Hbefore].
      destruct (greek_gamma_last fileformat done cur) as (cur' & Hg & _).
      pose proof (Hstep i done cur cur' this before Hthis Hbefore ltac:(lia) HI Hg) as Hs.
      unfold join_step. rewrite Hg, Hthis, Hbefore.
      case_bool_decide.
      + exists done, (cur'.1, cur'.2 +:+ "|" +:+ this.2). split; [|done].
        f_equal. rewrite alter_app_r_alt, Nat.sub_diag by lia. done.
      + exists (done ++ [cur']), this. split; [|done].
        rewrite <-(assoc_L (++)). f_equal. rewrite length_app. simpl. lia. }
  replace (1 + (length the_labels - 1))%nat with (length the_labels) in Hinv
    by lia.
  destruct Hinv as (done & cur & -> & HI).
  destruct (greek_gamma_last fileformat done cur) as (cur' & Hg & _).
  exists done, cur, cur'. done.
Qed.

Lemma no_equal_neighbours_snoc {A} (l : list A) (x y : A) :
  no_equal_neighbours (l ++ [x]) → x ≠ y → no_equal_neighbours ((l ++ [x]) ++ [y]).
Proof.
  intros Hl Hxy k a b Ha Hb.
  destruct (decide (S k < length (l ++ [x]))%nat) as [Hk|Hk].
  - rewrite lookup_app_l in Ha by lia. rewrite lookup_app_l in Hb by lia. by eapply Hl.
  - assert (S k < length ((l ++ [x]) ++ [y]))%nat as Hk' by (by eapply lookup_lt_Some).
    rewrite !length_app in Hk. rewrite !length_app in Hk'. simpl in Hk, Hk'.
    assert (k = length l) as -> by lia.
    rewrite <-(assoc_L (++)) in Ha, Hb.
    rewrite lookup_app_r in Ha by lia. rewrite lookup_app_r in Hb by lia.
    rewrite Nat.sub_diag in Ha. replace (S (length l) - length l)%nat with 1%nat in Hb by lia.
    simpl in Ha, Hb. congruence.
Qed.

Lemma no_equal_neighbours_last {A} (l : list A) (x : A) :
  no_equal_neighbours (l ++ [x]) → ∀ x', x' = x → no_equal_neighbours (l ++ [x']).
Proof. by intros ? ? ->. Qed.

Lemma join_labels_positions fileformat (the_labels : list (Qc * string)) :
  no_equal_neighbours (fst <$> join_labels fileformat the_labels)
  ∧ ∀ q, q ∈ fst <$> join_labels fileformat the_labels ↔ q ∈ fst <$> the_labels.
Proof.
  destruct the_labels as [|first rest] eqn:HL.
  { split; [by intros k a b [=]|done]. }
  rewrite <-HL.
  destruct (join_labels_ind fileformat the_labels
    (λ i closed cur,
       (∃ before, the_labels !! (i - 1)%nat = Some before ∧ before.1 = cur.1)
       ∧ no_equal_neighbours (fst <$> closed ++ [cur])
       ∧ ∀ q, q ∈ fst <$> closed ++ [cur] ↔ q ∈ fst <$> take i the_labels) first)
    as (closed & cur & cur' & (_ & Hadj & Hin) & Hg & ->).
  - by rewrite HL.
  - split_and!.
    + exists first. by rewrite HL.
    + intros k a b Ha Hb. by destruct k.
    + intros q. by rewrite HL.
  - intros i closed cur cur' this before Hthis Hbefore Hi ((b & Hb & Hbc) & Hadj & Hin) Hg.
    destruct (greek_gamma_last fileformat closed cur) as (c & Hg' & Hc1 & _).
    rewrite Hg' in Hg. apply app_inv_head in Hg. injection Hg as ->.
    assert (b = before) as -> by congruence.
    assert (fst <$> closed ++ [cur'] = fst <$> closed ++ [cur]) as Hfst
      by (by rewrite !fmap_app; simpl; rewrite Hc1).
    assert (fst <$> take (S i) the_labels = (fst <$> take i the_labels) ++ [this.1]) as Htake
      by (by rewrite (take_S_r _ _ _ Hthis), fmap_app).
    case_bool_decide as Heq.
    + assert (fst <$> closed ++ [(cur'.1, cur'.2 +:+ "|" +:+ this.2)] = fst <$> closed ++ [cur])
        as Hfst' by (by rewrite !fmap_app; simpl; rewrite Hc1).
      rewrite Hfst', Htake. split_and!.
      * exists this. split; [rewrite <-Hthis; f_equal; lia|simpl; congruence].
      * done.
      * intros q. rewrite elem_of_app, <-Hin, list_elem_of_singleton.
        split; [tauto|]. intros [?| ->]; [done|].
        rewrite fmap_app, elem_of_app, Heq, Hbc. right. simpl. by left.
    + rewrite Htake. split_and!.
      * exists this. split; [rewrite <-Hthis; f_equal; lia|done].
      * rewrite fmap_app. simpl. rewrite Hfst, fmap_app. simpl.
        rewrite fmap_app in Hadj. simpl in Hadj.
        apply no_equal_neighbours_snoc; [done|]. congruence.
      * intros q. rewrite fmap_app. simpl. rewrite Hfst.
        rewrite !elem_of_app, <-Hin. done.
  - destruct (greek_gamma_last fileformat closed cur) as (c & Hg' & Hc1 & _).
    rewrite Hg' in Hg. apply app_inv_head in Hg. injection Hg as ->.
    assert (fst <$> closed ++ [cur'] = fst <$> closed ++ [cur]) as Hfst
      by (by rewrite !fmap_app; simpl; rewrite Hc1).
    rewrite Hfst. split; [done|]. intros q. rewrite Hin.
    by rewrite firstn_all.
Qed.

Lemma append_assoc (a b c : string) : (a +:+ b) +:+ c = a +:+ (b +:+ c).
Proof.
  induction a as [|x a IH]; [done|].
  change (String x ((a +:+ b) +:+ c) = String x (a +:+ (b +:+ c))). by rewrite IH.
Qed.

Lemma concat_snoc sep (l : list string) (x y : string) :
  String.concat sep ((l ++ [x]) ++ [y]) = String.concat sep (l ++ [x]) +:+ sep +:+ y.
Proof.
  induction l as [|a l IH]; [done|].
  simpl in *. destruct (l ++ [x]) as [|b l'] eqn:Hl.
  - by destruct l.
  - simpl in *. rewrite IH. by rewrite !append_assoc.
Qed.

Lemma concat_last_joined sep (l : list string) (x y : string) :
  String.concat sep (l ++ [x +:+ sep +:+ y]) = String.concat sep ((l ++ [x]) ++ [y]).
Proof.
  induction l as [|a l IH]; [done|].
  simpl in *. destruct l as [|b l']; simpl in *; [done|]. by rewrite IH.
Qed.

Lemma join_labels_names fileformat (the_labels : list (Qc * string)) :
  contains "agr" fileformat = false →
  String.concat "|" (snd <$> join_labels fileformat the_labels)
  = String.concat "|" (snd <$> the_labels).
Proof.
  intros Hagr. destruct the_labels as [|first rest] eqn:HL; [done|].
  rewrite <-HL.
  destruct (join_labels_ind fileformat the_labels
    (λ i closed cur,
       (∃ names name, snd <$> take i the_labels = names ++ [name])
       ∧ String.concat "|" (snd <$> closed ++ [cur])
         = String.concat "|" (snd <$> take i the_labels)) first)
    as (closed & cur & cur' & (_ & Hnames) & Hg & ->).
  - by rewrite HL.
  - split; [|by rewrite HL]. exists [], first.2. by rewrite HL.
  - intros i closed cur cur' this before Hthis Hbefore Hi
      ((names & name & Hsplit) & Hnames) Hg.
    destruct (greek_gamma_last fileformat closed cur) as (c & Hg' & _ & Hc & _).
    rewrite Hg' in Hg. apply app_inv_head in Hg. injection Hg as ->.
    rewrite (Hc Hagr).
    assert (snd <$> take (S i) the_labels = (snd <$> take i the_labels) ++ [this.2]) as Htake
      by (by rewrite (take_S_r _ _ _ Hthis), fmap_app).
    assert (String.concat "|" (snd <$> take (S i) the_labels)
            = String.concat "|" (snd <$> closed ++ [cur]) +:+ "|" +:+ this.2) as Hconcat
      by (by rewrite Htake, Hsplit, concat_snoc, <-Hsplit, Hnames).
    rewrite Hconcat.
    assert (∃ names name, snd <$> take (S i) the_labels = names ++ [name]) as Hsplit'
      by (exists (snd <$> take i the_labels), this.2; done).
    case_bool_decide as Heq; (split; [done|]); rewrite !fmap_app; simpl.
    + by rewrite concat_last_joined, concat_snoc.
    + by rewrite concat_snoc.
  - destruct (greek_gamma_last fileformat closed cur) as (c & Hg' & _ & Hc & _).
    rewrite Hg' in Hg. apply app_inv_head in Hg. injection Hg as ->.
    rewrite (Hc Hagr), Hnames. by rewrite firstn_all.
Qed.

Lemma join_labels_agr fileformat (the_labels : list (Qc * string)) l :
  contains "agr" fileformat = true →
  l ∈ join_labels fileformat the_labels → l.2 ≠ "G".
Proof.
  intros Hagr. destruct the_labels as [|first rest] eqn:HL.
  { by intros ?%elem_of_nil. }
  rewrite <-HL.
  destruct (join_labels_ind fileformat the_labels
    (λ i closed cur, ∀ l, l ∈ closed → l.2 ≠ "G") first)
    as (closed & cur & cur' & Hclosed & Hg & ->).
  - by rewrite HL.
  - by intros ? ?%elem_of_nil.
  - intros i closed cur cur' this before Hthis Hbefore Hi Hclosed Hg.
    destruct (greek_gamma_last fileformat closed cur) as (c & Hg' & _ & _ & Hc).
    rewrite Hg' in Hg. apply app_inv_head in Hg. injection Hg as ->.
    case_bool_decide; [done|].
    intros l' [?| ->%list_elem_of_singleton]%elem_of_app; [by apply Hclosed|by apply Hc].
  - destruct (greek_gamma_last fileformat closed cur) as (c & Hg' & _ & _ & Hc).
    rewrite Hg' in Hg. apply app_inv_head in Hg. injection Hg as ->.
    intros [?| ->%list_elem_of_singleton]%elem_of_app; [by apply Hclosed|by apply Hc].
Qed.

Lemma rfind_None_inv c a s :
  rfind c (String a s) = None → Ascii.eqb a c = false ∧ rfind c s = None.
Proof.
  simpl. destruct (rfind c s); [done|]. by destruct (Ascii.eqb a c).
Qed.

Lemma substring_all s : String.substring 0 (String.length s) s = s.
Proof. induction s as [|a s IH]; simpl; [done|by rewrite IH]. Qed.

(** What starts at the last [c] of a string: [c], and no other [c]. *)
Lemma rfind_suffix c p k :
  rfind c p = Some k →
  ∃ rest, String.substring k (String.length p - k) p = String c rest
          ∧ rfind c rest = None.
Proof.
  revert k. induction p as [|a p IH]; intros k; [done|].
  simpl. destruct (rfind c p) as [k'|] eqn:Hp.
  - intros [= <-]. by apply IH.
  - destruct (Ascii.eqb a c) eqn:Ha; [|done]. intros [= <-].
    apply Ascii.eqb_eq in Ha as ->. exists p. simpl. by rewrite substring_all.
Qed.

Lemma split_from_without c piece s :
  rfind c s = None →
  split_from (String c EmptyString) 0 piece s
  = [String.string_of_list_ascii (reverse piece ++ String.list_ascii_of_string s)].
Proof.
  revert piece. induction s as [|a s IH]; intros piece Hs.
  - simpl. by rewrite app_nil_r.
  - apply rfind_None_inv in Hs as [Ha Hs].
    cbn [split_from String.prefix]. destruct (ascii_dec c a) as [->|Hne].
    + by rewrite Ascii.eqb_refl in Ha.
    + rewrite IH by done. rewrite reverse_cons, <-(assoc_L (++)). done.
Qed.

(** The extension that [splitext] finds is empty or a dot and what follows
    the last dot of the path. *)
Lemma splitext_extension p :
  (splitext p).2 = EmptyString
  ∨ ∃ rest, (splitext p).2 = String "."%char rest ∧ rfind "."%char rest = None.
Proof.
  unfold splitext. destruct (rfind "."%char p) as [k|] eqn:Hk; [|by left].
  destruct (_ && _); [|by left]. right. simpl. by apply rfind_suffix.
Qed.

Lemma split_extension rest :
  rfind "."%char rest = None →
  split "." (String "."%char rest) = [EmptyString; rest].
Proof.
  intros Hrest. unfold split. cbn [split_from String.prefix].
  destruct (ascii_dec "." "."); [|done]. simpl String.length.
  rewrite split_from_without by done. simpl.
  replace (String.prefix EmptyString rest) with true by (by destruct rest).
  by rewrite String.string_of_list_ascii_of_string.
Qed.

Lemma write_extra_files_frame overwrite extra_files (files : gmap string string) f :
  f ∉ extra_files.*1 →
  (write_extra_files overwrite extra_files files).2 !! f = files !! f.
Proof.
  revert files. induction extra_files as [|[k v] rest IH]; intros files Hf; [done|].
  simpl. apply not_elem_of_cons in Hf as [Hfk Hf]. simpl in Hfk.
  destruct (_ && _); [done|]. rewrite IH by done. by rewrite lookup_insert_ne.
Qed.

Lemma write_extra_files_keeps extra_files (files : gmap string string) f c :
  files !! f = Some c →
  (write_extra_files false extra_files files).2 !! f = Some c.
Proof.
  revert files. induction extra_files as [|[k v] rest IH]; intros files Hf; [done|].
  simpl. rewrite andb_true_r. case_bool_decide as Hk; [done|].
  apply IH. rewrite lookup_insert_ne; [done|]. intros ->. apply Hk. by eexists.
Qed.

Lemma write_extra_files_written overwrite extra_files (files files' : gmap string string) k :
  write_extra_files overwrite extra_files files = (None, files') →
  k ∈ extra_files.*1 →
  ∃ v, (k, v) ∈ extra_files ∧ files' !! k = Some v.
Proof.
  revert files. induction extra_files as [|[k0 v0] rest IH]; intros files Hw Hk.
  { by apply elem_of_nil in Hk. }
  simpl in Hw. destruct (_ && _); [done|].
  destruct (decide (k ∈ rest.*1)) as [Hin|Hnot].
  - destruct (IH _ Hw Hin) as (v & Hv & Hlook). exists v. split; [by right|done].
  - apply elem_of_cons in Hk as [Heq|Hk]; [|done]. simpl in Heq. subst k0.
    exists v0. split; [by left|].
    pose proof (write_extra_files_frame overwrite rest (<[k:=v0]> files) k Hnot) as Hfr.
    rewrite Hw in Hfr. simpl in Hfr. by rewrite Hfr, lookup_insert_eq.
Qed.

(** ** What [_exportstring] hands to the method that prepares a format,
    and what [export] does to the files *)

Section export_properties.
Context {Kwargs : Type}.
Variable get_kpoints_cartesian : BandsData ndarray → bool → result (list (Qc * Qc * Qc)).
Variable self_labels : BandsData ndarray → result (option (list (Z * string))).
Variable norm : Qc * Qc * Qc → Qc * Qc * Qc → Qc.
Variable uuid : BandsData ndarray → string.
Variable get_file_header : string.
Variable getattr_self :
  string → option (plot_info → Kwargs → result (string * option (list (string * string)))).


Lemma labels_on_path (x : list Qc) (labels : list (Z * string)) the_labels :
  mapM (λ i : Z * string, xi ← Py.getitem x i.1; Ok (xi, i.2)) labels = Ok the_labels →
  the_labels.*2 = labels.*2 ∧ ∀ l, l ∈ the_labels → l.1 ∈ x.
Proof.
  revert the_labels. induction labels as [|[i name] labels IH]; intros the_labels H.
  - injection H as <-. split; [done|]. by intros ? ?%elem_of_nil.
  - apply mapM_cons_Ok in H as (y & k' & Hy & Hk & ->).
    apply bind_Ok in Hy as (xi & Hxi & [= <-]).
    destruct (IH _ Hk) as [Hnames Hpos]. split.
    + by rewrite !fmap_cons, Hnames.
    + intros l [->|Hl]%elem_of_cons; [|by apply Hpos].
      simpl. by eapply getitem_elem.
Qed.

Lemma build_plot_info_Ok self fileformat path cartesian info :
  build_plot_info get_kpoints_cartesian self_labels norm
    self fileformat path cartesian = Ok info →
  ∃ kpoints labels the_labels,
    (∀ k, get_kpoints_cartesian self cartesian = Ok k → kpoints = k)
    ∧ (∀ l, self_labels self = Ok (Some l) → labels = l)
    ∧ plot_x info = path_x (path_distances norm kpoints labels.*1)
    ∧ mapM (λ i : Z * string, xi ← Py.getitem (plot_x info) i.1; Ok (xi, i.2)) labels
      = Ok the_labels
    ∧ plot_labels info = join_labels fileformat the_labels.
Proof.
  unfold build_plot_info. intros H.
  apply bind_Ok in H as (got & _ & H).
  apply bind_Ok in H as (stored & _ & H).
  apply bind_Ok in H as (bands & _ & H).
  apply bind_Ok in H as (kpoints & Hk & H).
  apply bind_Ok in H as (labels & Hl & H).
  apply bind_Ok in H as (the_labels & Hthe & H).
  injection H as <-. exists kpoints, labels, the_labels. simpl.
  split_and!; [| |done|done|done].
  - intros k Hk'. rewrite Hk' in Hk. by injection Hk.
  - intros l Hl'. rewrite Hl' in Hl. by injection Hl.
Qed.

(** X16. The x of the plot that [_exportstring] builds starts at 0 and
    never goes back along the path, when the norm of a difference is not
    negative. *)
Theorem plot_x_nondecreasing self fileformat path cartesian info :
  (∀ p q, (Q2Qc 0 ≤ norm p q)%Qc) →
  build_plot_info get_kpoints_cartesian self_labels norm
    self fileformat path cartesian = Ok info →
  plot_x info !! 0%nat = Some (Q2Qc 0)
  ∧ ∀ i a b, plot_x info !! i = Some a → plot_x info !! S i = Some b → (a ≤ b)%Qc.
Proof.
  intros Hnorm H.
  apply build_plot_info_Ok in H as (kpoints & labels & the_labels & _ & _ & -> & _).
  split; [apply path_x_shape|]. intros i a b. by apply path_x_monotone.
Qed.

(** X17. The plot has one x for every k-point; without k-points it still
    has one x, the 0 the path starts at. *)
Theorem plot_x_per_kpoint self fileformat path cartesian info kpoints :
  get_kpoints_cartesian self cartesian = Ok kpoints →
  build_plot_info get_kpoints_cartesian self_labels norm
    self fileformat path cartesian = Ok info →
  length (plot_x info) = Nat.max 1 (length kpoints).
Proof.
  intros Hk H.
  apply build_plot_info_Ok in H as (k & labels & the_labels & Hk' & _ & -> & _).
  rewrite (Hk' _ Hk). apply path_x_shape.
Qed.

(** X18. Where two consecutive k-points both carry a label the path is
    discontinuous: the two points get the same x. *)
Theorem plot_x_discontinuity self fileformat path cartesian info kpoints labels (i : nat) :
  get_kpoints_cartesian self cartesian = Ok kpoints →
  self_labels self = Ok (Some labels) →
  build_plot_info get_kpoints_cartesian self_labels norm
    self fileformat path cartesian = Ok info →
  (1 ≤ i < length kpoints)%nat →
  Z.of_nat i ∈ labels.*1 → Z.of_nat i - 1 ∈ labels.*1 →
  plot_x info !! i = plot_x info !! (i - 1)%nat.
Proof.
  intros Hk Hl H Hi Hin Hin'.
  apply build_plot_info_Ok in H as (k & l & the_labels & Hk' & Hl' & -> & _).
  rewrite (Hk' _ Hk), (Hl' _ Hl). by apply path_x_discontinuity.
Qed.

(** X19. The labels of the plot: no two neighbours are in the same
    position, and every label sits at an x of the path. *)
Theorem plot_labels_positions self fileformat path cartesian info :
  build_plot_info get_kpoints_cartesian self_labels norm
    self fileformat path cartesian = Ok info →
  no_equal_neighbours (plot_labels info).*1
  ∧ ∀ l, l ∈ plot_labels info → l.1 ∈ plot_x info.
Proof.
  intros H.
  apply build_plot_info_Ok in H as (k & labels & the_labels & _ & _ & _ & Hthe & ->).
  destruct (join_labels_positions fileformat the_labels) as [Hadj Hin].
  split; [done|]. intros l Hl.
  assert (l.1 ∈ (join_labels fileformat the_labels).*1) as Hl1
    by (apply list_elem_of_fmap; eauto).
  apply Hin, list_elem_of_fmap in Hl1 as (l' & -> & Hl').
  by apply (labels_on_path _ _ _ Hthe).
Qed.

(** X20. For a format whose name does not contain [agr], joining the
    labels in overlapping position loses no name and keeps their order:
    the names of the plot, joined by [|], are the names of the labels of
    the node, joined by [|]. *)
Theorem plot_labels_names self fileformat path cartesian info labels :
  contains "agr" fileformat = false →
  self_labels self = Ok (Some labels) →
  build_plot_info get_kpoints_cartesian self_labels norm
    self fileformat path cartesian = Ok info →
  String.concat "|" (plot_labels info).*2 = String.concat "|" labels.*2.
Proof.
  intros Hagr Hl H.
  apply build_plot_info_Ok in H as (k & l & the_labels & _ & Hl' & _ & Hthe & ->).
  rewrite (Hl' _ Hl) in Hthe.
  rewrite join_labels_names by done. by rewrite (proj1 (labels_on_path _ _ _ Hthe)).
Qed.

(** X21. For a format whose name contains [agr], no label of the plot is
    the bare letter [G]. *)
Theorem plot_labels_agr self fileformat path cartesian info l :
  contains "agr" fileformat = true →
  build_plot_info get_kpoints_cartesian self_labels norm
    self fileformat path cartesian = Ok info →
  l ∈ plot_labels info → l.2 ≠ "G".
Proof.
  intros Hagr H.
  apply build_plot_info_Ok in H as (k & labels & the_labels & _ & _ & _ & _ & ->).
  by apply join_labels_agr.
Qed.

(** X22. Without [overwrite], [export] changes no file that is there:
    whether it returns or raises, every file found before holds what it
    held. *)
Theorem export_keeps_files self path fileformat comments cartesian (kwargs : Kwargs)
    (files : gmap string string) f c :
  files !! f = Some c →
  (export get_kpoints_cartesian self_labels norm uuid get_file_header getattr_self
     self path fileformat false comments cartesian kwargs files).2 !! f = Some c.
Proof.
  intros Hf. unfold export.
  case_bool_decide; [done|]. rewrite andb_true_r.
  case_bool_decide as Hpath; [done|].
  assert (f ≠ path) as Hne by (intros ->; apply Hpath; by eexists).
  match goal with |- context [match ?c with Ok _ => _ | Raise _ => _ end] =>
    destruct c as [fmt|e]; [|done] end.
  destruct (_exportstring _ _ _ _ _ _ _ _ _ _ _ _) as [[text|text extras]|e]; [| |done].
  - case_bool_decide; [done|]. simpl. by rewrite lookup_insert_ne.
  - pose proof (write_extra_files_keeps extras files f c Hf) as Hkeep.
    destruct (write_extra_files false extras files) as [[e|] files']; [done|].
    simpl in *. by rewrite lookup_insert_ne.
Qed.

Lemma export_frame_chosen self path fileformat overwrite comments cartesian
    (kwargs : Kwargs) (files : gmap string string) f :
  f ≠ path →
  (∀ fmt text extra_files,
     (∀ given, fileformat = Some given → fmt = given) →
     _exportstring get_kpoints_cartesian self_labels norm uuid get_file_header getattr_self
       self fmt (Some path) comments cartesian kwargs
     = Ok (TextAndFiles text extra_files) → f ∉ extra_files.*1) →
  (export get_kpoints_cartesian self_labels norm uuid get_file_header getattr_self
     self path fileformat overwrite comments cartesian kwargs files).2 !! f
  = files !! f.
Proof.
  intros Hne Hextra. unfold export.
  case_bool_decide; [done|]. destruct (_ && _); [done|].
  match goal with |- context [match ?c with Ok _ => _ | Raise _ => _ end] =>
    destruct c as [fmt|e] eqn:Hfmt; [|done] end.
  destruct (_exportstring _ _ _ _ _ _ _ _ _ _ _ _) as [[text|text extras]|e] eqn:Hexp; [| |done].
  - case_bool_decide; [done|]. simpl. by rewrite lookup_insert_ne.
  - assert (f ∉ extras.*1) as Hf.
    { apply (Hextra fmt text extras); [|done]. intros given ->. by injection Hfmt. }
    pose proof (write_extra_files_frame overwrite extras files f Hf) as Hfr.
    destruct (write_extra_files overwrite extras files) as [[e|] files']; [done|].
    simpl in *. by rewrite lookup_insert_ne.
Qed.

(** X23. [export] touches the file at [path] and the extra files that the
    method preparing the format names, and no other: a file that is
    neither keeps what it held (or stays absent), whether [export]
    returns or raises. *)
Theorem export_frame self path fileformat overwrite comments cartesian (kwargs : Kwargs)
    (files : gmap string string) f :
  f ≠ path →
  (∀ fmt text extra_files,
     _exportstring get_kpoints_cartesian self_labels norm uuid get_file_header getattr_self
       self fmt (Some path) comments cartesian kwargs
     = Ok (TextAndFiles text extra_files) → f ∉ extra_files.*1) →
  (export get_kpoints_cartesian self_labels norm uuid get_file_header getattr_self
     self path fileformat overwrite comments cartesian kwargs files).2 !! f
  = files !! f.
Proof.
  intros Hne Hextra. apply export_frame_chosen; [done|].
  intros fmt text extras _. apply Hextra.
Qed.

(** X24. When [export] returns, the file at [path] holds the text that
    [_exportstring] produced, for the format given by the caller if one
    was given, and every extra file, [path] apart, holds a text that the
    method preparing the format gave under its name. *)
Theorem export_writes self path fileformat overwrite comments cartesian (kwargs : Kwargs)
    (files files' : gmap string string) :
  export get_kpoints_cartesian self_labels norm uuid get_file_header getattr_self
    self path fileformat overwrite comments cartesian kwargs files = (None, files') →
  ∃ fmt out,
    (∀ given, fileformat = Some given → fmt = given)
    ∧ _exportstring get_kpoints_cartesian self_labels norm uuid get_file_header getattr_self
        self fmt (Some path) comments cartesian kwargs = Ok out
    ∧ match out with
      | Text filetext => files' !! path = Some filetext
      | TextAndFiles filetext extra_files =>
          files' !! path = Some filetext
          ∧ ∀ k, k ∈ extra_files.*1 → k ≠ path →
                 ∃ v, (k, v) ∈ extra_files ∧ files' !! k = Some v
      end.
Proof.
  unfold export. case_bool_decide; [done|]. destruct (_ && _); [done|].
  match goal with |- context [match ?c with Ok _ => _ | Raise _ => _ end] =>
    destruct c as [fmt|e] eqn:Hfmt; [|done] end.
  destruct (_exportstring _ _ _ _ _ _ _ _ _ _ _ _) as [[text|text extras]|e] eqn:Hexp; [| |done].
  - case_bool_decide; [done|]. intros [= <-]. exists fmt, (Text text).
    split_and!; [|done|by rewrite lookup_insert_eq].
    intros given ->. by injection Hfmt.
  - destruct (write_extra_files overwrite extras files) as [[e|] files''] eqn:Hw; [done|].
    intros [= <-]. exists fmt, (TextAndFiles text extras).
    split_and!; [|done|by rewrite lookup_insert_eq|].
    + intros given ->. by injection Hfmt.
    + intros k Hk Hkp. destruct (write_extra_files_written _ _ _ _ k Hw Hk) as (v & Hv & Hl).
      exists v. split; [done|]. by rewrite lookup_insert_ne.
Qed.

(** X25. Without a format, [export] takes it from the extension of the
    path: what follows the last dot, with [dat_1] for [dat]. *)
Theorem export_format_from_extension self path extension overwrite comments cartesian
    (kwargs : Kwargs) (files : gmap string string) :
  (splitext path).2 = String "."%char extension →
  extension ≠ EmptyString →
  export get_kpoints_cartesian self_labels norm uuid get_file_header getattr_self
    self path None overwrite comments cartesian kwargs files
  = export get_kpoints_cartesian self_labels norm uuid get_file_header getattr_self
      self path (Some (if bool_decide (extension = "dat") then "dat_1" else extension))
      overwrite comments cartesian kwargs files.
Proof.
  intros Hext Hne. unfold export. rewrite Hext.
  destruct (splitext_extension path) as [Hempty|(rest & Hrest & Hnodot)];
    [by rewrite Hext in Hempty|].
  rewrite Hext in Hrest. injection Hrest as <-.
  rewrite split_extension by done. cbn [Py.getitem].
  replace (Py.getitem [EmptyString; extension] 1) with (Ok extension : result string)
    by reflexivity.
  cbn [mbind result_bind]. rewrite (bool_decide_eq_false_2 _ Hne).
  by destruct (bool_decide (extension = "dat")).
Qed.

(** X26. Without a format and for a path that [export] may write:
    a path without extension leaves with [IndexError], before the test
    that is there to raise [ValueError]; that test only catches a path
    that ends in a dot.  No file is written. *)
Theorem export_without_extension self path overwrite comments cartesian
    (kwargs : Kwargs) (files : gmap string string) :
  path ≠ EmptyString →
  files !! path = None ∨ overwrite = true →
  ((splitext path).2 = EmptyString →
   export get_kpoints_cartesian self_labels norm uuid get_file_header getattr_self
     self path None overwrite comments cartesian kwargs files
   = (Some (PyExn (Runtime IndexError)), files))
  ∧ ((splitext path).2 = "." →
     export get_kpoints_cartesian self_labels norm uuid get_file_header getattr_self
       self path None overwrite comments cartesian kwargs files
     = (Some (PyExn (Raised ValueError
                       "Cannot recognized the fileformat from the extension")), files)).
Proof.
  intros Hpath Hfree.
  assert (bool_decide (is_Some (files !! path)) && negb overwrite = false) as Hgo.
  { destruct Hfree as [Hnone| ->]; [|by rewrite andb_false_r].
    rewrite bool_decide_eq_false_2; [done|]. rewrite Hnone. by intros [? ?]. }
  split; intros Hext; unfold export;
    rewrite (bool_decide_eq_false_2 _ Hpath), Hgo, Hext; reflexivity.
Qed.


End export_properties.

(** X27. An export in the format [dat_1], which [_prepare_dat_1] prepares,
    has no extra files: whatever happens, no file but the one at [path]
    is touched. *)
Theorem export_dat_1_only_path {V}
    (get_kpoints_cartesian : BandsData ndarray → bool → result (list (Qc * Qc * Qc)))
    (self_labels : BandsData ndarray → result (option (list (Z * string))))
    (norm : Qc * Qc * Qc → Qc * Qc * Qc → Qc)
    (uuid : BandsData ndarray → string) (get_file_header : string)
    (getattr_self : string → option (plot_info → list (string * V)
                                     → result (string * option (list (string * string)))))
    self path overwrite comments cartesian kwargs (files : gmap string string) f :
  getattr_self "_prepare_dat_1" = Some _prepare_dat_1 →
  f ≠ path →
  (export get_kpoints_cartesian self_labels norm uuid get_file_header getattr_self
          self path (Some "dat_1") overwrite comments cartesian kwargs files).2 !! f
  = files !! f.
Proof.
  intros Hget Hne. apply export_frame_chosen; [done|].
  intros fmt text extras Hfmt Hexp. rewrite (Hfmt "dat_1" eq_refl) in Hexp.
  exfalso. unfold _exportstring in Hexp.
  apply bind_Ok in Hexp as (info & _ & Hexp).
  change ("_prepare_" +:+ "dat_1") with "_prepare_dat_1" in Hexp.
  rewrite Hget in Hexp. unfold _prepare_dat_1 in Hexp.
  destruct kwargs; simpl in Hexp; discriminate.
Qed.

(** * [find_bandgap] on arrays of type float64

    The routine on floats that may be infinite or NaN agrees with the
    routine on exact numbers wherever all numbers are finite; what was
    shown of the one then holds of the other. *)

Section float64.
Import Float64.

Lemma le_Finite a b : le (Finite a) (Finite b) = bool_decide (a ≤ b)%Qc.
Proof.
  unfold le, lt, eqb.
  destruct (decide (a < b)%Qc) as [Hlt|Hnlt].
  - rewrite (bool_decide_eq_true_2 _ Hlt). simpl. symmetry.
    apply bool_decide_eq_true_2. by apply Qclt_le_weak.
  - rewrite (bool_decide_eq_false_2 _ Hnlt). simpl.
    destruct (decide (a = b)) as [->|Hne].
    + rewrite bool_decide_eq_true_2 by done. symmetry. apply bool_decide_eq_true_2.
      apply Qcle_refl.
    + rewrite (bool_decide_eq_false_2 _ Hne). symmetry. apply bool_decide_eq_false_2.
      intros Hle. apply Qcle_lt_or_eq in Hle as [?|?]; done.
Qed.

Lemma sort_le_Finite a b : sort_le (Finite a) (Finite b) ↔ (a ≤ b)%Qc.
Proof. unfold sort_le. rewrite le_Finite. apply bool_decide_eq_true. Qed.

Lemma sort_le_trans : Transitive sort_le.
Proof.
  intros [a|[]|] [b|[]|] [c|[]|]; try done.
  rewrite !sort_le_Finite. apply Qcle_trans.
Qed.

Lemma sort_le_total : Total sort_le.
Proof.
  intros [a|[]|] [b|[]|]; try (by left); try (by right).
  rewrite !sort_le_Finite. apply Qc_le_total.
Qed.

Lemma sort_le_antisymm : AntiSymm (=) sort_le.
Proof.
  intros [a|[]|] [b|[]|]; try done.
  rewrite !sort_le_Finite. intros ? ?. f_equal. by apply Qcle_antisym.
Qed.

Lemma merge_sort_Finite (l : list Qc) :
  merge_sort sort_le (Finite <$> l) = Finite <$> merge_sort Qcle l.
Proof.
  pose proof sort_le_trans. pose proof sort_le_total. pose proof sort_le_antisymm.
  apply (StronglySorted_unique sort_le).
  - apply (StronglySorted_merge_sort sort_le).
  - apply (StronglySorted_fmap _ Qcle sort_le).
    + intros x y. by rewrite sort_le_Finite.
    + apply (StronglySorted_merge_sort Qcle).
  - by rewrite !merge_sort_Permutation.
Qed.

Lemma sort_finite rows : Float64.sort (finite_rows rows) = finite_rows (Numpy.sort rows).
Proof.
  unfold Float64.sort, Numpy.sort, finite_rows. rewrite <-!list_fmap_compose.
  apply list_fmap_ext. intros _ row _. simpl. apply merge_sort_Finite.
Qed.

Lemma foldl_fmap_commute {A B} (f : A → B) (g : A → A → A) (h : B → B → B) x l :
  (∀ a b, h (f a) (f b) = f (g a b)) →
  foldl h (f x) (f <$> l) = f (foldl g x l).
Proof.
  intros Hc. revert x. induction l as [|y l IH]; intros x; simpl; [done|].
  by rewrite Hc, IH.
Qed.

Lemma sum_Finite l : Float64.sum (Finite <$> l) = Finite (Py.sum l).
Proof. unfold Float64.sum, Py.sum. by apply (foldl_fmap_commute Finite). Qed.

Lemma min_Finite l : Float64.min (Finite <$> l) = Finite <$> Py.min l.
Proof.
  destruct l as [|x l]; [done|]. simpl. f_equal.
  apply (foldl_fmap_commute Finite). intros a b. simpl. by case_bool_decide.
Qed.

Lemma max_Finite l : Float64.max (Finite <$> l) = Finite <$> Py.max l.
Proof.
  destruct l as [|x l]; [done|]. simpl. f_equal.
  apply (foldl_fmap_commute Finite). intros a b. simpl. by case_bool_decide.
Qed.

Lemma concat_finite rows : concat (finite_rows rows) = Finite <$> concat rows.
Proof.
  unfold finite_rows. induction rows as [|r rows IH]; [done|].
  csimpl. by rewrite IH, fmap_app.
Qed.

Lemma amax_finite rows : Float64.amax (finite_rows rows) = Finite <$> Numpy.amax rows.
Proof.
  unfold Float64.amax, Numpy.amax. rewrite concat_finite.
  destruct (concat rows) as [|x l]; [done|]. simpl. f_equal.
  apply (foldl_fmap_commute Finite). intros a b. simpl. by case_bool_decide.
Qed.

Lemma amin_finite rows : Float64.amin (finite_rows rows) = Finite <$> Numpy.amin rows.
Proof.
  unfold Float64.amin, Numpy.amin. rewrite concat_finite.
  destruct (concat rows) as [|x l]; [done|]. simpl. f_equal.
  apply (foldl_fmap_commute Finite). intros a b. simpl. by case_bool_decide.
Qed.

Lemma zip_with_cons_finite (r : list Qc) (t : list (list Qc)) :
  zip_with cons (Finite <$> r) (finite_rows t) = finite_rows (zip_with cons r t).
Proof.
  unfold finite_rows. revert t. induction r as [|x r IH]; intros [|y t]; simpl; [done..|].
  by rewrite IH.
Qed.

Lemma transpose_finite rows :
  Float64.transpose (finite_rows rows) = finite_rows (Numpy.transpose rows).
Proof.
  induction rows as [|r rows IH]; [done|].
  destruct rows as [|r' rows].
  - simpl. unfold finite_rows. rewrite <-!list_fmap_compose. done.
  - change (Float64.transpose (finite_rows (r :: r' :: rows)))
      with (zip_with cons (Finite <$> r) (Float64.transpose (finite_rows (r' :: rows)))).
    rewrite IH. apply zip_with_cons_finite.
Qed.

Lemma zip_with_app_finite (s t : list (list Qc)) :
  zip_with app (finite_rows s) (finite_rows t) = finite_rows (zip_with app s t).
Proof.
  unfold finite_rows. revert t. induction s as [|x s IH]; intros [|y t]; simpl; [done..|].
  by rewrite IH, fmap_app.
Qed.

Lemma concatenate_axis1_finite spins :
  Float64.concatenate_axis1 (finite_rows <$> spins)
  = finite_rows <$> Numpy.concatenate_axis1 spins.
Proof.
  destruct spins as [|s ss]; [done|]. simpl. f_equal.
  apply (foldl_fmap_commute finite_rows). apply zip_with_app_finite.
Qed.

Lemma join_spins_finite a :
  Float64.join_spins (finite_array a) = finite_rows <$> Bands.join_spins a.
Proof. destruct a; [done|]. apply concatenate_axis1_finite. Qed.

Lemma ndim_finite a : Float64.ndim (finite_array a) = Numpy.ndim a.
Proof. by destruct a. Qed.

Lemma getitem_fmap {A B} (f : A → B) (l : list A) i :
  Py.getitem (f <$> l) i = f <$> Py.getitem l i.
Proof.
  unfold Py.getitem. rewrite length_fmap. case_bool_decide; [done|].
  rewrite list_lookup_fmap. by destruct (l !! _).
Qed.

Lemma mapM_fmap_commute {A A' B B'} (h : A → A') (g : A' → result B') (f : A → result B)
    (f' : B → B') l :
  (∀ x, g (h x) = f' <$> f x) →
  mapM g (h <$> l) = fmap f' <$> mapM f l.
Proof.
  intros Hc. induction l as [|x l IH]; [done|].
  rewrite fmap_cons. unfold mapM in *. simpl. rewrite Hc.
  destruct (f x) as [y|e]; simpl; [|done].
  rewrite IH. by destruct (_ l).
Qed.

Lemma try_except_fmap {A B} (f : A → B) (m : result A) c e :
  try_except (f <$> m) c e = f <$> try_except m c e.
Proof. destruct m; simpl; [done|]. by case_decide. Qed.

Lemma get_bands_finite (bandsdata : BandsData Numpy.ndarray) o l :
  get_bands (finite_node bandsdata) o l = finite_returned <$> get_bands bandsdata o l.
Proof.
  unfold get_bands, get_array, array_labels, get_attr_default. simpl.
  rewrite !lookup_fmap.
  destruct (arrays bandsdata !! "bands") as [b|]; simpl; [|done].
  destruct o; simpl.
  - destruct (arrays bandsdata !! "occupations") as [occ|]; simpl; [|done].
    by destruct l.
  - by destruct l.
Qed.

Lemma mapM_getitem_finite rows k :
  mapM (λ i : list float64, Py.getitem i k) (finite_rows rows)
  = fmap Finite <$> mapM (λ i : list Qc, Py.getitem i k) rows.
Proof.
  unfold finite_rows. apply mapM_fmap_commute. intros x. apply getitem_fmap.
Qed.

Lemma from_number_electrons_finite stored rows n :
  Float64.from_number_electrons (finite_array stored) (finite_rows rows) (Finite n)
  = finite_analysis <$> Bands.from_number_electrons stored rows n.
Proof.
  unfold Float64.from_number_electrons, Bands.from_number_electrons.
  rewrite sort_finite, ndim_finite. simpl.
  rewrite !mapM_getitem_finite.
  destruct (mapM (λ i : list Qc, Py.getitem i (_ - 1)) _) as [homo|e]; [|reflexivity].
  destruct (mapM _ (Numpy.sort rows)) as [lumo|e]; [reflexivity|].
  simpl. by case_decide.
Qed.

Lemma existsb_fmap {A B} (f : A → B) (p : B → bool) l :
  existsb p (f <$> l) = existsb (λ x, p (f x)) l.
Proof. induction l as [|x l IH]; [done|]. csimpl. by rewrite IH. Qed.

Lemma filter_below_Finite f (l : list Qc) :
  filter (λ m, lt m (Finite f) = true) (Finite <$> l) = Finite <$> filter (λ m, m < f)%Qc l.
Proof.
  induction l as [|x l IH]; [done|]. rewrite fmap_cons, !filter_cons, IH. simpl.
  destruct (decide (x < f)%Qc) as [Hlt|Hlt].
  - by rewrite !decide_True by (by rewrite ?bool_decide_eq_true).
  - by rewrite !decide_False by (by rewrite ?bool_decide_eq_true).
Qed.

Lemma filter_above_Finite f (l : list Qc) :
  filter (λ m, lt (Finite f) m = true) (Finite <$> l) = Finite <$> filter (λ m, f < m)%Qc l.
Proof.
  induction l as [|x l IH]; [done|]. rewrite fmap_cons, !filter_cons, IH. simpl.
  destruct (decide (f < x)%Qc) as [Hlt|Hlt].
  - by rewrite !decide_True by (by rewrite ?bool_decide_eq_true).
  - by rewrite !decide_False by (by rewrite ?bool_decide_eq_true).
Qed.

Lemma max_mins_finite levels :
  mapM (λ i : list float64, mx ← Float64.max i; mn ← Float64.min i; Ok (mx, mn))
       (finite_rows levels)
  = fmap (prod_map Finite Finite)
      <$> mapM (λ i : list Qc, mx ← Py.max i; mn ← Py.min i; Ok (mx, mn)) levels.
Proof.
  unfold finite_rows. apply mapM_fmap_commute. intros x.
  rewrite max_Finite, min_Finite. by destruct (Py.max x), (Py.min x).
Qed.

Lemma existsb_crossed_finite f (max_mins : list (Qc * Qc)) :
  existsb (λ i : float64 * float64, lt i.2 (Finite f) && lt (Finite f) i.1)
          (prod_map Finite Finite <$> max_mins)
  = existsb (λ i : Qc * Qc, bool_decide (i.2 < f)%Qc && bool_decide (f < i.1)%Qc) max_mins.
Proof. by rewrite existsb_fmap. Qed.

Lemma existsb_max_finite f (max_mins : list (Qc * Qc)) :
  existsb (λ i : float64 * float64, eqb i.1 (Finite f)) (prod_map Finite Finite <$> max_mins)
  = existsb (λ i : Qc * Qc, bool_decide (i.1 = f)) max_mins.
Proof. by rewrite existsb_fmap. Qed.

Lemma existsb_min_finite f (max_mins : list (Qc * Qc)) :
  existsb (λ i : float64 * float64, eqb i.2 (Finite f)) (prod_map Finite Finite <$> max_mins)
  = existsb (λ i : Qc * Qc, bool_decide (i.2 = f)) max_mins.
Proof. by rewrite existsb_fmap. Qed.

Lemma fst_finite (l : list (Qc * Qc)) :
  (prod_map Finite Finite <$> l).*1 = Finite <$> l.*1.
Proof. rewrite <-!list_fmap_compose. by apply list_fmap_ext. Qed.

Lemma snd_finite (l : list (Qc * Qc)) :
  (prod_map Finite Finite <$> l).*2 = Finite <$> l.*2.
Proof. rewrite <-!list_fmap_compose. by apply list_fmap_ext. Qed.

Lemma from_fermi_energy_finite rows f :
  Float64.from_fermi_energy (finite_rows rows) (Finite f)
  = finite_result (Bands.from_fermi_energy rows f).
Proof.
  unfold Float64.from_fermi_energy, Bands.from_fermi_energy.
  rewrite sort_finite, transpose_finite, max_mins_finite, amax_finite, amin_finite.
  destruct (mapM _ (Numpy.transpose _)) as [max_mins|e]; [|reflexivity].
  destruct (Numpy.amax _) as [top|e]; [|reflexivity].
  cbn [fmap result_fmap mbind result_bind].
  change (lt (Finite top) (Finite f)) with (bool_decide (top < f)%Qc).
  destruct (bool_decide (top < f)%Qc); [reflexivity|].
  destruct (Numpy.amin _) as [bottom|e]; [|reflexivity].
  cbn [fmap result_fmap mbind result_bind].
  change (lt (Finite f) (Finite bottom)) with (bool_decide (f < bottom)%Qc).
  destruct (bool_decide (f < bottom)%Qc); [reflexivity|].
  rewrite existsb_crossed_finite, existsb_max_finite, existsb_min_finite.
  destruct (existsb _ max_mins); [reflexivity|].
  destruct (existsb _ max_mins && existsb _ max_mins); [reflexivity|].
  rewrite fst_finite, snd_finite, filter_below_Finite, filter_above_Finite.
  rewrite max_Finite, min_Finite.
  destruct (Py.max _) as [homo|e]; [|reflexivity].
  destruct (Py.min _) as [lumo|e]; [|reflexivity].
  cbn [fmap result_fmap mbind result_bind].
  change (sub (Finite lumo) (Finite homo)) with (Finite (lumo - homo)%Qc).
  unfold zero. rewrite le_Finite.
  by destruct (bool_decide _).
Qed.

Lemma zip_fmap {A A' B B'} (f : A → A') (g : B → B') (a : list A) (b : list B) :
  zip (f <$> a) (g <$> b) = prod_map f g <$> zip a b.
Proof.
  revert b. induction a as [|x a IH]; intros [|y b]; csimpl; [done..|]. by rewrite IH.
Qed.

Lemma zip_fmap_l' {A A' B} (f : A → A') (a : list A) (b : list B) :
  zip (f <$> a) b = prod_map f id <$> zip a b.
Proof.
  revert b. induction a as [|x a IH]; intros [|y b]; csimpl; [done..|]. by rewrite IH.
Qed.

Lemma insert_by_key_finite p (l : list (Qc * Qc)) :
  Float64.insert_by_key (prod_map Finite Finite p) (prod_map Finite Finite <$> l)
  = prod_map Finite Finite <$> Py.insert_by_key p l.
Proof.
  induction l as [|q l IH]; [done|]. csimpl. rewrite le_Finite.
  destruct (bool_decide (p.1 ≤ q.1)%Qc); [done|]. csimpl. by rewrite IH.
Qed.

Lemma sorted_by_key_finite (l : list (Qc * Qc)) :
  Float64.sorted_by_key (prod_map Finite Finite <$> l)
  = prod_map Finite Finite <$> Py.sorted_by_key l.
Proof.
  unfold Float64.sorted_by_key, Py.sorted_by_key.
  induction l as [|p l IH]; [done|]. csimpl. by rewrite IH, insert_by_key_finite.
Qed.

Lemma sorted_finite sorted (a b : list Qc) :
  sorts_numbers sorted →
  sorted (zip (Finite <$> a) (Finite <$> b))
  = prod_map Finite Finite <$> Py.sorted_by_key (zip a b).
Proof.
  intros Hsorted. rewrite zip_fmap, Hsorted; [apply sorted_by_key_finite|].
  apply Forall_fmap, Forall_true. done.
Qed.

Lemma nint_Finite a : Float64.nint (Finite a) = Ok (Bands.nint a).
Proof.
  unfold Float64.nint, Bands.nint, zero.
  change (lt (Finite (Q2Qc 0)) (Finite a)) with (bool_decide (Q2Qc 0 < a)%Qc).
  by destruct (bool_decide _).
Qed.

Lemma mapM_nint_Finite (x : list Qc) :
  mapM Float64.nint (Finite <$> x) = Ok (Bands.nint <$> x).
Proof.
  induction x as [|a x IH]; [done|]. rewrite fmap_cons. unfold mapM in *. simpl.
  rewrite nint_Finite. simpl. by rewrite IH.
Qed.

Lemma mapM_fmap_same {A A' B} (h : A → A') (g : A' → result B) (f : A → result B) l :
  (∀ x, g (h x) = f x) → mapM g (h <$> l) = mapM f l.
Proof.
  intros Hc. induction l as [|x l IH]; [done|].
  rewrite fmap_cons. unfold mapM in *. simpl. by rewrite Hc, IH.
Qed.

Lemma mapM_getitem_zip_finite (rows : list (list Qc)) (idx : list nat) (g : nat → Z) :
  mapM (λ p : list float64 * nat, Py.getitem p.1 (g p.2)) (zip (finite_rows rows) idx)
  = fmap Finite <$> mapM (λ p : list Qc * nat, Py.getitem p.1 (g p.2)) (zip rows idx).
Proof.
  unfold finite_rows. rewrite zip_fmap_l'. apply mapM_fmap_commute.
  intros [r i]. apply getitem_fmap.
Qed.

Lemma from_occupations_finite sorted (bandsdata : BandsData Numpy.ndarray) rows :
  sorts_numbers sorted →
  Float64.from_occupations sorted (finite_node bandsdata) (finite_rows rows)
  = finite_analysis <$> Bands.from_occupations bandsdata rows.
Proof.
  intros Hsorted. unfold Float64.from_occupations, Bands.from_occupations.
  rewrite get_bands_finite, try_except_fmap.
  destruct (try_except _ _ _) as [got|e]; [|reflexivity].
  cbn [fmap result_fmap mbind result_bind].
  assert (∀ (k : ndarray → result analysis) (k' : Numpy.ndarray → result Bands.analysis),
            (∀ occ, k (finite_array occ) = finite_analysis <$> k' occ) →
            (match finite_returned got with
             | Several [_; IArray occ] => Ok occ
             | _ => Raise (Runtime ValueError)
             end ≫= k)
            = finite_analysis <$>
              (match got with
               | Several [_; IArray occ] => Ok occ
               | _ => Raise (Runtime ValueError)
               end ≫= k')) as Hgot.
  { intros k k' Hk. destruct got as [b|[|i1 [|[occ|lab] [|i3 l]]]]; try reflexivity.
    apply Hk. }
  apply Hgot. clear got Hgot. intros stored_occupations.
  rewrite join_spins_finite.
  destruct (Bands.join_spins stored_occupations) as [occupations|e]; [|reflexivity].
  cbn [fmap result_fmap mbind result_bind].
  set (sorted_pairs := (λ i : list Qc * list Qc, Py.sorted_by_key (zip i.1 i.2))
                         <$> zip rows occupations).
  assert ((λ i : list float64 * list float64, sorted (zip i.1 i.2))
            <$> zip (finite_rows rows) (finite_rows occupations)
          = fmap (M:=list) (prod_map Finite Finite) <$> sorted_pairs) as ->.
  { unfold finite_rows, sorted_pairs. rewrite zip_fmap, <-!list_fmap_compose.
    apply list_fmap_ext. intros _ [r o] _. simpl. by apply sorted_finite. }
  assert (bool_decide (fmap (M:=list) (prod_map Finite Finite) <$> sorted_pairs = [])
          = bool_decide (sorted_pairs = [])) as ->.
  { apply bool_decide_ext. split; [apply fmap_nil_inv|by intros ->]. }
  assert (existsb (λ j : list (float64 * float64), bool_decide (j = []))
                  (fmap (M:=list) (prod_map Finite Finite) <$> sorted_pairs)
          = existsb (λ j : list (Qc * Qc), bool_decide (j = [])) sorted_pairs) as ->.
  { rewrite existsb_fmap. induction sorted_pairs as [|j l IH]; [done|]. simpl.
    rewrite IH. f_equal. apply bool_decide_ext.
    split; [apply fmap_nil_inv|by intros ->]. }
  destruct (bool_decide (sorted_pairs = []) || existsb _ sorted_pairs); [reflexivity|].
  assert (fmap (M:=list) (fst : float64 * float64 → float64) <$> (fmap (M:=list) (prod_map Finite Finite) <$> sorted_pairs)
          = finite_rows (fmap (M:=list) (fst : Qc * Qc → Qc) <$> sorted_pairs)) as ->.
  { unfold finite_rows. rewrite <-!list_fmap_compose. apply list_fmap_ext.
    intros _ j _. simpl. apply fst_finite. }
  assert (fmap (M:=list) (snd : float64 * float64 → float64) <$> (fmap (M:=list) (prod_map Finite Finite) <$> sorted_pairs)
          = finite_rows (fmap (M:=list) (snd : Qc * Qc → Qc) <$> sorted_pairs)) as ->.
  { unfold finite_rows. rewrite <-!list_fmap_compose. apply list_fmap_ext.
    intros _ j _. simpl. apply snd_finite. }
  assert (Float64.sum <$> finite_rows (fmap (M:=list) (snd : Qc * Qc → Qc) <$> sorted_pairs)
          = Finite <$> (Py.sum <$> (fmap (M:=list) (snd : Qc * Qc → Qc) <$> sorted_pairs))) as ->.
  { unfold finite_rows. rewrite <-!list_fmap_compose. apply list_fmap_ext.
    intros _ j _. simpl. apply sum_Finite. }
  rewrite sum_Finite.
  assert (length (finite_rows rows) = length rows) as ->
    by (unfold finite_rows; apply length_fmap).
  cbn [div round int mbind result_bind].
  assert (mapM (λ x : list float64,
                  rounded ← mapM Float64.nint x;
                  match list.last (where_positive rounded) with
                  | Some i => Ok i
                  | None => Raise (Runtime IndexError)
                  end) (finite_rows (fmap (M:=list) (snd : Qc * Qc → Qc) <$> sorted_pairs))
          = mapM (λ x : list Qc,
                    match list.last (where_positive (Bands.nint <$> x)) with
                    | Some i => Ok i
                    | None => Raise (Runtime IndexError)
                    end) (fmap (M:=list) (snd : Qc * Qc → Qc) <$> sorted_pairs)) as ->.
  { unfold finite_rows. apply mapM_fmap_same. intros x. by rewrite mapM_nint_Finite. }
  destruct (mapM _ (fmap (M:=list) (snd : Qc * Qc → Qc) <$> sorted_pairs)) as [homo_indexes|e]; [|reflexivity].
  cbn [mbind result_bind].
  destruct (bool_decide (1 < Py.len_set homo_indexes)%nat); [reflexivity|].
  rewrite (mapM_getitem_zip_finite _ _ Z.of_nat).
  rewrite (mapM_getitem_zip_finite _ _ (λ n, Z.of_nat n + 1)).
  destruct (mapM (λ p : list Qc * nat, Py.getitem p.1 (Z.of_nat p.2)) _) as [homo|e];
    [|reflexivity].
  destruct (mapM _ (zip (fmap (M:=list) (fst : Qc * Qc → Qc) <$> sorted_pairs) homo_indexes)) as [lumo|e];
    [reflexivity|].
  simpl. by case_decide.
Qed.

Lemma truthy_Finite x : Float64.truthy (Finite <$> x) = Bands.truthy x.
Proof.
  destruct x as [v|]; [|done]. simpl. unfold zero.
  change (eqb (Finite v) (Finite (Q2Qc 0))) with (bool_decide (v = Q2Qc 0)).
  by rewrite bool_decide_not.
Qed.

(** On arrays of finite numbers, and for arguments that are finite, the
    routine on arrays of type float64 does what the routine on exact
    numbers does. *)
Lemma find_bandgap_finite sorted (bandsdata : BandsData Numpy.ndarray)
    number_electrons fermi_energy :
  (number_electrons = None → fermi_energy = None → sorts_numbers sorted) →
  Float64.find_bandgap sorted (finite_node bandsdata)
    (Finite <$> number_electrons) (Finite <$> fermi_energy)
  = finite_result (Bands.find_bandgap bandsdata number_electrons fermi_energy).
Proof.
  intros Hsorted. unfold Float64.find_bandgap, Bands.find_bandgap.
  rewrite !truthy_Finite.
  destruct (Bands.truthy fermi_energy && Bands.truthy number_electrons); [reflexivity|].
  rewrite get_bands_finite, try_except_fmap.
  destruct (try_except _ _ _) as [got|e]; [|reflexivity].
  destruct got as [stored_bands|l]; [|reflexivity].
  cbn [fmap result_fmap mbind result_bind finite_returned].
  rewrite join_spins_finite.
  destruct (Bands.join_spins stored_bands) as [bands|e]; [|reflexivity].
  cbn [fmap result_fmap mbind result_bind].
  destruct fermi_energy as [f|]; [apply from_fermi_energy_finite|].
  cbn [fmap option_fmap option_map].
  assert (Float64.occupied_levels sorted (finite_node bandsdata) (finite_array stored_bands)
            (finite_rows bands) (Finite <$> number_electrons)
          = finite_analysis <$>
              Bands.occupied_levels bandsdata stored_bands bands number_electrons) as ->.
  { destruct number_electrons as [n|]; simpl.
    - apply from_number_electrons_finite.
    - apply from_occupations_finite. by apply Hsorted. }
  destruct (Bands.occupied_levels _ _ _ _) as [[[b g]|n homo lumo]|e]; try reflexivity.
  cbn [fmap result_fmap mbind result_bind finite_analysis].
  rewrite ndim_finite.
  destruct (_ && _); [reflexivity|].
  rewrite min_Finite, max_Finite.
  destruct (Py.min lumo) as [lowest|e]; [|reflexivity].
  destruct (Py.max homo) as [highest|e]; [|reflexivity].
  cbn [fmap result_fmap mbind result_bind].
  change (sub (Finite lowest) (Finite highest)) with (Finite (lowest - highest)%Qc).
  unfold zero.
  change (eqb (Finite (lowest - highest)%Qc) (Finite (Q2Qc 0)))
    with (bool_decide ((lowest - highest)%Qc = Q2Qc 0)).
  change (lt (Finite (lowest - highest)%Qc) (Finite (Q2Qc 0)))
    with (bool_decide (lowest - highest < Q2Qc 0)%Qc).
  destruct (bool_decide (_ = _)); [reflexivity|].
  by destruct (bool_decide _).
Qed.

(** ** Nodes that hold finite numbers only *)

Lemma finite_exact x : is_finite x = true → Finite (exact x) = x.
Proof. by destruct x. Qed.

Lemma finite_exact_row (row : list float64) :
  Forall (λ x, is_finite x = true) row → Finite <$> (exact <$> row) = row.
Proof.
  induction 1 as [|x row Hx _ IH]; [done|]. csimpl. by rewrite IH, finite_exact.
Qed.

Lemma finite_exact_rows (rows : list (list float64)) :
  Forall (λ x, is_finite x = true) (concat rows) → finite_rows (exact_rows rows) = rows.
Proof.
  unfold finite_rows, exact_rows. induction rows as [|r rows IH]; [done|].
  csimpl. intros [Hr Hrows]%Forall_app. by rewrite IH, finite_exact_row.
Qed.

Lemma finite_exact_array a :
  Forall (λ x, is_finite x = true) (elements a) → finite_array (exact_array a) = a.
Proof.
  destruct a as [rows|spins]; simpl; intros H.
  - by rewrite finite_exact_rows.
  - f_equal. induction spins as [|s spins IH]; [done|].
    csimpl in *. rewrite concat_app in H. apply Forall_app in H as [Hs Hspins].
    by rewrite IH, finite_exact_rows.
Qed.

Lemma finite_exact_node (bandsdata : BandsData ndarray) :
  stores_finite_numbers bandsdata → finite_node (exact_node bandsdata) = bandsdata.
Proof.
  intros H. destruct bandsdata as [k arr att]. unfold finite_node, exact_node. simpl.
  f_equal. apply map_eq. intros name. rewrite !lookup_fmap.
  destruct (arr !! name) as [a|] eqn:Ha; [|done]. simpl. f_equal.
  apply finite_exact_array. by apply (H name).
Qed.

Lemma finite_exact_argument x : finite_argument x → Finite <$> (exact <$> x) = x.
Proof.
  intros H. destruct x as [v|]; [|done]. simpl. f_equal. by apply finite_exact, H.
Qed.

Lemma elements_finite_array a :
  elements (finite_array a) = Finite <$> ndarray_flatten a.
Proof.
  destruct a as [rows|spins]; simpl; [apply concat_finite|].
  induction spins as [|s spins IH]; [done|].
  csimpl. by rewrite !concat_app, !fmap_app, IH, concat_finite.
Qed.

(** The node that [finite_node] makes holds finite numbers only. *)
Lemma finite_node_stores_finite_numbers (bandsdata : BandsData Numpy.ndarray) :
  stores_finite_numbers (finite_node bandsdata).
Proof.
  intros name a. simpl. rewrite lookup_fmap.
  destruct (arrays bandsdata !! name) as [a0|]; [|done]. intros [= <-].
  rewrite elements_finite_array. apply Forall_fmap, Forall_true. done.
Qed.

Lemma finite_result_Ok r is_insulator gap :
  finite_result r = Ok (is_insulator, gap) →
  ∃ g, r = Ok (is_insulator, g) ∧ gap = Finite <$> g.
Proof. destruct r as [[b g]|e]; simpl; [intros [= <- <-]; eauto|done]. Qed.


Lemma foldl_chooses {A} (step : A → A → A) (Hstep : ∀ m y, step m y = m ∨ step m y = y) l x :
  foldl step x l ∈ x :: l.
Proof.
  revert x. induction l as [|y l IH]; intros x; simpl; [left|].
  destruct (Hstep x y) as [->| ->].
  - specialize (IH x). rewrite !elem_of_cons in *. tauto.
  - right. apply IH.
Qed.

Lemma float_max_elem l m : Float64.max l = Ok m → m ∈ l.
Proof.
  destruct l as [|x l]; [done|]. intros [= <-].
  apply foldl_chooses. intros ? ?. destruct (lt _ _); auto.
Qed.

Lemma float_min_elem l m : Float64.min l = Ok m → m ∈ l.
Proof.
  destruct l as [|x l]; [done|]. intros [= <-].
  apply foldl_chooses. intros ? ?. destruct (lt _ _); auto.
Qed.

(** Two floats with a third strictly between them differ by more than
    zero, infinities included. *)
Lemma bracket_gap_positive homo f lumo :
  lt homo f = true → lt f lumo = true → lt zero (sub lumo homo) = true.
Proof.
  destruct homo as [a|[]|], f as [c|[]|], lumo as [b|[]|]; simpl; try done.
  rewrite !bool_decide_eq_true. intros Hac Hcb.
  apply (proj1 (Qclt_minus_iff a b)). by apply (Qclt_trans _ c).
Qed.

Lemma from_fermi_energy_float_classified rows f is_insulator gap :
  Float64.from_fermi_energy rows f = Ok (is_insulator, gap) →
  (is_insulator = true → ∃ g, gap = Some g ∧ lt zero g = true)
  ∧ (is_insulator = false → gap = None ∨ gap = Some zero).
Proof.
  unfold Float64.from_fermi_energy. intros H.
  inv_result H; injection H as <- <-; (split; [|by auto]); try done.
  intros _. eexists. split; [done|].
  match goal with
  | Hh : Float64.max _ = Ok ?h, Hl : Float64.min _ = Ok ?l |- _ =>
      apply float_max_elem, list_elem_of_filter in Hh as [Hh _];
      apply float_min_elem, list_elem_of_filter in Hl as [Hl _];
      by apply (bracket_gap_positive h f l)
  end.
Qed.

(** A number of electrons that is not finite stops the routine. *)
Lemma number_electrons_not_finite sorted bandsdata n r :
  is_finite n = false →
  Float64.find_bandgap sorted bandsdata (Some n) None ≠ Ok r.
Proof.
  intros Hn. unfold Float64.find_bandgap. simpl.
  destruct (try_except _ _ _) as [[b|l]|e]; simpl; [|done..].
  destruct (Float64.join_spins b) as [rows|e]; simpl; [|done].
  unfold Float64.from_number_electrons. by destruct n.
Qed.

(** C1, amended.  On a node whose arrays hold finite numbers only,
    whenever [find_bandgap] returns, it returns a pair
    [(is_insulator, gap)]: for an insulator the gap is a number strictly
    above zero; otherwise the gap is [None] (a metal) or exactly zero (a
    semi-metal).  The arguments may be any floats. *)
Theorem find_bandgap_finite_classified sorted bandsdata number_electrons fermi_energy
    is_insulator gap :
  sorts_numbers sorted →
  stores_finite_numbers bandsdata →
  Float64.find_bandgap sorted bandsdata number_electrons fermi_energy
  = Ok (is_insulator, gap) →
  (is_insulator = true → ∃ g, gap = Some g ∧ lt zero g = true)
  ∧ (is_insulator = false → gap = None ∨ gap = Some zero).
Proof.
  intros Hsorted Hfinite H.
  destruct fermi_energy as [f|].
  - unfold Float64.find_bandgap in H.
    destruct (_ && _); [discriminate|].
    apply bind_Ok in H as (got & _ & H).
    apply bind_Ok in H as (stored & _ & H).
    apply bind_Ok in H as (rows & _ & H).
    by eapply from_fermi_energy_float_classified.
  - assert (finite_argument number_electrons) as Hn.
    { intros n ->. destruct (is_finite n) eqn:Hfin; [done|].
      by apply (number_electrons_not_finite sorted bandsdata n _ Hfin) in H. }
    rewrite <-(finite_exact_node _ Hfinite), <-(finite_exact_argument _ Hn) in H.
    change (@None float64) with (Finite <$> @None Qc) in H.
    rewrite find_bandgap_finite in H by done.
    apply finite_result_Ok in H as (g & H & ->).
    apply find_bandgap_classified in H as [Hins Hnot]. split.
    + intros Htrue. destruct (Hins Htrue) as (g0 & -> & Hpos).
      exists (Finite g0). split; [done|]. by apply bool_decide_eq_true.
    + intros Hfalse. destruct (Hnot Hfalse) as [->| ->]; [by left|by right].
Qed.

(** C1, as the claim has it, fails: with an energy that is NaN the
    routine returns an insulator whose gap is NaN, which is not above
    zero. *)
Theorem nan_energy_gives_nan_gap :
  Float64.find_bandgap Float64.sorted_by_key node_with_nan
    (Some (Finite (Qc_of_Z 2))) None = Ok (true, Some NaN)
  ∧ lt zero NaN = false.
Proof. split; [vm_compute|]; reflexivity. Qed.


(** X2. On a node whose arrays, of type float64, hold finite numbers only,
    and for arguments that are [None] or finite: when [find_bandgap]
    returns an insulator, the gap is the difference [lumo - homo] of two
    energies stored in the bands with [homo < lumo]; when a Fermi energy
    was given it lies strictly between the two. *)
Theorem insulator_gap_of_stored_energies_float64 sorted bandsdata a
    number_electrons fermi_energy gap :
  sorts_numbers sorted →
  stores_finite_numbers bandsdata →
  finite_argument number_electrons →
  finite_argument fermi_energy →
  arrays bandsdata !! "bands" = Some a →
  Float64.find_bandgap sorted bandsdata number_electrons fermi_energy
  = Ok (true, Some gap) →
  ∃ homo lumo,
    homo ∈ elements a ∧ lumo ∈ elements a
    ∧ gap = sub lumo homo ∧ lt homo lumo = true
    ∧ ∀ f, fermi_energy = Some f → lt homo f = true ∧ lt f lumo = true.
Proof.
  intros Hsorted Hfinite Hn Hf Hstored H.
  rewrite <-(finite_exact_node _ Hfinite), <-(finite_exact_argument _ Hn),
    <-(finite_exact_argument _ Hf) in H.
  rewrite find_bandgap_finite in H by done.
  apply finite_result_Ok in H as ([g|] & H & [= ->]).
  assert (arrays (exact_node bandsdata) !! "bands" = Some (exact_array a)) as Hstored'
    by (simpl; by rewrite lookup_fmap, Hstored).
  destruct (insulator_gap_of_stored_energies _ _ _ _ _ Hstored' H)
    as (homo & lumo & Hhomo & Hlumo & -> & Hlt & Hfermi).
  assert (elements a = Finite <$> ndarray_flatten (exact_array a)) as ->.
  { rewrite <-elements_finite_array, finite_exact_array; [done|]. by eapply Hfinite. }
  exists (Finite homo), (Finite lumo). split_and!.
  - by apply list_elem_of_fmap_2.
  - by apply list_elem_of_fmap_2.
  - done.
  - by apply bool_decide_eq_true.
  - intros f ->. specialize (Hf f eq_refl). destruct f as [q| |]; try done.
    destruct (Hfermi q eq_refl) as [? ?]. by split; apply bool_decide_eq_true.
Qed.

(** X5. On a node whose arrays, of type float64, hold finite numbers only:
    with a number of electrons whose integer part is zero, the index of
    the highest occupied band is -1, which Python reads as the last band,
    and whatever [find_bandgap] returns then, it is not an insulator. *)
Theorem no_electrons_never_insulator_float64 sorted bandsdata number_electrons
    is_insulator gap :
  stores_finite_numbers bandsdata →
  Float64.int number_electrons = Ok 0 →
  Float64.find_bandgap sorted bandsdata (Some number_electrons) None
  = Ok (is_insulator, gap) →
  is_insulator = false.
Proof.
  intros Hfinite Hzero H.
  destruct number_electrons as [n| |]; try done. injection Hzero as Hzero.
  rewrite <-(finite_exact_node _ Hfinite) in H.
  change (Some (Finite n)) with (Finite <$> Some n) in H.
  change (@None float64) with (Finite <$> @None Qc) in H.
  rewrite find_bandgap_finite in H by done.
  apply finite_result_Ok in H as (g & H & _).
  by eapply no_electrons_never_insulator.
Qed.

End float64.

(** ** The further properties at sample inputs *)

Lemma fermi_metal_band_crossed_witness :
  ∃ j r1 r2 e1 e2,
    r1 ∈ Numpy.sort [[energy 1; energy 5]; [energy 2; energy 6]]
    ∧ r2 ∈ Numpy.sort [[energy 1; energy 5]; [energy 2; energy 6]]
    ∧ r1 !! j = Some e1 ∧ r2 !! j = Some e2
    ∧ (e1 < Q2Qc (3 # 2))%Qc ∧ (Q2Qc (3 # 2) < e2)%Qc.
Proof.
  apply (fermi_metal_band_crossed (node_of two_bands) two_bands
           [[energy 1; energy 5]; [energy 2; energy 6]] None (Q2Qc (3 # 2))).
  - vm_compute. reflexivity.
  - reflexivity.
  - vm_compute. reflexivity.
Defined.

Lemma fermi_semimetal_energy_stored_witness :
  energy 2 ∈ ndarray_flatten touching_bands.
Proof.
  apply (fermi_semimetal_energy_stored (node_of touching_bands) touching_bands
           None (energy 2) (Q2Qc 0)).
  - vm_compute. reflexivity.
  - vm_compute. reflexivity.
Defined.

Lemma find_bandgap_without_occupations_witness :
  find_bandgap (node_of two_bands) None None
  = Raise (Raised AttributeError "No occupations were set").
Proof.
  apply (find_bandgap_without_occupations (node_of two_bands) two_bands
           [[energy 1; energy 5]; [energy 2; energy 6]]).
  - vm_compute. reflexivity.
  - reflexivity.
  - vm_compute. reflexivity.
Defined.

Lemma set_bands_frame_witness :
  kpoints node_after_set_bands = kpoints node_with_kpoints
  ∧ (∀ name, name ≠ "bands" → name ≠ "occupations" →
       arrays node_after_set_bands !! name = arrays node_with_kpoints !! name)
  ∧ (∀ name, name ≠ "units" → name ≠ "array_labels" →
       attrs node_after_set_bands !! name = attrs node_with_kpoints !! name)
  ∧ (@None ndarray = None →
     arrays node_after_set_bands !! "occupations" = arrays node_with_kpoints !! "occupations")
  ∧ (@None py_labels = None →
     attrs node_after_set_bands !! "array_labels"
     = attrs node_with_kpoints !! "array_labels").
Proof.
  apply (set_bands_frame node_with_kpoints two_bands UnitsNone None None node_after_set_bands).
  reflexivity.
Defined.

Lemma set_bands_units_labels_witness :
  (∃ the_str, str (UnitsStr "eV") = Ok the_str
              ∧ attrs node_after_labels !! "units" = Some (AStr the_str))
  ∧ ∀ l, Some (LString "up") = Some l →
      ∃ names, array_labels node_after_labels = Some (AStrs names)
        ∧ (length (shape (np_array two_bands)) = 2%nat → length names = 1%nat)
        ∧ (length (shape (np_array two_bands)) = 3%nat →
           length names = shape (np_array two_bands) !!! 0%nat)
        ∧ (∀ s, l = LString s → names = [s])
        ∧ (∀ items, l = LSequence items → Some <$> names = items).
Proof.
  apply (set_bands_units_labels node_with_kpoints two_bands (UnitsStr "eV") None
           (Some (LString "up")) node_after_labels).
  reflexivity.
Defined.

Lemma set_bands_raises_witness :
  ((_validate_bands_occupations two_bands None None node_with_kpoints).1
   = Raise (Runtime UnicodeEncodeError)
   ∧ set_array node_with_kpoints "bands" two_bands = node_with_kpoints
   ∧ (class_of (Runtime UnicodeEncodeError) = AttributeError
      ∨ class_of (Runtime UnicodeEncodeError) = ValueError
      ∨ class_of (Runtime UnicodeEncodeError) = ValidationError))
  ∨ ((∃ v, (_validate_bands_occupations two_bands None None node_with_kpoints).1 = Ok v)
     ∧ str (UnitsObject (Raise (Runtime UnicodeEncodeError)))
       = Raise (Runtime UnicodeEncodeError)
     ∧ set_array node_with_kpoints "bands" two_bands
       = set_array node_with_kpoints "bands" (np_array two_bands)).
Proof.
  apply (set_bands_raises node_with_kpoints two_bands
           (UnitsObject (Raise (Runtime UnicodeEncodeError))) None None).
  - intros x e. discriminate.
  - reflexivity.
Defined.


Lemma tearDownClass_without_user_witness :
  ∃ db' log,
    tearDownClass "nobody@localhost" (sample_database, []) = (Ok tt, (db', log))
    ∧ users db' = users sample_database ∧ computers db' = []
    ∧ table <$> reverse log = [DbWorkflow; DbGroup; DbLink; DbNode; DbComputer].
Proof.
  apply (tearDownClass_without_user "nobody@localhost" sample_database).
  compute_done.
Defined.

Lemma tearDownClass_ambiguous_user_witness :
  ∃ db' log,
    tearDownClass "aiida@localhost" (ambiguous_database, [])
    = (Raise (Runtime MultipleObjectsReturned), (db', log))
    ∧ users db' = users ambiguous_database ∧ computers db' = computers ambiguous_database
    ∧ table <$> reverse log = [DbWorkflow; DbGroup; DbLink; DbNode].
Proof.
  apply (tearDownClass_ambiguous_user "aiida@localhost" ambiguous_database
           "aiida@localhost" "aiida@localhost" []).
  reflexivity.
Defined.

Lemma setUpClass_tearDownClass_witness :
  ∃ db' log,
    tearDownClass "test@localhost" (setUpClass "test@localhost" sample_database, [])
    = (Ok tt, (db', log))
    ∧ users db' = users sample_database
    ∧ workflows db' = [] ∧ groups db' = [] ∧ links db' = [] ∧ nodes db' = []
    ∧ computers db' = [].
Proof.
  apply (setUpClass_tearDownClass "test@localhost" sample_database).
  compute_done.
Defined.

Lemma plot_x_nondecreasing_witness :
  plot_x (path_plot_info "dat_1") !! 0%nat = Some (Q2Qc 0)
  ∧ ∀ i a b, plot_x (path_plot_info "dat_1") !! i = Some a →
             plot_x (path_plot_info "dat_1") !! S i = Some b → (a ≤ b)%Qc.
Proof.
  apply (plot_x_nondecreasing kpoints_without_cell labels_of_path axis_norm path_node
           "dat_1" (Some "bands.dat") false (path_plot_info "dat_1")).
  - intros p q. apply Qcabs_nonneg.
  - vm_compute. reflexivity.
Defined.

Lemma plot_x_per_kpoint_witness :
  length (plot_x (path_plot_info "dat_1")) = Nat.max 1 (length path_kpoints).
Proof.
  apply (plot_x_per_kpoint kpoints_without_cell labels_of_path axis_norm path_node
           "dat_1" (Some "bands.dat") false (path_plot_info "dat_1") path_kpoints).
  - reflexivity.
  - vm_compute. reflexivity.
Defined.

Lemma plot_x_discontinuity_witness :
  plot_x (path_plot_info "dat_1") !! 3%nat = plot_x (path_plot_info "dat_1") !! (3 - 1)%nat.
Proof.
  apply (plot_x_discontinuity kpoints_without_cell labels_of_path axis_norm path_node
           "dat_1" (Some "bands.dat") false (path_plot_info "dat_1") path_kpoints
           path_labels 3).
  - reflexivity.
  - reflexivity.
  - vm_compute. reflexivity.
  - vm_compute. lia.
  - compute_done.
  - compute_done.
Defined.

Lemma plot_labels_positions_witness :
  no_equal_neighbours (plot_labels (path_plot_info "dat_1")).*1
  ∧ ∀ l, l ∈ plot_labels (path_plot_info "dat_1") → l.1 ∈ plot_x (path_plot_info "dat_1").
Proof.
  apply (plot_labels_positions kpoints_without_cell labels_of_path axis_norm path_node
           "dat_1" (Some "bands.dat") false (path_plot_info "dat_1")).
  vm_compute. reflexivity.
Defined.

Lemma plot_labels_names_witness :
  String.concat "|" (plot_labels (path_plot_info "dat_1")).*2
  = String.concat "|" path_labels.*2.
Proof.
  apply (plot_labels_names kpoints_without_cell labels_of_path axis_norm path_node
           "dat_1" (Some "bands.dat") false (path_plot_info "dat_1") path_labels).
  - reflexivity.
  - reflexivity.
  - vm_compute. reflexivity.
Defined.

Lemma plot_labels_agr_witness : (Q2Qc 0, "\xG").2 ≠ "G".
Proof.
  apply (plot_labels_agr kpoints_without_cell labels_of_path axis_norm path_node
           "agr" (Some "bands.agr") false (path_plot_info_agr) (Q2Qc 0, "\xG")).
  - reflexivity.
  - vm_compute. reflexivity.
  - vm_compute. left.
Defined.

Lemma export_keeps_files_witness :
  (export kpoints_without_cell labels_of_path axis_norm sample_uuid sample_header dat_1_only
          path_node "bands.dat" None false true true [] {["old.dat" := "kept"]}).2
    !! "old.dat" = Some "kept".
Proof.
  apply (export_keeps_files kpoints_without_cell labels_of_path axis_norm sample_uuid
           sample_header dat_1_only path_node "bands.dat" None true true []
           {["old.dat" := "kept"]} "old.dat" "kept").
  reflexivity.
Defined.

Lemma export_frame_witness :
  (export kpoints_without_cell labels_of_path axis_norm sample_uuid sample_header dat_1_only
          path_node "bands.dat" None true true true [] {["old.dat" := "kept"]}).2
    !! "old.dat" = ({["old.dat" := "kept"]} : gmap string string) !! "old.dat".
Proof.
  apply (export_frame kpoints_without_cell labels_of_path axis_norm sample_uuid
           sample_header dat_1_only path_node "bands.dat" None true true true []
           {["old.dat" := "kept"]} "old.dat").
  - discriminate.
  - intros fmt text extra_files H. unfold _exportstring in H.
    apply bind_Ok in H as (info & _ & H). unfold dat_1_only in H.
    case_bool_decide; simpl in H; discriminate.
Defined.

Lemma export_writes_witness :
  ∃ fmt out,
    (∀ given, @None string = Some given → fmt = given)
    ∧ _exportstring kpoints_without_cell labels_of_path axis_norm sample_uuid sample_header
        dat_1_only path_node fmt (Some "bands.dat") true true [] = Ok out
    ∧ match out with
      | Text filetext => files_after_export !! "bands.dat" = Some filetext
      | TextAndFiles filetext extra_files =>
          files_after_export !! "bands.dat" = Some filetext
          ∧ ∀ k, k ∈ extra_files.*1 → k ≠ "bands.dat" →
                 ∃ v, (k, v) ∈ extra_files ∧ files_after_export !! k = Some v
      end.
Proof.
  apply (export_writes kpoints_without_cell labels_of_path axis_norm sample_uuid
           sample_header dat_1_only path_node "bands.dat" None false true true [] ∅
           files_after_export).
  vm_compute. reflexivity.
Defined.

Lemma export_format_from_extension_witness :
  export kpoints_without_cell labels_of_path axis_norm sample_uuid sample_header dat_1_only
         path_node "bands.dat" None false true true [] ∅
  = export kpoints_without_cell labels_of_path axis_norm sample_uuid sample_header dat_1_only
           path_node "bands.dat"
           (Some (if bool_decide ("dat" = "dat") then "dat_1" else "dat"))
           false true true [] ∅.
Proof.
  apply (export_format_from_extension kpoints_without_cell labels_of_path axis_norm
           sample_uuid sample_header dat_1_only path_node "bands.dat" "dat" false true true
           [] ∅).
  - reflexivity.
  - discriminate.
Defined.

Lemma export_without_extension_witness :
  ((splitext "bands").2 = EmptyString →
   export kpoints_without_cell labels_of_path axis_norm sample_uuid sample_header dat_1_only
          path_node "bands" None false true true [] ∅
   = (Some (PyExn (Runtime IndexError)), ∅))
  ∧ ((splitext "bands").2 = "." →
     export kpoints_without_cell labels_of_path axis_norm sample_uuid sample_header
            dat_1_only path_node "bands" None false true true [] ∅
     = (Some (PyExn (Raised ValueError
                       "Cannot recognized the fileformat from the extension")), ∅)).
Proof.
  apply (export_without_extension kpoints_without_cell labels_of_path axis_norm
           sample_uuid sample_header dat_1_only path_node "bands" false true true [] ∅).
  - discriminate.
  - left. reflexivity.
Defined.

Lemma export_dat_1_only_path_witness :
  (export kpoints_without_cell labels_of_path axis_norm sample_uuid sample_header dat_1_only
          path_node "bands.dat" (Some "dat_1") true true true [] {["old.dat" := "kept"]}).2
    !! "old.dat" = ({["old.dat" := "kept"]} : gmap string string) !! "old.dat".
Proof.
  apply (export_dat_1_only_path kpoints_without_cell labels_of_path axis_norm sample_uuid
           sample_header dat_1_only path_node "bands.dat" true true true []
           {["old.dat" := "kept"]} "old.dat").
  - reflexivity.
  - discriminate.
Defined.

Section float64_samples.
Import Float64.

Lemma find_bandgap_finite_classified_witness :
  (true = true →
   ∃ g, Some (Finite (energy 5 - energy 2)%Qc) = Some g ∧ lt zero g = true)
  ∧ (true = false →
     Some (Finite (energy 5 - energy 2)%Qc) = None
     ∨ Some (Finite (energy 5 - energy 2)%Qc) = Some zero).
Proof.
  apply (find_bandgap_finite_classified Float64.sorted_by_key
           (finite_node (node_of two_bands)) (Some (Finite (energy 2))) None).
  - intros l _. reflexivity.
  - apply finite_node_stores_finite_numbers.
  - vm_compute. reflexivity.
Defined.


Lemma insulator_gap_of_stored_energies_float64_witness :
  ∃ homo lumo,
    homo ∈ elements (finite_array two_bands) ∧ lumo ∈ elements (finite_array two_bands)
    ∧ Finite (energy 5 - energy 2)%Qc = sub lumo homo ∧ lt homo lumo = true
    ∧ ∀ f, @None float64 = Some f → lt homo f = true ∧ lt f lumo = true.
Proof.
  apply (insulator_gap_of_stored_energies_float64 Float64.sorted_by_key
           (finite_node (node_of two_bands)) (finite_array two_bands)
           (Some (Finite (energy 2))) None).
  - intros l _. reflexivity.
  - apply finite_node_stores_finite_numbers.
  - intros v [= <-]. reflexivity.
  - intros v [=].
  - vm_compute. reflexivity.
  - vm_compute. reflexivity.
Defined.

Lemma no_electrons_never_insulator_float64_witness : false = false.
Proof.
  apply (no_electrons_never_insulator_float64 Float64.sorted_by_key
           (finite_node (node_of two_bands)) (Finite (energy 0)) false None).
  - apply finite_node_stores_finite_numbers.
  - reflexivity.
  - vm_compute. reflexivity.
Defined.

End float64_samples.
